(** * FlipAgent: the agent manager's tool selection, dispatch, transcript
      normalisation and agentic loop

    A shallow embedding of the agent manager module: the functions
    [defineTools], [selectTools], [getUserCreds], [executeTool],
    [handleMessage] (inside [createAgentManager]) and
    [ensureAlternatingRoles], together with the properties stated about
    them.

    Conventions.
    - A JavaScript [Map] keeps its keys in insertion order and [set] on a
      key that is already there replaces the value in place: it is an
      association list here ([JsMap]).
    - A JSON-like value is a [Json] tree.
    - An [async] function that may reject is a computation in [Async]: the
      list of calls it made to its collaborators, and either the value it
      resolved to or the message of the error it rejected with.
    - The collaborators of the agent manager (language model, platform
      adapters, credential and session stores, [JSON.stringify], [trim])
      are parameters, gathered in an [Environment]: every theorem holds
      whatever they do. *)

From Stdlib Require Import String Ascii List Arith Bool Lia ZArith.
Import ListNotations.
Local Open Scope string_scope.
Local Open Scope list_scope.

Set Implicit Arguments.
Set Warnings "-register-all".

(* ===================================================================== *)
(** ** Strings as the code uses them *)
(* ===================================================================== *)

(** The line feed of ['\n']. *)
Definition LF : string := String (ascii_of_nat 10) EmptyString.

(** [haystack.includes(needle)]. *)
Fixpoint includes (haystack needle : string) : bool :=
  String.prefix needle haystack
  || match haystack with
     | EmptyString => false
     | String _ rest => includes rest needle
     end.

(** [parts.join(sep)]. *)
Definition join (sep : string) (parts : list string) : string :=
  String.concat sep parts.

(** [names.has(name)] on a set of strings. *)
Definition has (names : list string) (name : string) : bool :=
  existsb (String.eqb name) names.

(** No string of [names] occurs twice. *)
Fixpoint distinct (names : list string) : bool :=
  match names with
  | [] => true
  | n :: rest => negb (has rest n) && distinct rest
  end.

(** JavaScript truthiness of a string: [if (text)]. *)
Definition truthy (s : string) : bool :=
  match s with EmptyString => false | _ => true end.

(* ===================================================================== *)
(** ** [Map<string, V>]: insertion ordered, [set] replaces in place *)
(* ===================================================================== *)

Module JsMap.
Section Defs.
Variable V : Type.

Definition t := list (string * V).

Definition empty : t := [].

(** [m.set(k, v)]. *)
Fixpoint set (k : string) (v : V) (m : t) : t :=
  match m with
  | [] => [(k, v)]
  | (k', v') :: rest =>
      if String.eqb k' k then (k, v) :: rest
      else (k', v') :: set k v rest
  end.

(** [m.get(k)]. *)
Fixpoint get (k : string) (m : t) : option V :=
  match m with
  | [] => None
  | (k', v') :: rest => if String.eqb k' k then Some v' else get k rest
  end.

(** [m.size]. *)
Definition size (m : t) : nat := length m.

(** [Array.from(m.values())]. *)
Definition values (m : t) : list V := map snd m.

Definition keys (m : t) : list string := map fst m.
End Defs.

Arguments empty {V}.
End JsMap.

(* ===================================================================== *)
(** ** JSON-like values *)
(* ===================================================================== *)

(** Tool inputs, tool payloads and stored credentials. Only whole numbers
    occur on the paths modelled here. *)
Inductive Json : Type :=
| JNull
| JBool (b : bool)
| JNum (n : Z)
| JStr (s : string)
| JArr (items : list Json)
| JObj (fields : list (string * Json)).

(** [obj.key], [None] standing for [undefined]. *)
Definition prop (key : string) (obj : Json) : option Json :=
  match obj with
  | JObj fields => JsMap.get key fields
  | _ => None
  end.

(* ===================================================================== *)
(** ** Tool definitions *)
(* ===================================================================== *)

Definition Platform := string.
Definition Category := string.

(** Modelled from the spec: the type [ToolMetadata] of [tool-registry.ts],
    which is not among the sources. Section 3 of the specification:
    [metadata: {platform?, category?, core: bool}]; these are the fields
    the agent manager reads and writes. *)
Record ToolMetadata := {
  platform : option Platform;
  category : option Category;
  core : bool
}.

(** [ToolDefinition]. The [input_schema] is only forwarded to the model and
    is not represented. *)
Record ToolDefinition := {
  name : string;
  description : string;
  metadata : option ToolMetadata
}.

Definition isCore (tool : ToolDefinition) : bool :=
  match metadata tool with
  | Some md => core md
  | None => false
  end.

Definition onPlatform (p : Platform) (tool : ToolDefinition) : bool :=
  match metadata tool with
  | Some {| platform := Some q |} => String.eqb q p
  | _ => false
  end.

Definition inCategory (c : Category) (tool : ToolDefinition) : bool :=
  match metadata tool with
  | Some {| category := Some d |} => String.eqb d c
  | _ => false
  end.

(** The name and description literals of [defineTools], in source order. *)
Definition TOOL_LITERALS : list (string * string) :=
  [
    ("scan_amazon",
     "Search Amazon for products by keyword. Returns product listings with prices, ratings, and availability.");
    ("scan_ebay",
     "Search eBay for products by keyword. Returns listings with prices, seller ratings, and shipping info.");
    ("scan_walmart",
     "Search Walmart for products by keyword. Returns product listings with prices and availability.");
    ("scan_aliexpress",
     "Search AliExpress for products by keyword. Returns listings with prices, seller ratings, and shipping times.");
    ("compare_prices",
     "Compare prices for a product across all platforms. Finds the cheapest source and best selling price.");
    ("find_arbitrage",
     "Find arbitrage opportunities with positive margins. Scans across platforms for price gaps.");
    ("match_products",
     "Match a product across platforms using UPC, title, or other identifiers. Returns the same product on different platforms.");
    ("get_product_details",
     "Get detailed product information from a specific platform including description, images, specifications, and current price.");
    ("check_stock",
     "Check current stock availability for a product on a specific platform.");
    ("get_price_history",
     "Get historical price data for a product. Shows price trends over time.");
    ("create_ebay_listing",
     "Create a new eBay listing for a product. Auto-optimizes title and description for search visibility.");
    ("create_amazon_listing",
     "Create a new Amazon listing or offer for an existing product.");
    ("update_listing_price",
     "Update the price of an existing listing on any platform.");
    ("optimize_listing",
     "Optimize an existing listing by improving title, description, and keywords for better search ranking.");
    ("bulk_list",
     "Create listings for multiple arbitrage opportunities at once.");
    ("pause_listing",
     "Pause an active listing (temporarily hide from buyers).");
    ("resume_listing",
     "Resume a paused listing (make visible to buyers again).");
    ("delete_listing",
     "Permanently delete a listing from the selling platform.");
    ("check_orders",
     "Check current orders and their statuses. Filter by status or platform.");
    ("auto_purchase",
     "Automatically purchase a product from the source platform to fulfill an order.");
    ("track_shipment",
     "Get shipping tracking information for an order.");
    ("update_tracking",
     "Update tracking information for an order on the selling platform.");
    ("handle_return",
     "Process a return request for an order.");
    ("calculate_profit",
     "Calculate profit for a specific order or over a date range, accounting for all fees and costs.");
    ("daily_report",
     "Generate a daily summary report of all activity: scans, listings, orders, and profit.");
    ("profit_dashboard",
     "Show profit dashboard with revenue, costs, fees, and net profit for a given period.");
    ("top_opportunities",
     "Show the top current arbitrage opportunities ranked by estimated profit margin.");
    ("category_analysis",
     "Analyze profitability and opportunity density by product category.");
    ("competitor_watch",
     "Monitor competitor pricing and activity for a product or across a platform.");
    ("fee_calculator",
     "Calculate estimated platform fees for selling a product at a given price.");
    ("setup_amazon_credentials",
     "Store Amazon Product Advertising API credentials for product scanning and listing.");
    ("setup_ebay_credentials",
     "Store eBay API credentials for listing and order management.");
    ("setup_walmart_credentials",
     "Store Walmart API credentials for product scanning.");
    ("setup_aliexpress_credentials",
     "Store AliExpress API credentials for product scanning and sourcing.");
    ("list_credentials",
     "List all configured platform credentials (shows platforms, not secrets).");
    ("delete_credentials",
     "Delete stored credentials for a platform.");
    ("get_shipping_cost",
     "Get shipping cost estimates for an AliExpress product to a destination country.");
    ("get_hot_products",
     "Get trending/hot products from AliExpress. Useful for finding popular items with high demand.");
    ("get_aliexpress_categories",
     "Get the full list of AliExpress product categories for browsing and filtering.");
    ("get_product_variations",
     "Get all variations (sizes, colors, etc.) for an Amazon product by ASIN.");
    ("browse_amazon_categories",
     "Browse Amazon category tree by browse node IDs. Shows parent/child categories.");
    ("ebay_get_policies",
     "Get eBay seller business policies (fulfillment, payment, return). Required for creating listings.");
    ("ebay_create_policy",
     "Create an eBay business policy (fulfillment, payment, or return).");
    ("ebay_category_suggest",
     "Get eBay category suggestions for a product query. Helps pick the right category for listings.");
    ("ebay_item_aspects",
     "Get required and recommended item aspects (specifics) for an eBay category.");
    ("ebay_get_inventory",
     "List current eBay inventory items with pagination.");
    ("ebay_bulk_update",
     "Bulk update prices and/or quantities for multiple eBay listings at once.");
    ("ebay_issue_refund",
     "Issue a refund for an eBay order.");
    ("walmart_upc_lookup",
     "Look up a Walmart product by UPC barcode for exact matching.");
    ("walmart_trending",
     "Get trending/popular products on Walmart.");
    ("walmart_taxonomy",
     "Get Walmart product category taxonomy for browsing and filtering.");
    ("get_ds_order_status",
     "Check the status of an AliExpress dropshipping order.");
    ("amazon_sp_search_catalog",
     "Search Amazon product catalog via SP-API. Returns detailed catalog data including sales rank, images, brand.");
    ("amazon_sp_get_pricing",
     "Get competitive pricing and buy box data for Amazon ASINs. Essential for arbitrage price comparison.");
    ("amazon_sp_estimate_fees",
     "Estimate Amazon seller fees (FBA/FBM) for a product at a given price. Critical for profit calculations.");
    ("amazon_sp_create_listing",
     "Create or update an Amazon listing via SP-API Listings Items API.");
    ("amazon_sp_get_orders",
     "Get Amazon seller orders (recent or filtered by status/date).");
    ("amazon_sp_get_fba_inventory",
     "Get FBA inventory summaries showing fulfillable quantities, inbound, and receiving stock.");
    ("ebay_get_transactions",
     "Get eBay seller transaction history — sales, refunds, fees. Essential for P&L tracking.");
    ("ebay_get_payouts",
     "Get eBay payout history — when money was sent to your bank account.");
    ("ebay_funds_summary",
     "Get eBay seller funds summary — available balance, funds on hold, processing.");
    ("ebay_traffic_report",
     "Get eBay seller traffic analytics — views, impressions, click-through rate, conversion rate.");
    ("ebay_seller_metrics",
     "Get eBay seller performance metrics — defect rate, late shipment rate, INR rate.");
    ("ebay_create_campaign",
     "Create an eBay Promoted Listings campaign to boost visibility. Costs only when items sell.");
    ("ebay_get_campaigns",
     "List eBay Promoted Listings campaigns with status.");
    ("ebay_promote_listings",
     "Add listings to an eBay Promoted Listings campaign (bulk).");
    ("keepa_price_history",
     "Get Amazon price history from Keepa — current, avg 30/90/180 day, all-time min/max. Critical for buy decisions.");
    ("keepa_deals",
     "Find current Amazon price drops/deals via Keepa. Great for sourcing arbitrage opportunities.");
    ("keepa_bestsellers",
     "Get Amazon bestseller ASINs for a category via Keepa.");
    ("keepa_track_product",
     "Set up a Keepa price alert for an Amazon product. Get notified when price drops below threshold.");
    ("get_shipping_rates",
     "Compare shipping rates across carriers (USPS, UPS, FedEx) for a package. Returns cheapest options.");
    ("buy_shipping_label",
     "Purchase a shipping label at a previously quoted rate. Returns label URL and tracking number.");
    ("track_package",
     "Track any package across all carriers (USPS, UPS, FedEx, DHL, etc.) using EasyPost universal tracking.");
    ("verify_address",
     "Verify a shipping address via USPS. Returns corrected address with delivery verification.");
    ("setup_amazon_sp_credentials",
     "Configure Amazon SP-API (Selling Partner API) credentials for seller operations.");
    ("setup_keepa_credentials",
     "Configure Keepa API key for Amazon price history tracking.");
    ("setup_easypost_credentials",
     "Configure EasyPost API key for shipping labels and tracking.");
    ("walmart_get_seller_items",
     "Get your Walmart Marketplace seller items. Lists your catalog with publish status and pricing.");
    ("walmart_update_price",
     "Update pricing for a Walmart Marketplace item by SKU.");
    ("walmart_update_inventory",
     "Update inventory quantity for a Walmart Marketplace item by SKU.");
    ("walmart_get_orders",
     "Get Walmart Marketplace orders. Filter by status and date.");
    ("walmart_ship_order",
     "Ship a Walmart Marketplace order with tracking information.");
    ("walmart_retire_item",
     "Retire (delist) an item from your Walmart Marketplace store.");
    ("walmart_get_inventory",
     "Get current inventory quantity for a Walmart Marketplace item.");
    ("batch_reprice",
     "Batch update prices for multiple listings. Adjusts prices based on competitor data or fixed amounts.");
    ("inventory_sync",
     "Sync inventory levels across platforms. Checks source product stock and updates listing quantities.");
    ("setup_walmart_seller_credentials",
     "Configure Walmart Marketplace seller credentials (separate from Affiliate API). Uses OAuth 2.0 client credentials.");
    ("tool_search",
     "Search for available tools by name, platform, or category. Use this when you need a specialized tool that is not in your current set.")
  ].

(* ===================================================================== *)
(** ** The tool registry *)
(* ===================================================================== *)

Module ToolRegistry.

(** Modelled from the spec: the class [ToolRegistry] of
    [tool-registry.ts], which is not among the sources. Sections 3 and 4.1
    of the specification: the registry owns the descriptors keyed by name,
    in registration order. *)
Definition t := JsMap.t ToolDefinition.

(** Modelled from the spec: a new [ToolRegistry], holding nothing. *)
Definition empty : t := JsMap.empty.

(** Modelled from the spec: [register(descriptor)]; of the two behaviours
    section 3 allows for a name registered twice, the later descriptor
    overwrites the earlier one. *)
Definition register (tool : ToolDefinition) (r : t) : t :=
  JsMap.set (name tool) tool r.

(** Modelled from the spec: [registerAll(descriptors)], one [register]
    per descriptor, in order. *)
Definition registerAll (tools : list ToolDefinition) (r : t) : t :=
  fold_left (fun acc tool => register tool acc) tools r.

(** Modelled from the spec: all descriptors, in registration order. *)
Definition getAll (r : t) : list ToolDefinition := JsMap.values r.

(** Modelled from the spec: [getByName(name) -> descriptor|none]. *)
Definition getByName (n : string) (r : t) : option ToolDefinition :=
  JsMap.get n r.

(** Modelled from the spec: [getCoreTools], section 4.1's [getCore()]:
    all entries flagged core, stable order = registration order. *)
Definition getCoreTools (r : t) : list ToolDefinition :=
  filter isCore (getAll r).

(** Modelled from the spec: [searchByPlatform], section 3's
    filter-by-platform: the entries whose platform tag is exactly [p], in
    registration order. *)
Definition searchByPlatform (r : t) (p : Platform) : list ToolDefinition :=
  filter (onPlatform p) (getAll r).

(** Modelled from the spec: [searchByCategory], section 3's
    filter-by-category: the entries whose category tag is exactly [c], in
    registration order. *)
Definition searchByCategory (r : t) (c : Category) : list ToolDefinition :=
  filter (inCategory c) (getAll r).

(** Modelled from the spec: [size() -> int]. *)
Definition size (r : t) : nat := JsMap.size r.

(** The registry of a process: everything [defs] lists, registered in
    order into a new registry. *)
Definition of_list (defs : list ToolDefinition) : t := registerAll defs empty.

(** A tool filed under its own name. *)
Definition byName (tool : ToolDefinition) : string * ToolDefinition :=
  (name tool, tool).

(** Every entry is filed under its own name, and no name is filed
    twice. *)
Definition wellKeyed (r : t) : Prop :=
  NoDup (JsMap.keys r) /\ forall k tool, In (k, tool) r -> name tool = k.

(** Everything selected is an entry of the registry [r]. *)
Definition fromRegistry (r : t) (sel : JsMap.t ToolDefinition) : Prop :=
  forall k tool, In (k, tool) sel -> In (k, tool) r.

(** [sel'] still has every entry of [sel]. *)
Definition keeps (sel sel' : JsMap.t ToolDefinition) : Prop :=
  forall entry, In entry sel -> In entry sel'.

End ToolRegistry.

(** Modelled from the spec: what [detectToolHints] of [tool-registry.ts]
    returns. Section 4.2 of the specification: the platform tags and the
    category tags found in the message; [selectTools] iterates over
    [hints.platforms] and [hints.categories]. *)
Record ToolHints := {
  platforms : list Platform;
  categories : list Category
}.

(* ===================================================================== *)
(** ** [defineTools] and [selectTools] *)
(* ===================================================================== *)

Section Selection.

(** Exports of [tool-registry.ts] that the agent manager imports; the
    file is not among the sources, so they are parameters. *)
Variable inferToolMetadata : string -> string -> ToolMetadata.
Variable CORE_TOOL_NAMES : list string.
Variable detectToolHints : string -> ToolHints.

(** [defineTools]: the literals, each given its inferred metadata with
    [core] overridden by membership in [CORE_TOOL_NAMES]. *)
Definition defineTools : list ToolDefinition :=
  map (fun lit : string * string =>
         let (n, d) := lit in
         let inferred := inferToolMetadata n d in
         {| name := n;
            description := d;
            metadata := Some {| platform := platform inferred;
                                category := category inferred;
                                core := has CORE_TOOL_NAMES n |} |})
      TOOL_LITERALS.

Definition MAX_TOOLS : nat := 50.

(** The inner [for] of [selectTools]: add the tools one by one and leave
    the loop at the first one met with the map full. *)
Fixpoint addWhileRoom (tools : list ToolDefinition)
         (selected : JsMap.t ToolDefinition) : JsMap.t ToolDefinition :=
  match tools with
  | [] => selected
  | tool :: rest =>
      if (MAX_TOOLS <=? JsMap.size selected)%nat then selected
      else addWhileRoom rest (JsMap.set (name tool) tool selected)
  end.

Definition selectTools (registry : ToolRegistry.t) (messageText : string)
  : list ToolDefinition :=
  let selected :=
    fold_left (fun sel tool => JsMap.set (name tool) tool sel)
              (ToolRegistry.getCoreTools registry) JsMap.empty in
  let hints := detectToolHints messageText in
  let selected :=
    fold_left (fun sel p =>
                 addWhileRoom (ToolRegistry.searchByPlatform registry p) sel)
              (platforms hints) selected in
  let selected :=
    fold_left (fun sel c =>
                 addWhileRoom (ToolRegistry.searchByCategory registry c) sel)
              (categories hints) selected in
  JsMap.values selected.

End Selection.

(* ===================================================================== *)
(** ** The transcript *)
(* ===================================================================== *)

Inductive Role : Type := user | assistant.

Definition role_eqb (a b : Role) : bool :=
  match a, b with
  | user, user | assistant, assistant => true
  | _, _ => false
  end.

(** A content block of the chat protocol. [block_id], [block_name] and
    [block_input] are the [id], [name] and [input] of a [tool_use] block. *)
Inductive ContentBlock : Type :=
| text_block (text : string)
| tool_use_block (block_id block_name : string) (block_input : Json)
| tool_result_block (tool_use_id : string) (result_content : string)
| other_block (type : string).

(** [content: string | ContentBlock[]]. *)
Inductive Content : Type :=
| plain (s : string)
| blocks (bs : list ContentBlock).

Record MessageParam := {
  role : Role;
  content : Content
}.

Definition isPlain (c : Content) : bool :=
  match c with plain _ => true | blocks _ => false end.

(* ===================================================================== *)
(** ** [ensureAlternatingRoles] *)
(* ===================================================================== *)

(** [result[result.length - 1]], [None] when [result] is empty. *)
Fixpoint lastOf (A : Type) (result : list A) : option A :=
  match result with
  | [] => None
  | [x] => Some x
  | _ :: rest => lastOf rest
  end.

(** The assignment [last.content = c]: [last] is the object at the end of
    [result], so the array sees the new content. *)
Fixpoint setLastContent (result : list MessageParam) (c : Content)
  : list MessageParam :=
  match result with
  | [] => []
  | [x] => [{| role := role x; content := c |}]
  | x :: rest => x :: setLastContent rest c
  end.

(** One pass of the [for] loop over [messages]. *)
Definition visit (result : list MessageParam) (msg : MessageParam)
  : list MessageParam :=
  match lastOf result with
  | Some last =>
      if role_eqb (role last) (role msg) then
        match content last, content msg with
        | plain a, plain b => setLastContent result (plain (a ++ LF ++ b))
        | _, _ => result
        end
      else result ++ [msg]
  | None => result ++ [msg]
  end.

(** No two neighbours in a list of roles are the same. *)
Fixpoint alternating (roles : list Role) : Prop :=
  match roles with
  | a :: (b :: _) as rest => a <> b /\ alternating rest
  | _ => True
  end.

Definition CONVERSATION_START : MessageParam :=
  {| role := user; content := plain "(conversation start)" |}.

Definition ensureAlternatingRoles (messages : list MessageParam)
  : list MessageParam :=
  match messages with
  | [] => []
  | _ =>
      let result := fold_left visit messages [] in
      match result with
      | first :: _ =>
          match role first with
          | user => result
          | assistant => CONVERSATION_START :: result
          end
      | [] => result
      end
  end.

(* ===================================================================== *)
(** ** Asynchronous calls and their outcomes *)
(* ===================================================================== *)

(** [adapter.search]'s argument. *)
Record SearchRequest := {
  query : option Json;
  search_category : option Json;
  maxResults : Z
}.

(** What a promise settles to; a rejection carries the message
    [err instanceof Error ? err.message : String(err)] reads. *)
Inductive Outcome (A : Type) : Type :=
| Resolved (a : A)
| Rejected (message : string).
Arguments Rejected {A} message.

(** The calls [executeTool] makes to its collaborators. *)
Inductive Call : Type :=
| CreateAdapter (p : Platform)
| AdapterSearch (p : Platform) (request : SearchRequest)
| UpsertProduct (product : Json)
| AddPrice (product : Json)
| WrapperCase (toolName : string)
| LoggerWarn (text : string).

Definition onAdapter (p : Platform) (c : Call) : bool :=
  match c with
  | CreateAdapter q | AdapterSearch q _ => String.eqb q p
  | _ => false
  end.

(** A computation that makes calls and then resolves or rejects. *)
Definition Async (A : Type) : Type := list Call * Outcome A.

Definition ret (A : Type) (a : A) : Async A := ([], Resolved a).

Definition bind (A B : Type) (m : Async A) (k : A -> Async B) : Async B :=
  match m with
  | (calls, Resolved a) => let (calls', o) := k a in (calls ++ calls', o)
  | (calls, Rejected e) => (calls, Rejected e)
  end.

Definition emit (c : Call) : Async unit := ([c], Resolved tt).

Definition callsOf (A : Type) (m : Async A) : list Call := fst m.
Definition outcomeOf (A : Type) (m : Async A) : Outcome A := snd m.

Declare Scope async_scope.
Delimit Scope async_scope with async.
Notation "x <- m ;; k" := (bind m (fun x => k))
  (at level 61, m at next level, right associativity) : async_scope.
Notation "m ;;; k" := (bind m (fun _ => k))
  (at level 61, right associativity) : async_scope.

(* ===================================================================== *)
(** ** [getUserCreds] and [executeTool] *)
(* ===================================================================== *)

(** The [CredentialsManager] interface, as far as [getUserCreds] uses it:
    [getCredentials] returns the stored value or [null]. *)
Record CredentialsManager := {
  getCredentials : string -> Platform -> option Json
}.

(** [PlatformAdapter]: [search] may reject. *)
Record PlatformAdapter := {
  search : SearchRequest -> Outcome (list Json)
}.

(** An adapter whose [search] always resolves. *)
Definition neverRejects (adapter : PlatformAdapter) : Prop :=
  forall request, exists results, search adapter request = Resolved results.

(** The adapter factories imported from [../platforms]. *)
Record Platforms := {
  createAmazonAdapter : option Json -> PlatformAdapter;
  createEbayAdapter : option Json -> PlatformAdapter;
  createWalmartAdapter : option Json -> PlatformAdapter;
  createAliExpressAdapter : option Json -> PlatformAdapter
}.

Record UserCreds := {
  amazon : option Json;
  ebay : option Json;
  walmart : option Json;
  aliexpress : option Json;
  keepa : option Json;
  easypost : option Json
}.

Definition getUserCreds (credentials : CredentialsManager) (userId : string)
  : UserCreds :=
  {| amazon := getCredentials credentials userId "amazon";
     ebay := getCredentials credentials userId "ebay";
     walmart := getCredentials credentials userId "walmart";
     aliexpress := getCredentials credentials userId "aliexpress";
     keepa := getCredentials credentials userId "amazon";
     easypost := getCredentials credentials userId "ebay" |}.

(** [!value] on a value that may be [undefined]. *)
Definition falsy (value : option Json) : bool :=
  match value with
  | None | Some JNull | Some (JBool false) | Some (JStr EmptyString) => true
  | Some (JNum n) => Z.eqb n 0
  | Some _ => false
  end.

(** [Database], as far as [storeResults] uses it: a write returns or
    throws. *)
Record Database := {
  upsertProduct : Json -> Outcome unit;
  addPrice : Json -> Outcome unit
}.

(** The [context] argument of [executeTool]; the writes to its database
    are the [UpsertProduct] and [AddPrice] calls. *)
Record Context := {
  registry : ToolRegistry.t;
  db : Database;
  credentials : CredentialsManager;
  userId : string
}.

(** The [case] labels of [executeTool] whose bodies are not spelled out
    here (every label but the four scanners), in source order. *)
Definition WRAPPER_CASES : list string :=
  [
    "tool_search"; "setup_amazon_credentials"; "setup_ebay_credentials";
    "setup_walmart_credentials"; "setup_aliexpress_credentials";
    "list_credentials"; "delete_credentials"; "compare_prices";
    "find_arbitrage"; "match_products"; "get_product_details"; "check_stock";
    "get_price_history"; "create_ebay_listing"; "create_amazon_listing";
    "update_listing_price"; "optimize_listing"; "bulk_list"; "pause_listing";
    "resume_listing"; "delete_listing"; "check_orders"; "auto_purchase";
    "track_shipment"; "update_tracking"; "handle_return"; "calculate_profit";
    "daily_report"; "profit_dashboard"; "top_opportunities";
    "category_analysis"; "competitor_watch"; "fee_calculator";
    "get_shipping_cost"; "get_hot_products"; "get_aliexpress_categories";
    "get_product_variations"; "browse_amazon_categories";
    "ebay_get_policies"; "ebay_create_policy"; "ebay_category_suggest";
    "ebay_item_aspects"; "ebay_get_inventory"; "ebay_bulk_update";
    "ebay_issue_refund"; "walmart_upc_lookup"; "walmart_trending";
    "walmart_taxonomy"; "get_ds_order_status"; "amazon_sp_search_catalog";
    "amazon_sp_get_pricing"; "amazon_sp_estimate_fees";
    "amazon_sp_create_listing"; "amazon_sp_get_orders";
    "amazon_sp_get_fba_inventory"; "ebay_get_transactions";
    "ebay_get_payouts"; "ebay_funds_summary"; "ebay_traffic_report";
    "ebay_seller_metrics"; "ebay_create_campaign"; "ebay_get_campaigns";
    "ebay_promote_listings"; "keepa_price_history"; "keepa_deals";
    "keepa_bestsellers"; "keepa_track_product"; "get_shipping_rates";
    "buy_shipping_label"; "track_package"; "verify_address";
    "setup_amazon_sp_credentials"; "setup_keepa_credentials";
    "setup_easypost_credentials"; "setup_walmart_seller_credentials";
    "walmart_get_seller_items"; "walmart_update_price";
    "walmart_update_inventory"; "walmart_get_inventory";
    "walmart_get_orders"; "walmart_ship_order"; "walmart_retire_item";
    "batch_reprice"; "inventory_sync"
  ].

(** The labels of the four scanner cases, and all the labels. *)
Definition SCANNER_CASES : list string :=
  ["scan_amazon"; "scan_ebay"; "scan_walmart"; "scan_aliexpress"].

Definition CASE_LABELS : list string := SCANNER_CASES ++ WRAPPER_CASES.

Definition NOT_CONFIGURED (platformName setupTool : string) : Json :=
  JObj [("status", JStr "error");
        ("message", JStr (platformName ++ " credentials not configured. Use "
                          ++ setupTool ++ " first."))].

Definition UNKNOWN_TOOL (toolName : string) : Json :=
  JObj [("error", JStr ("Unknown tool: " ++ toolName))].

Section Execution.
Local Open Scope async_scope.

Variable platformsApi : Platforms.

(** The bodies of the [WRAPPER_CASES]: each may make calls, resolve to a
    payload or reject. *)
Variable wrapperCase : string -> Json -> Context -> UserCreds -> Async Json.

(** [storeResults]: for each result the product, then the price; a write
    that throws ends the loop and is not caught. *)
Fixpoint storeResults (database : Database) (results : list Json)
  : Async unit :=
  match results with
  | [] => ret tt
  | r :: rest =>
      ([UpsertProduct r], upsertProduct database r) ;;;
      ([AddPrice r], addPrice database r) ;;;
      storeResults database rest
  end.

(** The request the four scanners build from [input]. *)
Definition searchRequest (input : Json) : SearchRequest :=
  {| query := prop "query" input;
     search_category := prop "category" input;
     maxResults := match prop "maxResults" input with
                   | Some (JNum n) => n
                   | _ => 10%Z
                   end |}.

(** The body the four scanner cases share after their credential check:
    the adapter is made, [await adapter.search(...)], [storeResults],
    and the payload. *)
Definition scanWith (p : Platform)
           (createAdapter : option Json -> PlatformAdapter)
           (creds : option Json) (input : Json) (database : Database)
  : Async Json :=
  emit (CreateAdapter p) ;;;
  let adapter := createAdapter creds in
  let request := searchRequest input in
  results <- ([AdapterSearch p request], search adapter request) ;;
  storeResults database results ;;;
  ret (JObj [("status", JStr "ok");
             ("results", JArr results);
             ("count", JNum (Z.of_nat (length results)))]).

Definition executeTool (toolName : string) (input : Json) (context : Context)
  : Async Json :=
  let creds := getUserCreds (credentials context) (userId context) in
  if String.eqb toolName "scan_amazon" then
    if falsy (amazon creds)
    then ret (NOT_CONFIGURED "Amazon" "setup_amazon_credentials")
    else scanWith "amazon" (createAmazonAdapter platformsApi)
                  (amazon creds) input (db context)
  else if String.eqb toolName "scan_ebay" then
    if falsy (ebay creds)
    then ret (NOT_CONFIGURED "eBay" "setup_ebay_credentials")
    else scanWith "ebay" (createEbayAdapter platformsApi)
                  (ebay creds) input (db context)
  else if String.eqb toolName "scan_walmart" then
    if falsy (walmart creds)
    then ret (NOT_CONFIGURED "Walmart" "setup_walmart_credentials")
    else scanWith "walmart" (createWalmartAdapter platformsApi)
                  (walmart creds) input (db context)
  else if String.eqb toolName "scan_aliexpress" then
    if falsy (aliexpress creds)
    then ret (NOT_CONFIGURED "AliExpress" "setup_aliexpress_credentials")
    else scanWith "aliexpress" (createAliExpressAdapter platformsApi)
                  (aliexpress creds) input (db context)
  else if has WRAPPER_CASES toolName then
    emit (WrapperCase toolName) ;;;
    wrapperCase toolName input context creds
  else
    emit (LoggerWarn "Unknown tool called") ;;;
    ret (UNKNOWN_TOOL toolName).

End Execution.

(** Both writes of [storeResults] for the result [r] return. *)
Definition written (database : Database) (r : Json) : Prop :=
  upsertProduct database r = Resolved tt
  /\ addPrice database r = Resolved tt.

(** The writes of [storeResults] for [results] when none throws. *)
Definition writesFor (results : list Json) : list Call :=
  flat_map (fun r => [UpsertProduct r; AddPrice r]) results.

(* ===================================================================== *)
(** ** [createAgentManager] and [handleMessage] *)
(* ===================================================================== *)

(** The model's answer: [content] and [stop_reason] of [Anthropic.Message]. *)
Record Message := {
  response_content : list ContentBlock;
  stop_reason : option string
}.

(** A tool as the model is shown it: [toApiTools] drops [metadata]. *)
Record ApiTool := {
  api_name : string;
  api_description : string
}.

Definition toApiTools (tools : list ToolDefinition) : list ApiTool :=
  map (fun tool => {| api_name := name tool;
                      api_description := description tool |}) tools.

(** An entry of [toolUseBlocks]: [{ id, name, input }]. *)
Record ToolCall := {
  call_id : string;
  call_name : string;
  call_input : Json
}.

Record IncomingMessage := {
  msg_id : string;
  msg_platform : string;
  msg_chatId : string;
  msg_userId : string;
  msg_text : string
}.

Record OutgoingMessage := {
  out_platform : string;
  out_chatId : string;
  out_text : string;
  replyToMessageId : string
}.

(** What the agentic loop did, in order. *)
Inductive LoopEvent : Type :=
| ModelCall (iteration : nat)
| ModelError (errMsg : string)
| ToolRun (toolCall : ToolCall) (made : list Call)
| ToolError (toolCall : ToolCall) (errMsg : string).

Definition isModelCall (e : LoopEvent) : bool :=
  match e with ModelCall _ => true | _ => false end.

(** The number of calls to the model among [events]. *)
Definition modelCalls (events : list LoopEvent) : nat :=
  length (filter isModelCall events).

(** The variables of the agentic loop, with what it did so far. *)
Record LoopState := {
  currentMessages : list MessageParam;
  iterations : nat;
  finalText : string;
  events : list LoopEvent
}.

(** How one pass through the body of the [while] ends: at its closing
    brace, or at a [break]. *)
Inductive Pass : Type :=
| Continue (s : LoopState)
| Break (s : LoopState).

Definition MAX_ITERATIONS : nat := 10.

Definition TOO_LONG_REPLY : string :=
  "I apologize, but the conversation has grown too long. Please start a new conversation with /new.".

Definition TRY_AGAIN_REPLY : string :=
  "Sorry, I encountered an error processing your request. Please try again.".

Definition MAX_ITERATIONS_NOTICE : string :=
  LF ++ LF ++ "(Reached maximum tool call iterations.)".

Definition textBlocksOf (response : list ContentBlock) : list string :=
  flat_map (fun block => match block with
                         | text_block t => [t]
                         | _ => []
                         end) response.

Definition toolUseBlocksOf (response : list ContentBlock) : list ToolCall :=
  flat_map (fun block => match block with
                         | tool_use_block i n inp =>
                             [{| call_id := i; call_name := n; call_input := inp |}]
                         | _ => []
                         end) response.


(** A model answer that keeps the loop going: it resolves, it asks for at
    least one tool, and it is not an [end_turn] answer with text. *)
Definition keepsAsking (o : Outcome Message) : Prop :=
  exists response,
    o = Resolved response
    /\ toolUseBlocksOf (response_content response) <> []
    /\ ~ (stop_reason response = Some "end_turn"
          /\ textBlocksOf (response_content response) <> []).

(** The state a pass ends in. *)
Definition stateOf (p : Pass) : LoopState :=
  match p with Continue s | Break s => s end.

(** What [handleMessage] leaves behind: the value it resolves to, the text
    it settled on, the loop's last state, and the session. *)
Record Handled (Session : Type) := {
  reply : option string;
  text_out : string;
  loop_end : option LoopState;
  session_after : Session
}.

(** Everything [createAgentManager] closes over that is not defined in the
    agent manager itself: the imports that are not among the sources, the
    language model client, two built-ins, and the [deps] it is given. *)
Record Environment (Session : Type) := {
  (** Exports of [tool-registry.ts]. *)
  inferToolMetadata : string -> string -> ToolMetadata;
  CORE_TOOL_NAMES : list string;
  detectToolHints : string -> ToolHints;
  (** The platform adapters, and the bodies of the [WRAPPER_CASES]. *)
  platformsApi : Platforms;
  wrapperCase : string -> Json -> Context -> UserCreds -> Async Json;
  (** [client.messages.stream(...).finalMessage()]: the first argument is
      the ordinal of the call within one [handleMessage], so that the model
      may answer each call differently; it resolves to a message or
      rejects. The system prompt and the model name do not change between
      the calls of one run and are left out. *)
  stream : nat -> list MessageParam -> list ApiTool -> Outcome Message;
  (** Built-ins. *)
  JSON_stringify : Json -> string;
  trim : string -> string;
  (** [session.userId], [session.context.contextSummary], and
      [deps.sessionManager]. *)
  session_userId : Session -> string;
  contextSummary : Session -> option string;
  addToHistory : Session -> Role -> string -> Session;
  getHistory : Session -> list MessageParam;
  (** [deps.db], [deps.credentials] and [deps.sendMessage]. *)
  deps_db : Database;
  credentialStore : CredentialsManager;
  deps_sendMessage : option (OutgoingMessage -> option string)
}.

Section AgentManager.

Variable Session : Type.
Variable env : Environment Session.

(** [deps.sendMessage ?? (async (msg) => msg.text)]. *)
Definition sendMessage (msg : OutgoingMessage) : option string :=
  match deps_sendMessage env with
  | Some send => send msg
  | None => Some (out_text msg)
  end.

(** [registry.registerAll(defineTools())] on a new registry. *)
Definition agentRegistry : ToolRegistry.t :=
  ToolRegistry.of_list
    (defineTools (inferToolMetadata env) (CORE_TOOL_NAMES env)).

(** [typeof result === 'string' ? result : JSON.stringify(result)]. *)
Definition resultContent (result : Json) : string :=
  match result with
  | JStr s => s
  | _ => JSON_stringify env result
  end.

(** One pass of [for (const toolCall of toolUseBlocks)]: the call to
    [executeTool] inside its [try], and the block pushed on
    [toolResults]. *)
Definition runToolCall (session : Session) (toolCall : ToolCall)
  : list LoopEvent * ContentBlock :=
  let context := {| registry := agentRegistry;
                    db := deps_db env;
                    credentials := credentialStore env;
                    userId := session_userId env session |} in
  match executeTool (platformsApi env) (wrapperCase env)
                    (call_name toolCall) (call_input toolCall) context with
  | (made, Resolved result) =>
      ([ToolRun toolCall made],
       tool_result_block (call_id toolCall) (resultContent result))
  | (made, Rejected errMsg) =>
      ([ToolRun toolCall made; ToolError toolCall errMsg],
       tool_result_block (call_id toolCall)
         (resultContent
            (JObj [("error", JStr ("Tool execution failed: " ++ errMsg))])))
  end.

Fixpoint runToolCalls (session : Session) (toolUseBlocks : list ToolCall)
  : list LoopEvent * list ContentBlock :=
  match toolUseBlocks with
  | [] => ([], [])
  | toolCall :: rest =>
      let (ran, block) := runToolCall session toolCall in
      let (ran', toolResults) := runToolCalls session rest in
      (ran ++ ran', block :: toolResults)
  end.

(** The body of [while (iterations < MAX_ITERATIONS)]. *)
Definition pass (session : Session) (selectedTools : list ToolDefinition)
           (s : LoopState) : Pass :=
  let iterations' := S (iterations s) in
  match stream env iterations' (currentMessages s)
               (toApiTools selectedTools) with
  | Rejected errMsg =>
      let events' :=
        events s ++ [ModelCall iterations'; ModelError errMsg] in
      if includes errMsg "prompt is too long" || includes errMsg "max_tokens"
      then Break {| currentMessages := currentMessages s;
                    iterations := iterations';
                    finalText := TOO_LONG_REPLY;
                    events := events' |}
      else Break {| currentMessages := currentMessages s;
                    iterations := iterations';
                    finalText := TRY_AGAIN_REPLY;
                    events := events' |}
  | Resolved response =>
      let textBlocks := textBlocksOf (response_content response) in
      let toolUseBlocks := toolUseBlocksOf (response_content response) in
      if Nat.eqb (length toolUseBlocks) 0
      then Break {| currentMessages := currentMessages s;
                    iterations := iterations';
                    finalText := join LF textBlocks;
                    events := events s ++ [ModelCall iterations'] |}
      else
        let (ran, toolResults) := runToolCalls session toolUseBlocks in
        let currentMessages' :=
          currentMessages s
            ++ [{| role := assistant;
                   content := blocks (response_content response) |};
                {| role := user; content := blocks toolResults |}] in
        let events' := events s ++ ModelCall iterations' :: ran in
        match stop_reason response with
        | Some reason =>
            if String.eqb reason "end_turn"
               && Nat.ltb 0 (length textBlocks)
            then Break {| currentMessages := currentMessages';
                          iterations := iterations';
                          finalText := join LF textBlocks;
                          events := events' |}
            else Continue {| currentMessages := currentMessages';
                             iterations := iterations';
                             finalText := finalText s;
                             events := events' |}
        | None => Continue {| currentMessages := currentMessages';
                              iterations := iterations';
                              finalText := finalText s;
                              events := events' |}
        end
  end.

(** The [while] loop. [fuel] bounds the number of passes; [None] is a
    loop that has not ended when the fuel is spent. *)
Fixpoint while (fuel : nat) (session : Session)
         (selectedTools : list ToolDefinition) (s : LoopState)
  : option LoopState :=
  if Nat.ltb (iterations s) MAX_ITERATIONS then
    match fuel with
    | O => None
    | S fuel' =>
        match pass session selectedTools s with
        | Break s' => Some s'
        | Continue s' => while fuel' session selectedTools s'
        end
    end
  else Some s.

(** The state after [n] passes that all ran to the closing brace of the
    loop; [None] if the loop was over before, or one of them left it. *)
Fixpoint afterPasses (n : nat) (session : Session)
         (selectedTools : list ToolDefinition) (s : LoopState)
  : option LoopState :=
  match n with
  | O => Some s
  | S n' =>
      if Nat.ltb (iterations s) MAX_ITERATIONS then
        match pass session selectedTools s with
        | Continue s' => afterPasses n' session selectedTools s'
        | Break _ => None
        end
      else None
  end.

(** The check after the loop. *)
Definition afterLoop (s : LoopState) : string :=
  if Nat.leb MAX_ITERATIONS (iterations s)
  then finalText s ++ MAX_ITERATIONS_NOTICE
  else finalText s.

(** The messages sent to the model on the first call. *)
Definition apiMessagesOf (session : Session) : list MessageParam :=
  (match contextSummary env session with
   | Some summary =>
       if truthy summary
       then [{| role := user;
                content := plain ("[Previous conversation summary: "
                                  ++ summary ++ "]") |};
             {| role := assistant;
                content := plain
                  "I understand the context from our previous conversation. How can I help?" |}]
       else []
   | None => []
   end) ++ getHistory env session.

Definition loopStart (session : Session) : LoopState :=
  {| currentMessages := ensureAlternatingRoles (apiMessagesOf session);
     iterations := 0;
     finalText := "";
     events := [] |}.

(** [handleMessage]. [None] only if the loop were not over after [fuel]
    passes. *)
Definition handleMessageWithin (fuel : nat) (message : IncomingMessage)
           (session : Session) : option (Handled Session) :=
  let text := trim env (msg_text message) in
  if negb (truthy text)
  then Some {| reply := None; text_out := ""; loop_end := None;
               session_after := session |}
  else
    let session1 := addToHistory env session user text in
    let selectedTools :=
      selectTools (detectToolHints env) agentRegistry text in
    match while fuel session1 selectedTools (loopStart session1) with
    | None => None
    | Some s =>
        let finalText' := afterLoop s in
        if truthy finalText'
        then Some {| reply := sendMessage
                                {| out_platform := msg_platform message;
                                   out_chatId := msg_chatId message;
                                   out_text := finalText';
                                   replyToMessageId := msg_id message |};
                     text_out := finalText';
                     loop_end := Some s;
                     session_after :=
                       addToHistory env session1 assistant finalText' |}
        else Some {| reply := None; text_out := finalText';
                     loop_end := Some s; session_after := session1 |}
    end.

Definition handleMessage : IncomingMessage -> Session ->
                           option (Handled Session) :=
  handleMessageWithin MAX_ITERATIONS.

End AgentManager.

(* ===================================================================== *)
(** ** Sample collaborators and inputs *)
(* ===================================================================== *)

Module Sample.

Definition noHints (_ : string) : ToolHints :=
  {| platforms := []; categories := [] |}.

Definition generalMetadata (_ _ : string) : ToolMetadata :=
  {| platform := None; category := None; core := false |}.

(** Platform tags read off the tool name, and hints read off the message,
    both for Amazon only. *)
Definition amazonByName (toolName _ : string) : ToolMetadata :=
  {| platform := if includes toolName "amazon" then Some "amazon" else None;
     category := None;
     core := false |}.

Definition amazonHints (messageText : string) : ToolHints :=
  {| platforms := if includes messageText "amazon" then ["amazon"] else [];
     categories := [] |}.

(** A core tool named by the single character of code [48 + i]. *)
Definition coreTool (i : nat) : ToolDefinition :=
  {| name := String (ascii_of_nat (48 + i)) EmptyString;
     description := "core";
     metadata := Some {| platform := None; category := None; core := true |} |}.

(** A registry of 51 core tools. *)
Definition crowdedRegistry : ToolRegistry.t :=
  ToolRegistry.of_list (map coreTool (seq 0 51)).

(** A user turn carrying a tool result, and a plain user turn. *)
Definition toolResultsTurn : MessageParam :=
  {| role := user; content := blocks [tool_result_block "toolu_1" "ok"] |}.

Definition helloTurn : MessageParam :=
  {| role := user; content := plain "hello" |}.

(** Credential stores: an empty one, and one holding Amazon keys. *)
Definition noCredentials : CredentialsManager :=
  {| getCredentials := fun _ _ => None |}.

Definition amazonCredentials : CredentialsManager :=
  {| getCredentials := fun _ p =>
       if String.eqb p "amazon"
       then Some (JObj [("accessKeyId", JStr "AK"); ("partnerTag", JStr "tag")])
       else None |}.

(** A database whose writes return. *)
Definition database : Database :=
  {| upsertProduct := fun _ => Resolved tt;
     addPrice := fun _ => Resolved tt |}.

(** Adapters whose [search] rejects. *)
Definition unreachable : PlatformAdapter :=
  {| search := fun _ => Rejected "ECONNRESET" |}.

Definition offline : Platforms :=
  {| createAmazonAdapter := fun _ => unreachable;
     createEbayAdapter := fun _ => unreachable;
     createWalmartAdapter := fun _ => unreachable;
     createAliExpressAdapter := fun _ => unreachable |}.

Definition okWrapper (_ : string) (_ : Json) (_ : Context) (_ : UserCreds)
  : Async Json :=
  ret (JObj [("status", JStr "ok")]).

(** Model answers. *)
Definition askForTool : Message :=
  {| response_content :=
       [tool_use_block "toolu_1" "list_credentials" (JObj [])];
     stop_reason := Some "tool_use" |}.

Definition askForToolAtEndOfTurn : Message :=
  {| response_content :=
       [text_block "done";
        tool_use_block "toolu_1" "list_credentials" (JObj [])];
     stop_reason := Some "end_turn" |}.

Definition askForTwoTools : Message :=
  {| response_content :=
       [text_block "Let me look.";
        tool_use_block "toolu_a" "scan_amazon" (JObj [("query", JStr "yoga mat")]);
        tool_use_block "toolu_b" "no_such_tool" (JObj [])];
     stop_reason := Some "tool_use" |}.

Definition answer : Message :=
  {| response_content := [text_block "All done."];
     stop_reason := Some "end_turn" |}.

(** Models: what the [n]-th call of a run settles to. *)
Definition Model : Type :=
  nat -> list MessageParam -> list ApiTool -> Outcome Message.

Definition alwaysAsks : Model := fun _ _ _ => Resolved askForTool.

Definition asksAtEndOfTurn : Model :=
  fun _ _ _ => Resolved askForToolAtEndOfTurn.

Definition asksTwo : Model := fun _ _ _ => Resolved askForTwoTools.

Definition failsOnTenth : Model :=
  fun n _ _ => if Nat.ltb n 10 then Resolved askForTool
               else Rejected "Overloaded".

Definition answersOnTenth : Model :=
  fun n _ _ => if Nat.ltb n 10 then Resolved askForTool
               else Resolved answer.

Definition asksOnceThenAnswers : Model :=
  fun n _ _ =>
    if Nat.eqb n 1
    then Resolved
           {| response_content :=
                [tool_use_block "toolu_fee" "fee_calculator"
                   (JObj [("platform", JStr "ebay"); ("price", JNum 50)])];
              stop_reason := Some "tool_use" |}
    else Resolved answer.

Definition failsAtOnce : Model :=
  fun _ _ _ => Rejected "prompt is too long: 210000 tokens > 200000 maximum".

(** A stand-in for [JSON.stringify] that shows the first field of an
    object when it is a string. *)
Definition briefly (value : Json) : string :=
  match value with
  | JObj ((key, JStr s) :: _) => key ++ ": " ++ s
  | _ => "{}"
  end.

(** A session is its history; [trim] is a stand-in. *)
Definition envWith (model : Model) (store : CredentialsManager)
  : Environment (list MessageParam) :=
  {| inferToolMetadata := generalMetadata;
     CORE_TOOL_NAMES := ["tool_search"; "list_credentials"];
     detectToolHints := noHints;
     platformsApi := offline;
     wrapperCase := okWrapper;
     stream := model;
     JSON_stringify := briefly;
     trim := fun s => s;
     session_userId := fun _ => "user-1";
     contextSummary := fun _ => None;
     addToHistory := fun session r text =>
                       session ++ [{| role := r; content := plain text |}];
     getHistory := fun session => session;
     deps_db := database;
     credentialStore := store;
     deps_sendMessage := None |}.

Definition env : Environment (list MessageParam) :=
  envWith alwaysAsks noCredentials.

Definition hello : IncomingMessage :=
  {| msg_id := "m1"; msg_platform := "telegram"; msg_chatId := "c1";
     msg_userId := "user-1"; msg_text := "hello" |}.

End Sample.

(* ===================================================================== *)
(** ** Further notions used in the statements *)
(* ===================================================================== *)

(** The roles of a transcript with every run of equal roles cut down to
    its first: [skipRun r roles] drops the roles that continue a run of
    [r]. *)
Fixpoint skipRun (r : Role) (roles : list Role) : list Role :=
  match roles with
  | [] => []
  | a :: rest =>
      if role_eqb a r then skipRun r rest else a :: skipRun a rest
  end.

Definition roleRuns (roles : list Role) : list Role :=
  match roles with
  | [] => []
  | a :: rest => a :: skipRun a rest
  end.

(** The text of a plain turn. *)
Definition textOf (m : MessageParam) : string :=
  match content m with
  | plain s => s
  | blocks _ => ""
  end.

Definition allPlain (turns : list MessageParam) : Prop :=
  Forall (fun m => isPlain (content m) = true) turns.

(** A tool that one of the hints asks for. *)
Definition hinted (hints : ToolHints) (tool : ToolDefinition) : bool :=
  existsb (fun p => onPlatform p tool) (platforms hints)
  || existsb (fun c => inCategory c tool) (categories hints).

(** The writes to the database among the calls of [executeTool]. *)
Definition isDbWrite (c : Call) : bool :=
  match c with
  | UpsertProduct _ | AddPrice _ => true
  | _ => false
  end.


(** The role of the last turn. *)
Definition lastRole (turns : list MessageParam) : option Role :=
  option_map role (lastOf turns).

(** The four scanner cases of [executeTool] side by side: the platform,
    its name in the message, the tool the message points to, the adapter
    factory and the credentials the case reads. *)
Record Scanner := {
  scan_platform : Platform;
  scan_label : string;
  scan_setup : string;
  scan_adapter : Platforms -> option Json -> PlatformAdapter;
  scan_creds : UserCreds -> option Json
}.

Definition scannerOf (toolName : string) : option Scanner :=
  if String.eqb toolName "scan_amazon" then
    Some {| scan_platform := "amazon"; scan_label := "Amazon";
            scan_setup := "setup_amazon_credentials";
            scan_adapter := createAmazonAdapter; scan_creds := amazon |}
  else if String.eqb toolName "scan_ebay" then
    Some {| scan_platform := "ebay"; scan_label := "eBay";
            scan_setup := "setup_ebay_credentials";
            scan_adapter := createEbayAdapter; scan_creds := ebay |}
  else if String.eqb toolName "scan_walmart" then
    Some {| scan_platform := "walmart"; scan_label := "Walmart";
            scan_setup := "setup_walmart_credentials";
            scan_adapter := createWalmartAdapter; scan_creds := walmart |}
  else if String.eqb toolName "scan_aliexpress" then
    Some {| scan_platform := "aliexpress"; scan_label := "AliExpress";
            scan_setup := "setup_aliexpress_credentials";
            scan_adapter := createAliExpressAdapter;
            scan_creds := aliexpress |}
  else None.


(** What the loops of [selectTools] keep: distinct keys, entries of the
    registry [r] that satisfy [Q], and a given beginning. *)
Definition sound (r : ToolRegistry.t)
           (Q : string * ToolDefinition -> Prop)
           (base sel : JsMap.t ToolDefinition) : Prop :=
  NoDup (JsMap.keys sel)
  /\ Forall (fun e => In e r /\ Q e) sel
  /\ exists extra, sel = base ++ extra.

(** What the transcripts of a run keep. *)
Definition wellFormed (turns : list MessageParam) : Prop :=
  alternating (map role turns)
  /\ (exists first rest, turns = first :: rest /\ role first = user)
  /\ lastRole turns = Some user.

(** Samples for the scanners: an adapter that finds two products, and a
    database that takes products but no prices. *)
Module SampleStore.

Definition yogaMat : Json :=
  JObj [("platform", JStr "amazon"); ("platformId", JStr "B01");
        ("title", JStr "yoga mat")].

Definition yogaBlock : Json :=
  JObj [("platform", JStr "amazon"); ("platformId", JStr "B02");
        ("title", JStr "yoga block")].

Definition shelf : PlatformAdapter :=
  {| search := fun _ => Resolved [yogaMat; yogaBlock] |}.

Definition stocked : Platforms :=
  {| createAmazonAdapter := fun _ => shelf;
     createEbayAdapter := fun _ => shelf;
     createWalmartAdapter := fun _ => shelf;
     createAliExpressAdapter := fun _ => shelf |}.

Definition noPrices : Database :=
  {| upsertProduct := fun _ => Resolved tt;
     addPrice := fun _ => Rejected "SQLITE_FULL" |}.

Definition amazon : Scanner :=
  {| scan_platform := "amazon"; scan_label := "Amazon";
     scan_setup := "setup_amazon_credentials";
     scan_adapter := createAmazonAdapter;
     scan_creds := amazon |}.

Definition contextWith (database : Database) : Context :=
  {| registry := agentRegistry Sample.env;
     db := database;
     credentials := Sample.amazonCredentials;
     userId := "user-1" |}.

End SampleStore.

(* ===================================================================== *)
(** ** The listing creator: [createListing] and [optimizeListing] *)
(* ===================================================================== *)

(** A character of a string stands for one code unit of the JavaScript
    string. [s.slice(0, n)]: *)
Definition slice0 (n : nat) (s : string) : string := substring 0 n s.

(** [s.split(sep)] for a separator of one character. *)
Fixpoint splitOn (sep : ascii) (s : string) : list string :=
  match s with
  | EmptyString => [EmptyString]
  | String c rest =>
      if Ascii.eqb c sep then EmptyString :: splitOn sep rest
      else match splitOn sep rest with
           | word :: words => String c word :: words
           | [] => [String c EmptyString]
           end
  end.

Definition SPACE : ascii := ascii_of_nat 32.

(** [ListingDraft], as far as [createListing] reads it. The condition is
    typed ['new' | 'used' | 'refurbished']. *)
Inductive Condition : Type := cond_new | cond_used | cond_refurbished.

Record ListingDraft := {
  draft_title : string;
  draft_description : string;
  draft_price : Json;
  draft_category : string;
  draft_imageUrls : list string;
  draft_condition : Condition;
  draft_quantity : Json
}.

(** [ListingResult]: [{ success, listingId?, url?, error? }]. *)
Record ListingResult := {
  success : bool;
  listingId : option string;
  url : option string;
  error : option string
}.

Definition listed (id link : string) : ListingResult :=
  {| success := true; listingId := Some id; url := Some link;
     error := None |}.

Definition notListed (why : string) : ListingResult :=
  {| success := false; listingId := None; url := None; error := Some why |}.

(** The argument of [seller.createAndPublishListing]. *)
Record EbayListing := {
  ebay_sku : string;
  ebay_title : string;
  ebay_description : string;
  ebay_price : Json;
  ebay_quantity : Json;
  ebay_imageUrls : list string;
  ebay_categoryId : string;
  ebay_condition : string;
  fulfillmentPolicyId : string;
  paymentPolicyId : string;
  returnPolicyId : string
}.

(** The argument of [spApi.putListingsItem], attribute by attribute. *)
Record AmazonListing := {
  amazon_sku : string;
  productType : string;
  item_name : string;
  our_price : Json;
  fulfillment_quantity : Json;
  condition_type : string;
  main_product_image : option string
}.

(** An entry of [issues] in the answer of [putListingsItem]. *)
Record Issue := {
  issue_code : string;
  issue_message : string;
  severity : string
}.

(** The credentials [createListing] is given: [{ ebay?, amazon? }]. *)
Record ListingCredentials := {
  cred_ebay : option Json;
  cred_amazon : option Json
}.

(** What [createListing] reaches outside: [createAndPublishListing] of
    the seller API made from the eBay credentials, [putListingsItem] of the
    SP-API made from the client id, the client secret and the refresh
    token, [randomUUID], [process.env] and [encodeURIComponent]. *)
Record ListingWorld := {
  createAndPublishListing : Json -> EbayListing -> Outcome (string * string);
  putListingsItem :
    option Json -> option Json -> option Json -> AmazonListing
    -> Outcome (option (list Issue));
  randomUUID : string;
  processEnv : string -> option string;
  encodeURIComponent : string -> string
}.

(** The calls [createListing] makes to the selling platforms. *)
Inductive ListingCall : Type :=
| PublishOnEbay (creds : Json) (listing : EbayListing)
| PutOnAmazon (listing : AmazonListing).

(** [value ?? fallback] on strings. *)
Definition orElse (value : option string) (fallback : string) : string :=
  match value with Some v => v | None => fallback end.

(** JavaScript truthiness of a property that may be missing. *)
Definition present (value : option Json) : bool := negb (falsy value).

Definition isError (i : Issue) : bool := String.eqb (severity i) "ERROR".

Definition createListing (world : ListingWorld) (platform : Platform)
           (draft : ListingDraft) (credentials : ListingCredentials)
  : list ListingCall * ListingResult :=
  if String.eqb platform "ebay" then
    match cred_ebay credentials with
    | Some ebayCreds =>
        if falsy (Some ebayCreds) then
          ([], notListed
                 "eBay credentials not configured. Use setup_ebay_credentials first.")
        else if falsy (prop "refreshToken" ebayCreds) then
          ([], notListed
                 "eBay refresh token required for listing creation. Provide refreshToken in credentials.")
        else
          let sku := ("fa-" ++ slice0 8 (randomUUID world))%string in
          let listing :=
            {| ebay_sku := sku;
               ebay_title := slice0 80 (draft_title draft);
               ebay_description := draft_description draft;
               ebay_price := draft_price draft;
               ebay_quantity := draft_quantity draft;
               ebay_imageUrls := draft_imageUrls draft;
               ebay_categoryId := draft_category draft;
               ebay_condition :=
                 match draft_condition draft with
                 | cond_new => "NEW"
                 | cond_refurbished => "LIKE_NEW"
                 | cond_used => "GOOD"
                 end;
               fulfillmentPolicyId :=
                 orElse (processEnv world "EBAY_FULFILLMENT_POLICY_ID") "";
               paymentPolicyId :=
                 orElse (processEnv world "EBAY_PAYMENT_POLICY_ID") "";
               returnPolicyId :=
                 orElse (processEnv world "EBAY_RETURN_POLICY_ID") "" |} in
          match createAndPublishListing world ebayCreds listing with
          | Resolved (id, _) =>
              ([PublishOnEbay ebayCreds listing],
               listed id ("https://ebay.com/itm/" ++ id)%string)
          | Rejected msg =>
              ([PublishOnEbay ebayCreds listing], notListed msg)
          end
    | None =>
        ([], notListed
               "eBay credentials not configured. Use setup_ebay_credentials first.")
    end
  else if String.eqb platform "amazon" then
    match cred_amazon credentials with
    | Some amazonCreds =>
        if present (prop "spRefreshToken" amazonCreds)
           && present (prop "spClientId" amazonCreds)
           && present (prop "spClientSecret" amazonCreds)
        then
          let sku := ("fa-" ++ slice0 8 (randomUUID world))%string in
          let listing :=
            {| amazon_sku := sku;
               productType :=
                 if truthy (draft_category draft)
                 then draft_category draft else "PRODUCT";
               item_name := draft_title draft;
               our_price := draft_price draft;
               fulfillment_quantity := draft_quantity draft;
               condition_type :=
                 match draft_condition draft with
                 | cond_new => "new_new"
                 | cond_refurbished => "new_new"
                 | cond_used => "used_good"
                 end;
               main_product_image :=
                 match draft_imageUrls draft with
                 | first :: _ => if truthy first then Some first else None
                 | [] => None
                 end |} in
          match putListingsItem world
                  (prop "spClientId" amazonCreds)
                  (prop "spClientSecret" amazonCreds)
                  (prop "spRefreshToken" amazonCreds)
                  listing with
          | Resolved issues =>
              let found :=
                match issues with Some found => found | None => [] end in
              if existsb isError found then
                let errors :=
                  join "; " (map issue_message (filter isError found)) in
                ([PutOnAmazon listing],
                 notListed ("Amazon listing issues: " ++ errors)%string)
              else
                ([PutOnAmazon listing],
                 listed sku
                   ("https://sellercentral.amazon.com/inventory?sku="
                    ++ encodeURIComponent world sku)%string)
          | Rejected msg => ([PutOnAmazon listing], notListed msg)
          end
        else
          ([], notListed
                 "Amazon listing creation requires SP-API credentials (spClientId, spClientSecret, spRefreshToken). Please configure them or create the listing manually on Seller Central.")
    | None =>
        ([], notListed
               "Amazon listing creation requires SP-API credentials (spClientId, spClientSecret, spRefreshToken). Please configure them or create the listing manually on Seller Central.")
    end
  else
    ([], notListed ("Listing creation not supported for " ++ platform
                    ++ ". Only eBay and Amazon are supported for automated listing.")%string).

(** [word.length > 3 ? word.charAt(0).toUpperCase() + word.slice(1) : word],
    with the built-in [toUpperCase] a parameter. *)
Definition capitalize (toUpperCase : string -> string) (word : string)
  : string :=
  match word with
  | String c rest =>
      if Nat.ltb 3 (String.length word)
      then (toUpperCase (String c EmptyString) ++ rest)%string
      else word
  | EmptyString => word
  end.

Definition DEFAULT_DESCRIPTION : string :=
  "High-quality product. Fast shipping. Satisfaction guaranteed.".

(** [optimizeListing]: the optimised title and description. *)
Definition optimizeListing (toUpperCase : string -> string)
           (title description : string) : string * string :=
  (slice0 80
     (join " " (map (capitalize toUpperCase) (splitOn SPACE title))),
   if truthy description then description else DEFAULT_DESCRIPTION).

(** Sample drafts, credentials and platforms for the listing creator. *)
Module SampleShop.

Definition draft : ListingDraft :=
  {| draft_title := "usb hub for the car";
     draft_description := "";
     draft_price := JNum 12;
     draft_category := "";
     draft_imageUrls := ["https://img.example/hub.jpg"];
     draft_condition := cond_new;
     draft_quantity := JNum 1 |}.

Definition ebayCredentials : Json :=
  JObj [("clientId", JStr "client"); ("clientSecret", JStr "secret");
        ("refreshToken", JStr "refresh")].

Definition sellerCentral : Json :=
  JObj [("spClientId", JStr "client"); ("spClientSecret", JStr "secret");
        ("spRefreshToken", JStr "refresh")].

Definition bothCredentials : ListingCredentials :=
  {| cred_ebay := Some ebayCredentials;
     cred_amazon := Some sellerCentral |}.

Definition warning : Issue :=
  {| issue_code := "90220"; issue_message := "Image is small";
     severity := "WARNING" |}.

(** Both platforms accept; Amazon answers with a warning. *)
Definition world : ListingWorld :=
  {| createAndPublishListing := fun _ _ => Resolved ("110553", "offer-1");
     putListingsItem := fun _ _ _ _ => Resolved (Some [warning]);
     randomUUID := "123e4567-e89b-12d3-a456-426614174000";
     processEnv := fun _ => None;
     encodeURIComponent := fun s => s |}.

(** What [createListing] submits to eBay for [draft] in [world]. *)
Definition ebayListing : EbayListing :=
  {| ebay_sku := "fa-123e4567";
     ebay_title := "usb hub for the car";
     ebay_description := "";
     ebay_price := JNum 12;
     ebay_quantity := JNum 1;
     ebay_imageUrls := ["https://img.example/hub.jpg"];
     ebay_categoryId := "";
     ebay_condition := "NEW";
     fulfillmentPolicyId := "";
     paymentPolicyId := "";
     returnPolicyId := "" |}.

(** Upper case on the letters [a] to [z], for samples of [toUpperCase]. *)
Definition upperAscii (c : ascii) : ascii :=
  let n := nat_of_ascii c in
  if Nat.leb 97 n && Nat.leb n 122 then ascii_of_nat (n - 32) else c.

Fixpoint toUpperCase (s : string) : string :=
  match s with
  | EmptyString => EmptyString
  | String c rest => String (upperAscii c) (toUpperCase rest)
  end.

End SampleShop.

(* ===================================================================== *)
(** ** The [bulk_list] case of [executeTool] *)
(* ===================================================================== *)

(** A row of [opportunities], as the case selects it. *)
Record Opportunity := {
  product_id : string;
  sell_platform : string;
  sell_price : Json;
  buy_platform : string;
  buy_price : Json
}.

(** [Product], as far as the case reads it. *)
Record Product := {
  product_title : string;
  product_category : option string;
  product_imageUrl : option string
}.

(** [Listing], the argument of [db.addListing]; the two dates are the
    reading of the clock. *)
Record Listing := {
  listing_id : string;
  opportunityId : string;
  productId : string;
  listing_platform : Platform;
  platformListingId : option string;
  listing_title : string;
  listing_price : Json;
  sourcePlatform : Platform;
  sourcePrice : Json;
  listing_status : string;
  createdAt : Z;
  updatedAt : Z
}.

(** An entry of [results]: [{ opportunityId, success, error? }]. *)
Record BulkEntry := {
  entry_opportunityId : string;
  entry_success : bool;
  entry_error : option string
}.

(** The locals [created], [failed] and [results] of the case. *)
Record Tally := {
  created : nat;
  failed : nat;
  results : list BulkEntry
}.

(** The payload: [{ status, created, failed, total, results }]. *)
Record BulkReport := {
  report_status : string;
  tally : Tally;
  total : nat
}.

(** What one pass of the loop reaches: the database of the context (any
    of its calls may throw), what [createListing] reaches, [randomUUID]
    for the id of the row, and the clock. *)
Record BulkWorld := {
  queryOpportunities : string -> Outcome (list Opportunity);
  getProduct : string -> Outcome (option Product);
  listingWorld : ListingWorld;
  rowUUID : string;
  newDate : Z;
  addListing : Listing -> Outcome unit;
  updateOpportunityStatus : string -> string -> Outcome unit
}.

(** The calls of the case: those of [createListing], and the writes to
    the database. *)
Inductive BulkCall : Type :=
| OnPlatform (call : ListingCall)
| AddListing (row : Listing)
| UpdateOpportunityStatus (id status : string).

Definition isAddListing (c : BulkCall) : bool :=
  match c with AddListing _ => true | _ => false end.

Definition isStatusUpdate (c : BulkCall) : bool :=
  match c with UpdateOpportunityStatus _ _ => true | _ => false end.

Definition isOnPlatform (c : BulkCall) : bool :=
  match c with OnPlatform _ => true | _ => false end.

Definition push (entry : BulkEntry) (t : Tally) (isFailure : bool)
           (isCreated : bool) : Tally :=
  {| created := if isCreated then S (created t) else created t;
     failed := if isFailure then S (failed t) else failed t;
     results := results t ++ [entry] |}.

(** The body of [for (const oppId of ids)], on the locals [t]; a
    rejection is a throw outside the [try]. *)
Definition listOne (world : BulkWorld) (creds : UserCreds) (oppId : string)
           (t : Tally) : list BulkCall * Outcome Tally :=
  match queryOpportunities world oppId with
  | Rejected e => ([], Rejected e)
  | Resolved [] =>
      ([], Resolved
             (push {| entry_opportunityId := oppId; entry_success := false;
                      entry_error := Some "Opportunity not found" |}
                   t true false))
  | Resolved (opp :: _) =>
      match getProduct world (product_id opp) with
      | Rejected e => ([], Rejected e)
      | Resolved product =>
          let title :=
            match product with
            | Some p => product_title p
            | None => ("Product " ++ product_id opp)%string
            end in
          let draft :=
            {| draft_title := title;
               draft_description := "";
               draft_price := sell_price opp;
               draft_category :=
                 match product with
                 | Some p => orElse (product_category p) "0"
                 | None => "0"
                 end;
               draft_imageUrls :=
                 match product with
                 | Some p =>
                     match product_imageUrl p with
                     | Some link => if truthy link then [link] else []
                     | None => []
                     end
                 | None => []
                 end;
               draft_condition := cond_new;
               draft_quantity := JNum 1 |} in
          let (listingCalls, result) :=
            createListing (listingWorld world) (sell_platform opp) draft
              {| cred_ebay := ebay creds; cred_amazon := amazon creds |} in
          let calls := map OnPlatform listingCalls in
          if success result then
            let row :=
              {| listing_id := slice0 12 (rowUUID world);
                 opportunityId := oppId;
                 productId := product_id opp;
                 listing_platform := sell_platform opp;
                 platformListingId := listingId result;
                 listing_title := title;
                 listing_price := sell_price opp;
                 sourcePlatform := buy_platform opp;
                 sourcePrice := buy_price opp;
                 listing_status := "active";
                 createdAt := newDate world;
                 updatedAt := newDate world |} in
            match addListing world row with
            | Rejected msg =>
                (calls ++ [AddListing row],
                 Resolved
                   (push {| entry_opportunityId := oppId;
                            entry_success := false;
                            entry_error := Some msg |}
                         t true true))
            | Resolved _ =>
                match updateOpportunityStatus world oppId "listed" with
                | Rejected msg =>
                    (calls ++ [AddListing row;
                               UpdateOpportunityStatus oppId "listed"],
                     Resolved
                       (push {| entry_opportunityId := oppId;
                                entry_success := false;
                                entry_error := Some msg |}
                             t true true))
                | Resolved _ =>
                    (calls ++ [AddListing row;
                               UpdateOpportunityStatus oppId "listed"],
                     Resolved
                       (push {| entry_opportunityId := oppId;
                                entry_success := success result;
                                entry_error := error result |}
                             t false true))
                end
            end
          else
            (calls,
             Resolved
               (push {| entry_opportunityId := oppId;
                        entry_success := success result;
                        entry_error := error result |}
                     t true false))
      end
  end.

(** The loop over [ids]; pass number [round] runs in [worldAt round]. *)
Fixpoint bulkLoop (worldAt : nat -> BulkWorld) (creds : UserCreds)
         (round : nat) (ids : list string) (t : Tally)
  : list BulkCall * Outcome Tally :=
  match ids with
  | [] => ([], Resolved t)
  | oppId :: rest =>
      match listOne (worldAt round) creds oppId t with
      | (calls, Resolved t') =>
          let (calls', o) := bulkLoop worldAt creds (S round) rest t' in
          (calls ++ calls', o)
      | (calls, Rejected e) => (calls, Rejected e)
      end
  end.

(** The case ['bulk_list'] on [input.opportunityIds]. *)
Definition bulk_list (worldAt : nat -> BulkWorld) (creds : UserCreds)
           (ids : list string) : list BulkCall * Outcome BulkReport :=
  match bulkLoop worldAt creds 0 ids
          {| created := 0; failed := 0; results := [] |} with
  | (calls, Resolved t) =>
      (calls, Resolved {| report_status := "ok"; tally := t;
                          total := length ids |})
  | (calls, Rejected e) => (calls, Rejected e)
  end.

(** The reads of the database return in every pass. *)
Definition readsReturn (worldAt : nat -> BulkWorld) : Prop :=
  forall round id,
    (exists rows, queryOpportunities (worldAt round) id = Resolved rows)
    /\ (exists product, getProduct (worldAt round) id = Resolved product).

(** The writes to the database return in every pass. *)
Definition writesReturn (worldAt : nat -> BulkWorld) : Prop :=
  forall round,
    (forall row, addListing (worldAt round) row = Resolved tt)
    /\ (forall id status,
           updateOpportunityStatus (worldAt round) id status = Resolved tt).

(** The entries that report a failure. *)
Definition failures (entries : list BulkEntry) : list BulkEntry :=
  filter (fun entry => negb (entry_success entry)) entries.

Definition successes (entries : list BulkEntry) : list BulkEntry :=
  filter entry_success entries.

(** How one pass of the loop ends: with a listing that is stored, without
    a listing, or with a listing that could not be stored. *)
Inductive PassEnd : Type := Stored | NotListed | NotStored.

(** The rows the pass gives to [addListing], and what its entry in
    [results] says. *)
Definition adds (e : PassEnd) : nat :=
  match e with NotListed => 0 | _ => 1 end.

Definition reported (e : PassEnd) : bool :=
  match e with Stored => true | _ => false end.

(** Sample databases for [bulk_list]. *)
Module SampleBulk.

Definition opportunity : Opportunity :=
  {| product_id := "amazon:B01"; sell_platform := "ebay";
     sell_price := JNum 30; buy_platform := "amazon";
     buy_price := JNum 12 |}.

Definition usbHub : Product :=
  {| product_title := "usb hub"; product_category := None;
     product_imageUrl := None |}.

(** Opportunity ["opp-1"] is known, every other is not; [addListing]
    answers with [stored]. *)
Definition shop (stored : Outcome unit) : BulkWorld :=
  {| queryOpportunities :=
       fun id => Resolved (if String.eqb id "opp-1" then [opportunity]
                           else []);
     getProduct := fun _ => Resolved (Some usbHub);
     listingWorld := SampleShop.world;
     rowUUID := "9f8e7d6c-5b4a-4c3d-8e2f-1a0b9c8d7e6f";
     newDate := 1793577600000;
     addListing := fun _ => stored;
     updateOpportunityStatus := fun _ _ => Resolved tt |}.

Definition sellerCredentials : UserCreds :=
  {| amazon := None; ebay := Some SampleShop.ebayCredentials;
     walmart := None; aliexpress := None; keepa := None;
     easypost := None |}.

Definition unconfigured : UserCreds :=
  {| amazon := None; ebay := None; walmart := None; aliexpress := None;
     keepa := None; easypost := None |}.

End SampleBulk.

(* ===================================================================== *)
(** ** The shipment tracker: [getTracking], [updateTrackingOnPlatform]
       and [mapCarrierCode] *)
(* ===================================================================== *)

(** The class [[A-Z]], and [s.replace(/[^A-Z]/g, '')]. *)
Definition isCapital (c : ascii) : bool :=
  Nat.leb 65 (nat_of_ascii c) && Nat.leb (nat_of_ascii c) 90.

Fixpoint keepCapitals (s : string) : string :=
  match s with
  | EmptyString => EmptyString
  | String c rest =>
      if isCapital c then String c (keepCapitals rest)
      else keepCapitals rest
  end.

(** [mapCarrierCode], with the built-in [toUpperCase] a parameter. *)
Definition mapCarrierCode (toUpperCase : string -> string)
           (carrier : string) : string :=
  let normalized := keepCapitals (toUpperCase carrier) in
  if includes normalized "USPS" then "USPS"
  else if includes normalized "UPS" then "UPS"
  else if includes normalized "FEDEX" then "FEDEX"
  else if includes normalized "DHL" then "DHL"
  else if includes normalized "YANWEN" then "YANWEN"
  else if includes normalized "CAINIAO" then "CAINIAO"
  else if includes normalized "CHINA" || includes normalized "EPACKET"
       then "CHINA_POST"
  else "OTHER".

(** The codes [mapCarrierCode] returns. *)
Definition CARRIER_CODES : list string :=
  ["USPS"; "UPS"; "FEDEX"; "DHL"; "YANWEN"; "CAINIAO"; "CHINA_POST";
   "OTHER"].

(** A line item of an [EbayOrder], and the order, as far as the tracker
    reads them. *)
Record EbayLineItem := {
  lineItemId : string;
  quantity : Json;
  lineItem_title : string
}.

Record EbayOrder := {
  ebay_orderId : string;
  order_lineItems : list EbayLineItem
}.

(** [EbayShippingFulfillment], the argument of
    [createShippingFulfillment]. *)
Record FulfilledItem := {
  fulfilled_lineItemId : string;
  fulfilled_quantity : Json
}.

Record EbayShippingFulfillment := {
  lineItems : list FulfilledItem;
  shippedDate : string;
  shippingCarrierCode : string;
  trackingNumber : string
}.

(** [EbayOrdersApi], as far as the tracker uses it: [getOrder] resolves
    to an order or to [null], or rejects; [createShippingFulfillment]
    resolves to the fulfillment id or rejects. *)
Record EbayOrdersApi := {
  getOrder : string -> Outcome (option EbayOrder);
  createShippingFulfillment :
    string -> EbayShippingFulfillment -> Outcome string
}.

(** What [updateTrackingOnPlatform] reaches outside: the orders API made
    from the credentials, [toUpperCase], and
    [new Date().toISOString()]. *)
Record TrackerWorld := {
  createEbayOrdersApi : Json -> EbayOrdersApi;
  String_toUpperCase : string -> string;
  toISOString_now : string
}.

Inductive TrackerCall : Type :=
| GetOrder (orderId : string)
| CreateShippingFulfillment (orderId : string)
                            (fulfillment : EbayShippingFulfillment).

(** [updateTrackingOnPlatform]; [ebayCredentials] is
    [credentials?.ebay]. *)
Definition updateTrackingOnPlatform (world : TrackerWorld)
           (platform orderId number carrier : string)
           (ebayCredentials : option Json) : list TrackerCall * bool :=
  match ebayCredentials with
  | Some creds =>
      if String.eqb platform "ebay"
         && negb (falsy (prop "refreshToken" creds))
      then
        let ordersApi := createEbayOrdersApi world creds in
        match getOrder ordersApi orderId with
        | Resolved (Some ebayOrder) =>
            let fulfillment :=
              {| lineItems :=
                   map (fun li =>
                          {| fulfilled_lineItemId := lineItemId li;
                             fulfilled_quantity := quantity li |})
                       (order_lineItems ebayOrder);
                 shippedDate := toISOString_now world;
                 shippingCarrierCode :=
                   mapCarrierCode (String_toUpperCase world) carrier;
                 trackingNumber := number |} in
            match createShippingFulfillment ordersApi orderId
                    fulfillment with
            | Resolved _ =>
                ([GetOrder orderId;
                  CreateShippingFulfillment orderId fulfillment], true)
            | Rejected _ =>
                ([GetOrder orderId;
                  CreateShippingFulfillment orderId fulfillment], false)
            end
        | Resolved None => ([GetOrder orderId], false)
        | Rejected _ => ([GetOrder orderId], false)
        end
      else ([], false)
  | None => ([], false)
  end.

(** An event of a [ShipmentTracking]; [event_date] is the argument of
    [new Date(...)]. *)
Record TrackingEvent := {
  event_date : string;
  event_location : string;
  event_description : string
}.

(** [ShipmentTracking]; [estimatedDelivery] is the argument of
    [new Date(...)], when there is one. *)
Record ShipmentTracking := {
  tracking_carrier : string;
  tracking_number : string;
  tracking_status : string;
  estimatedDelivery : option string;
  tracking_events : list TrackingEvent
}.

(** The answers of AliExpress: [response.result], with its
    [result_success] and [details?.details]. *)
Record AliExpressDetail := {
  event_desc : string;
  address : string;
  ali_event_date : string
}.

Record AliExpressResult := {
  result_success : bool;
  details : option (list AliExpressDetail)
}.

(** The answers of EasyPost, as far as [getTracking] reads them; a field
    read under [??] or under a truth test may be missing. *)
Record EasyPostLocation := {
  city : option string;
  state : option string;
  zip : option string
}.

Record EasyPostTrackingDetail := {
  detail_message : option string;
  detail_status : option string;
  datetime : string;
  trackingLocation : option EasyPostLocation
}.

Record EasyPostTracker := {
  tracker_carrier : option string;
  tracker_status : option string;
  statusDetail : option string;
  estDeliveryDate : option string;
  trackingDetails : list EasyPostTrackingDetail
}.

(** The credentials [getTracking] is given:
    [{ aliexpress?, easypostApiKey? }]. *)
Record TrackingCredentials := {
  tracking_aliexpress : option Json;
  easypostApiKey : option string
}.

(** What [getTracking] reaches outside: [callAliExpressApi] with the
    tracking method, [createTracker] of the EasyPost API made from the
    key, and [trim]. *)
Record TrackingWorld := {
  callAliExpressApi :
    string -> string -> Json -> Outcome (option AliExpressResult);
  createTracker :
    string -> string -> option string -> Outcome EasyPostTracker;
  String_trim : string -> string
}.

Inductive TrackingCall : Type :=
| AskAliExpress (number : string)
| AskEasyPost (apiKey number : string) (carrier : option string).

(** [a ?? b ?? c] on strings. *)
Definition orElse3 (a b : option string) (c : string) : string :=
  match a with
  | Some v => v
  | None => orElse b c
  end.

(** The three answers of [getTracking]. *)
Definition fromAliExpress (number : string) (carrier : option string)
           (found : list AliExpressDetail) : ShipmentTracking :=
  let events :=
    map (fun event => {| event_date := ali_event_date event;
                         event_location := address event;
                         event_description := event_desc event |})
        found in
  {| tracking_carrier := orElse carrier "AliExpress Logistics";
     tracking_number := number;
     tracking_status :=
       match events with
       | latestEvent :: _ => event_description latestEvent
       | [] => "In Transit"
       end;
     estimatedDelivery := None;
     tracking_events := events |}.

Definition fromEasyPost (trim : string -> string) (number : string)
           (carrier : option string) (tracker : EasyPostTracker)
  : ShipmentTracking :=
  {| tracking_carrier := orElse3 (tracker_carrier tracker) carrier "Unknown";
     tracking_number := number;
     tracking_status :=
       orElse3 (statusDetail tracker) (tracker_status tracker) "In Transit";
     estimatedDelivery :=
       match estDeliveryDate tracker with
       | Some date => if truthy date then Some date else None
       | None => None
       end;
     tracking_events :=
       map (fun d =>
              {| event_date := datetime d;
                 event_location :=
                   match trackingLocation d with
                   | Some place =>
                       trim (orElse (city place) "" ++ ", "
                             ++ orElse (state place) "" ++ " "
                             ++ orElse (zip place) "")%string
                   | None => ""
                   end;
                 event_description :=
                   orElse3 (detail_message d) (detail_status d) "" |})
           (trackingDetails tracker) |}.

Definition UNAVAILABLE : string :=
  "Tracking info unavailable - configure tracking API or check carrier website".

Definition basicTracking (number : string) (carrier : option string)
  : ShipmentTracking :=
  {| tracking_carrier := orElse carrier "Unknown";
     tracking_number := number;
     tracking_status := UNAVAILABLE;
     estimatedDelivery := None;
     tracking_events := [] |}.

(** The EasyPost step of [getTracking] and what follows it. *)
Definition afterAliExpress (world : TrackingWorld) (number : string)
           (carrier : option string) (credentials : TrackingCredentials)
  : list TrackingCall * ShipmentTracking :=
  match easypostApiKey credentials with
  | Some epKey =>
      if truthy epKey && truthy number then
        match createTracker world epKey number carrier with
        | Resolved tracker =>
            ([AskEasyPost epKey number carrier],
             fromEasyPost (String_trim world) number carrier tracker)
        | Rejected _ =>
            ([AskEasyPost epKey number carrier],
             basicTracking number carrier)
        end
      else ([], basicTracking number carrier)
  | None => ([], basicTracking number carrier)
  end.

(** [getTracking]. *)
Definition getTracking (world : TrackingWorld) (number : string)
           (carrier : option string) (credentials : TrackingCredentials)
  : list TrackingCall * ShipmentTracking :=
  match tracking_aliexpress credentials with
  | Some aliexpress =>
      if negb (falsy (prop "accessToken" aliexpress)) then
        match callAliExpressApi world
                "aliexpress.logistics.ds.trackinginfo.query" number
                aliexpress with
        | Resolved (Some {| result_success := true;
                            details := Some found |}) =>
            ([AskAliExpress number], fromAliExpress number carrier found)
        | _ =>
            let (calls, tracking) :=
              afterAliExpress world number carrier credentials in
            (AskAliExpress number :: calls, tracking)
        end
      else afterAliExpress world number carrier credentials
  | None => afterAliExpress world number carrier credentials
  end.

(** Samples for the tracker. *)
Module SampleTracker.

Definition order : EbayOrder :=
  {| ebay_orderId := "12-34567-89012";
     order_lineItems :=
       [ {| lineItemId := "1001"; quantity := JNum 2;
            lineItem_title := "usb hub" |};
         {| lineItemId := "1002"; quantity := JNum 1;
            lineItem_title := "usb cable" |} ] |}.

(** eBay knows [order] and accepts a fulfillment. *)
Definition accepting : TrackerWorld :=
  {| createEbayOrdersApi :=
       fun _ =>
         {| getOrder := fun _ => Resolved (Some order);
            createShippingFulfillment := fun _ _ => Resolved "9001" |};
     String_toUpperCase := SampleShop.toUpperCase;
     toISOString_now := "2026-11-02T00:00:00.000Z" |}.

(** What [updateTrackingOnPlatform] sends for [order]. *)
Definition fulfillment : EbayShippingFulfillment :=
  {| lineItems :=
       [ {| fulfilled_lineItemId := "1001"; fulfilled_quantity := JNum 2 |};
         {| fulfilled_lineItemId := "1002"; fulfilled_quantity := JNum 1 |} ];
     shippedDate := "2026-11-02T00:00:00.000Z";
     shippingCarrierCode := "USPS";
     trackingNumber := "9400111899223" |}.

(** No tracking API answers. *)
Definition silent : TrackingWorld :=
  {| callAliExpressApi := fun _ _ _ => Rejected "timeout";
     createTracker := fun _ _ _ => Rejected "timeout";
     String_trim := fun s => s |}.

Definition aliexpressCredentials : TrackingCredentials :=
  {| tracking_aliexpress :=
       Some (JObj [("appKey", JStr "key"); ("appSecret", JStr "secret");
                   ("accessToken", JStr "token")]);
     easypostApiKey := None |}.

End SampleTracker.

(* ===================================================================== *)
(** ** eBay OAuth: [getAccessToken] and its token cache *)
(* ===================================================================== *)

Module EbayAuth.

(** ['sandbox' | 'production']. *)
Inductive EbayEnvironment : Type := sandbox | production.

Definition envName (env : EbayEnvironment) : string :=
  match env with sandbox => "sandbox" | production => "production" end.

Record EbayAuthConfig := {
  clientId : string;
  clientSecret : string;
  refreshToken : option string;
  environment : option EbayEnvironment
}.

(** [expiresAt] is in milliseconds, as [Date.now()] is. *)
Record CachedToken := {
  accessToken : string;
  expiresAt : Z
}.

Definition ENDPOINTS (env : EbayEnvironment) : string :=
  match env with
  | production => "https://api.ebay.com/identity/v1/oauth2/token"
  | sandbox => "https://api.sandbox.ebay.com/identity/v1/oauth2/token"
  end.

Definition SELL_SCOPE : string :=
  "https://api.ebay.com/oauth/api_scope https://api.ebay.com/oauth/api_scope/sell.inventory https://api.ebay.com/oauth/api_scope/sell.fulfillment https://api.ebay.com/oauth/api_scope/sell.account https://api.ebay.com/oauth/api_scope/sell.finances https://api.ebay.com/oauth/api_scope/sell.analytics.readonly https://api.ebay.com/oauth/api_scope/sell.marketing https://api.ebay.com/oauth/api_scope/commerce.taxonomy.readonly".

(** The request given to [fetch]: the endpoint, the [Authorization]
    header and the body. *)
Record Request := {
  endpoint : string;
  authorization : string;
  body : string
}.

(** The body of a token answer: [{ access_token, expires_in }]. *)
Record TokenData := {
  access_token : string;
  expires_in : Z
}.

(** The answer of [fetch]: [ok], [status] as a template literal prints
    it, and what [text()] and [json()] settle to. *)
Record Response := {
  ok : bool;
  status : string;
  text : Outcome string;
  json : Outcome TokenData
}.

(** What one call of [getAccessToken] reaches outside: [Date.now()] at
    the cache check, [fetch], [Date.now()] once the answer is read, and
    the encoders [Buffer.from(...).toString('base64')] and
    [URLSearchParams.toString]. *)
Record World := {
  Date_now : Z;
  fetch : Request -> Outcome Response;
  Date_now_after : Z;
  base64 : string -> string;
  formEncode : list (string * string) -> string
}.

Definition envOf (config : EbayAuthConfig) : EbayEnvironment :=
  match environment config with
  | Some env => env
  | None => production
  end.

Definition cacheKey (config : EbayAuthConfig) : string :=
  clientId config ++ ":" ++ envName (envOf config).

(** The request for a new token. *)
Definition tokenRequest (world : World) (config : EbayAuthConfig)
  : Request :=
  {| endpoint := ENDPOINTS (envOf config);
     authorization :=
       "Basic " ++ base64 world (clientId config ++ ":"
                                 ++ clientSecret config);
     body :=
       formEncode world
         (match refreshToken config with
          | Some token =>
              if truthy token
              then [("grant_type", "refresh_token");
                    ("refresh_token", token);
                    ("scope", SELL_SCOPE)]
              else [("grant_type", "client_credentials");
                    ("scope", "https://api.ebay.com/oauth/api_scope")]
          | None =>
              [("grant_type", "client_credentials");
               ("scope", "https://api.ebay.com/oauth/api_scope")]
          end) |}.

(** The cached token that is still good at [Date.now()], if any. *)
Definition cachedToken (world : World) (config : EbayAuthConfig)
           (tokenCache : JsMap.t CachedToken) : option string :=
  match JsMap.get (cacheKey config) tokenCache with
  | Some cached =>
      if Z.ltb (Date_now world) (expiresAt cached - 60000)
      then Some (accessToken cached)
      else None
  | None => None
  end.

(** [getAccessToken], on the module's [tokenCache]: the cache after the
    call, the requests made, and what the promise settles to. *)
Definition getAccessToken (world : World) (config : EbayAuthConfig)
           (tokenCache : JsMap.t CachedToken)
  : JsMap.t CachedToken * (list Request * Outcome string) :=
  match cachedToken world config tokenCache with
  | Some token => (tokenCache, ([], Resolved token))
  | None =>
      let request := tokenRequest world config in
      match fetch world request with
      | Rejected e => (tokenCache, ([request], Rejected e))
      | Resolved response =>
          if ok response then
            match json response with
            | Rejected e => (tokenCache, ([request], Rejected e))
            | Resolved data =>
                let token :=
                  {| accessToken := access_token data;
                     expiresAt :=
                       (Date_now_after world + expires_in data * 1000)%Z |} in
                (JsMap.set (cacheKey config) token tokenCache,
                 ([request], Resolved (accessToken token)))
            end
          else
            match text response with
            | Rejected e => (tokenCache, ([request], Rejected e))
            | Resolved errorText =>
                (tokenCache,
                 ([request],
                  Rejected ("eBay OAuth failed (" ++ status response
                            ++ "): " ++ errorText)))
            end
      end
  end.

(** [clearTokenCache]. *)
Definition clearTokenCache (tokenCache : JsMap.t CachedToken)
  : JsMap.t CachedToken := JsMap.empty.

(** Sample configurations and answers. *)
Definition browsing : EbayAuthConfig :=
  {| clientId := "FlipAgent-PRD"; clientSecret := "secret";
     refreshToken := None; environment := None |}.

Definition selling : EbayAuthConfig :=
  {| clientId := "FlipAgent-PRD"; clientSecret := "secret";
     refreshToken := Some "v^1.1#refresh";
     environment := Some production |}.

Definition testing : EbayAuthConfig :=
  {| clientId := "FlipAgent-PRD"; clientSecret := "secret";
     refreshToken := None; environment := Some sandbox |}.

(** eBay grants the token ["v^1.1#token"] for two hours. *)
Definition granting (now : Z) : World :=
  {| Date_now := now;
     fetch := fun _ =>
       Resolved {| ok := true; status := "200"; text := Resolved "";
                   json := Resolved {| access_token := "v^1.1#token";
                                       expires_in := 7200 |} |};
     Date_now_after := (now + 250)%Z;
     base64 := fun s => s;
     formEncode := fun params => join "&" (map (fun p => (fst p ++ "=" ++ snd p)%string) params) |}.

(** eBay refuses. *)
Definition refusing (now : Z) : World :=
  {| Date_now := now;
     fetch := fun _ =>
       Resolved {| ok := false; status := "401";
                   text := Resolved "invalid_client";
                   json := Rejected "Unexpected token" |};
     Date_now_after := (now + 250)%Z;
     base64 := fun s => s;
     formEncode := fun params => join "&" (map (fun p => (fst p ++ "=" ++ snd p)%string) params) |}.

End EbayAuth.

(* ===================================================================== *)
(** * Properties *)
(* ===================================================================== *)

Unset Implicit Arguments.

(* ===================================================================== *)
(** ** Insertion-ordered maps *)
(* ===================================================================== *)

Module JsMapFacts.
Section Facts.
Context {V : Type}.
Implicit Types (m : JsMap.t V) (k : string) (v : V).

Lemma set_fresh m k v :
  ~ In k (JsMap.keys m) -> JsMap.set k v m = m ++ [(k, v)].
Proof.
  induction m as [|[k' v'] m IH]; simpl; intros Hk; [reflexivity|].
  destruct (String.eqb_spec k' k) as [->|Hne].
  - exfalso. apply Hk. now left.
  - rewrite IH; [reflexivity|]. intros H. apply Hk. now right.
Qed.

Lemma set_same m k v : In (k, v) (JsMap.set k v m).
Proof.
  induction m as [|[k' v'] m IH]; simpl; [now left|].
  destruct (String.eqb k' k); [now left | now right].
Qed.

Lemma set_other m k v k' v' :
  k <> k' -> In (k, v) m -> In (k, v) (JsMap.set k' v' m).
Proof.
  intros Hne. induction m as [|[k0 v0] m IH]; simpl; [tauto|].
  intros [Heq|Hin].
  - inversion Heq; subst.
    destruct (String.eqb_spec k k') as [E|_]; [contradiction | now left].
  - destruct (String.eqb k0 k'); right; [exact Hin | apply IH, Hin].
Qed.

Lemma set_inv m k v k' v' :
  In (k, v) (JsMap.set k' v' m) -> (k, v) = (k', v') \/ In (k, v) m.
Proof.
  induction m as [|[k0 v0] m IH]; simpl.
  - intros [H|[]]. left. now symmetry.
  - destruct (String.eqb k0 k'); simpl.
    + intros [H|H]; [left; now symmetry | right; now right].
    + intros [H|H]; [right; now left|].
      destruct (IH H) as [E|E]; [now left | right; now right].
Qed.

Lemma keys_set m k v :
  JsMap.keys (JsMap.set k v m)
  = if existsb (String.eqb k) (JsMap.keys m) then JsMap.keys m
    else JsMap.keys m ++ [k].
Proof.
  unfold JsMap.keys.
  induction m as [|[k0 v0] m IH]; simpl; [reflexivity|].
  rewrite (String.eqb_sym k k0).
  destruct (String.eqb_spec k0 k) as [->|Hne]; simpl; [reflexivity|].
  rewrite IH.
  destruct (existsb (String.eqb k) (map fst m)); reflexivity.
Qed.

Lemma size_set_le m k v : JsMap.size (JsMap.set k v m) <= S (JsMap.size m).
Proof.
  unfold JsMap.size. rewrite <- !(length_map fst).
  change (map fst ?x) with (JsMap.keys x). rewrite keys_set.
  destruct (existsb _ _); [lia|]. rewrite length_app. simpl. lia.
Qed.

Lemma size_set_ge m k v : JsMap.size m <= JsMap.size (JsMap.set k v m).
Proof.
  unfold JsMap.size. rewrite <- !(length_map fst).
  change (map fst ?x) with (JsMap.keys x). rewrite keys_set.
  destruct (existsb _ _); [lia|]. rewrite length_app. simpl. lia.
Qed.

Lemma NoDup_keys_set m k v :
  NoDup (JsMap.keys m) -> NoDup (JsMap.keys (JsMap.set k v m)).
Proof.
  intros Hnd. rewrite keys_set.
  destruct (existsb (String.eqb k) (JsMap.keys m)) eqn:E; [exact Hnd|].
  apply NoDup_app; [exact Hnd | repeat constructor; intros [] | ].
  intros x Hx [Ek|[]]. subst x.
  assert (existsb (String.eqb k) (JsMap.keys m) = true) as Ht.
  { apply existsb_exists. exists k. split; [exact Hx | apply String.eqb_refl]. }
  congruence.
Qed.

(** With distinct keys, a key has one value. *)
Lemma NoDup_keys_functional m k v v' :
  NoDup (JsMap.keys m) -> In (k, v) m -> In (k, v') m -> v = v'.
Proof.
  induction m as [|[k0 v0] m IH]; simpl; [tauto|].
  intros Hnd. inversion Hnd as [|? ? Hnotin Hnd']; subst.
  assert (forall w, In (k0, w) m -> False) as Habs.
  { intros w Hw. apply Hnotin. apply (in_map fst) in Hw. exact Hw. }
  intros [E1|H1] [E2|H2].
  - congruence.
  - inversion E1; subst. destruct (Habs _ H2).
  - inversion E2; subst. destruct (Habs _ H1).
  - now apply IH.
Qed.
End Facts.
End JsMapFacts.

(* ===================================================================== *)
(** ** The registry *)
(* ===================================================================== *)

Module RegistryFacts.
Import ToolRegistry.

Lemma empty_wellKeyed : wellKeyed ToolRegistry.empty.
Proof. split; [constructor | intros k tool []]. Qed.

Lemma register_wellKeyed tool r :
  wellKeyed r -> wellKeyed (register tool r).
Proof.
  intros [Hnd Hname]. split.
  - apply JsMapFacts.NoDup_keys_set, Hnd.
  - intros k t Hin. apply JsMapFacts.set_inv in Hin as [E|Hin].
    + now inversion E.
    + now apply Hname.
Qed.

Lemma registerAll_wellKeyed defs : forall r,
  wellKeyed r -> wellKeyed (registerAll defs r).
Proof.
  induction defs as [|d defs IH]; intros r Hr; simpl; [exact Hr|].
  apply IH, register_wellKeyed, Hr.
Qed.

Lemma of_list_wellKeyed defs : wellKeyed (of_list defs).
Proof. apply registerAll_wellKeyed, empty_wellKeyed. Qed.

Lemma getAll_entry r tool :
  wellKeyed r -> In tool (getAll r) -> In (byName tool) r.
Proof.
  intros [_ Hname] Hin. unfold getAll, JsMap.values in Hin.
  apply in_map_iff in Hin as [[k t] [E Hin]]. simpl in E. subst t.
  unfold byName. now rewrite (Hname _ _ Hin).
Qed.

Lemma names_getAll r : wellKeyed r -> map name (getAll r) = JsMap.keys r.
Proof.
  intros [_ Hname]. unfold getAll, JsMap.values, JsMap.keys.
  rewrite map_map. apply map_ext_in. intros [k t] Hin. simpl.
  now apply Hname.
Qed.

Lemma NoDup_map_filter {A B : Type} (f : A -> B) (p : A -> bool) l :
  NoDup (map f l) -> NoDup (map f (filter p l)).
Proof.
  induction l as [|a l IH]; simpl; intros Hnd; [constructor|].
  inversion Hnd as [|? ? Hnotin Hnd']; subst.
  destruct (p a); simpl; [|now apply IH].
  constructor; [|now apply IH].
  intros Hin. apply Hnotin. apply in_map_iff in Hin as [x [E Hx]].
  apply filter_In in Hx as [Hx _]. rewrite <- E. now apply in_map.
Qed.

Lemma NoDup_names_getCoreTools r :
  wellKeyed r -> NoDup (map name (getCoreTools r)).
Proof.
  intros Hr. unfold getCoreTools. apply NoDup_map_filter.
  rewrite (names_getAll r Hr). apply Hr.
Qed.

(** Filing tools whose names are new, one after the other, appends them
    in order. *)
Lemma fold_set_fresh tools : forall m : JsMap.t ToolDefinition,
  NoDup (JsMap.keys m ++ map name tools) ->
  fold_left (fun sel tool => JsMap.set (name tool) tool sel) tools m
  = m ++ map byName tools.
Proof.
  induction tools as [|a tools IH]; intros m Hnd; simpl.
  - now rewrite app_nil_r.
  - simpl in Hnd. pose proof (NoDup_remove_2 _ _ _ Hnd) as Hfresh.
    rewrite JsMapFacts.set_fresh.
    + rewrite IH.
      * now rewrite <- app_assoc.
      * unfold JsMap.keys in *. rewrite map_app, <- app_assoc. exact Hnd.
    + intros Hin. apply Hfresh. apply in_or_app. now left.
Qed.

Lemma of_list_distinct defs :
  NoDup (map name defs) -> getAll (of_list defs) = defs.
Proof.
  intros Hnd. unfold of_list, registerAll, getAll, JsMap.values.
  change (fun acc tool => register tool acc)
    with (fun sel tool => JsMap.set (V:=ToolDefinition) (name tool) tool sel).
  rewrite fold_set_fresh by exact Hnd.
  simpl. rewrite map_map. simpl. apply map_id.
Qed.

End RegistryFacts.

(* ===================================================================== *)
(** ** [selectTools] *)
(* ===================================================================== *)

Module SelectorFacts.
Import ToolRegistry RegistryFacts.

Section OverARegistry.
Variable r : ToolRegistry.t.
Hypothesis r_wellKeyed : wellKeyed r.

Local Abbreviation fromRegistry := (ToolRegistry.fromRegistry r).

Lemma keeps_refl sel : keeps sel sel.
Proof. intros entry H. exact H. Qed.

Lemma keeps_trans a b c : keeps a b -> keeps b c -> keeps a c.
Proof. intros Hab Hbc entry H. apply Hbc, Hab, H. Qed.

Lemma set_fromRegistry sel tool :
  fromRegistry sel -> In tool (getAll r) ->
  fromRegistry (JsMap.set (name tool) tool sel).
Proof.
  intros Hsel Htool k t Hin.
  apply JsMapFacts.set_inv in Hin as [E|Hin]; [|now apply Hsel].
  inversion E; subst. now apply getAll_entry.
Qed.

Lemma set_keeps sel tool :
  fromRegistry sel -> In tool (getAll r) ->
  keeps sel (JsMap.set (name tool) tool sel).
Proof.
  intros Hsel Htool [k t] Hin.
  destruct (string_dec k (name tool)) as [->|Hne].
  - assert (t = tool) as ->.
    { apply JsMapFacts.NoDup_keys_functional with (m:=r) (k:=name tool).
      - apply r_wellKeyed.
      - now apply Hsel.
      - now apply getAll_entry. }
    apply JsMapFacts.set_same.
  - now apply JsMapFacts.set_other.
Qed.

(** The unconditional loop over the core tools. *)
Lemma seed_spec tools : forall sel,
  fromRegistry sel -> incl tools (getAll r) ->
  let sel' := fold_left (fun s tool => JsMap.set (name tool) tool s) tools sel in
  fromRegistry sel' /\ keeps sel sel'
  /\ forall tool, In tool tools -> In (byName tool) sel'.
Proof.
  induction tools as [|a tools IH]; intros sel Hsel Hincl; simpl.
  - split; [exact Hsel|]. split; [apply keeps_refl | intros tool []].
  - assert (In a (getAll r)) as Ha by (apply Hincl; now left).
    assert (incl tools (getAll r)) as Hincl'
        by (intros x Hx; apply Hincl; now right).
    destruct (IH (JsMap.set (name a) a sel)
                 (set_fromRegistry sel a Hsel Ha) Hincl') as [H1 [H2 H3]].
    split; [exact H1|]. split.
    + eapply keeps_trans; [apply set_keeps; eassumption | exact H2].
    + intros tool [<-|Hin]; [|now apply H3].
      apply H2. apply JsMapFacts.set_same.
Qed.

(** The capped loop over the tools of one hint. *)
Lemma addWhileRoom_spec tools : forall sel,
  fromRegistry sel -> incl tools (getAll r) ->
  fromRegistry (addWhileRoom tools sel)
  /\ keeps sel (addWhileRoom tools sel)
  /\ JsMap.size (addWhileRoom tools sel) <= Nat.max MAX_TOOLS (JsMap.size sel).
Proof.
  induction tools as [|a tools IH]; intros sel Hsel Hincl;
    cbn [addWhileRoom].
  - split; [exact Hsel|]. split; [apply keeps_refl | lia].
  - destruct (Nat.leb_spec MAX_TOOLS (JsMap.size sel)) as [Hfull|Hroom].
    + split; [exact Hsel|]. split; [apply keeps_refl | lia].
    + assert (In a (getAll r)) as Ha by (apply Hincl; now left).
      assert (incl tools (getAll r)) as Hincl'
          by (intros x Hx; apply Hincl; now right).
      destruct (IH (JsMap.set (name a) a sel)
                   (set_fromRegistry sel a Hsel Ha) Hincl') as [H1 [H2 H3]].
      split; [exact H1|]. split.
      * eapply keeps_trans; [apply set_keeps; eassumption | exact H2].
      * pose proof (JsMapFacts.size_set_le sel (name a) a). lia.
Qed.

(** The loop over the hints of one kind. *)
Lemma hints_spec (H : Type) (lookup : H -> list ToolDefinition) hints :
  (forall h, incl (lookup h) (getAll r)) ->
  forall sel, fromRegistry sel ->
  let sel' := fold_left (fun s h => addWhileRoom (lookup h) s) hints sel in
  fromRegistry sel' /\ keeps sel sel'
  /\ JsMap.size sel' <= Nat.max MAX_TOOLS (JsMap.size sel).
Proof.
  intros Hlookup. induction hints as [|h hints IH]; intros sel Hsel;
    cbn [fold_left].
  - split; [exact Hsel|]. split; [apply keeps_refl | lia].
  - destruct (addWhileRoom_spec (lookup h) sel Hsel (Hlookup h)) as [A1 [A2 A3]].
    destruct (IH _ A1) as [B1 [B2 B3]].
    split; [exact B1|]. split; [eapply keeps_trans; eassumption | lia].
Qed.

Lemma filter_incl (p : ToolDefinition -> bool) : incl (filter p (getAll r)) (getAll r).
Proof. intros x Hx. now apply filter_In in Hx. Qed.

Variable detectToolHints : string -> ToolHints.

Lemma selectTools_spec messageText :
  let selected := selectTools detectToolHints r messageText in
  (forall tool, In tool (getAll r) -> isCore tool = true -> In tool selected)
  /\ length selected <= Nat.max MAX_TOOLS (length (getCoreTools r)).
Proof.
  unfold selectTools.
  set (hints := detectToolHints messageText).
  destruct (seed_spec (getCoreTools r) JsMap.empty)
    as [S1 [_ S3]]; [intros k t [] | apply filter_incl |].
  assert (NoDup (JsMap.keys (@JsMap.empty ToolDefinition)
                 ++ map name (getCoreTools r))) as Hnd
      by (apply NoDup_names_getCoreTools, r_wellKeyed).
  pose proof (fold_set_fresh _ _ Hnd) as Hseed. simpl in Hseed.
  set (seeded := fold_left _ (getCoreTools r) JsMap.empty) in *.
  destruct (hints_spec Platform (searchByPlatform r) (platforms hints)
              (fun p => filter_incl (onPlatform p)) seeded S1)
    as [P1 [P2 P3]].
  set (withPlatforms := fold_left _ (platforms hints) seeded) in *.
  destruct (hints_spec Category (searchByCategory r) (categories hints)
              (fun c => filter_incl (inCategory c)) withPlatforms P1)
    as [C1 [C2 C3]].
  set (withCategories := fold_left _ (categories hints) withPlatforms) in *.
  split.
  - intros tool Hin Hcore.
    assert (In (byName tool) withCategories) as Hsel.
    { apply C2, P2, S3. unfold getCoreTools. apply filter_In. now split. }
    apply (in_map snd) in Hsel. exact Hsel.
  - unfold JsMap.values. rewrite length_map.
    assert (JsMap.size seeded = length (getCoreTools r)) as Hsize.
    { unfold JsMap.size. rewrite Hseed. now rewrite length_map. }
    unfold JsMap.size in *. lia.
Qed.

Lemma selectTools_no_hints messageText :
  platforms (detectToolHints messageText) = [] ->
  categories (detectToolHints messageText) = [] ->
  selectTools detectToolHints r messageText = getCoreTools r.
Proof.
  intros Hp Hc. unfold selectTools. rewrite Hp, Hc. simpl.
  rewrite fold_set_fresh
    by (apply NoDup_names_getCoreTools, r_wellKeyed).
  unfold JsMap.values. simpl. rewrite map_map. simpl. apply map_id.
Qed.

End OverARegistry.

Lemma distinct_NoDup names : distinct names = true -> NoDup names.
Proof.
  induction names as [|n rest IH]; simpl; intros H; [constructor|].
  apply andb_prop in H as [Hn Hrest]. constructor; [|now apply IH].
  intros Hin. apply negb_true_iff in Hn.
  assert (has rest n = true) as Ht.
  { apply existsb_exists. exists n. split; [exact Hin | apply String.eqb_refl]. }
  congruence.
Qed.

(** The literals of [defineTools] carry 88 different names. *)
Lemma TOOL_LITERALS_distinct : NoDup (map fst TOOL_LITERALS).
Proof. apply distinct_NoDup. vm_compute. reflexivity. Qed.

Section TheAgentRegistry.
Variable Session : Type.
Variable env : Environment Session.

Let defs := defineTools (inferToolMetadata env) (CORE_TOOL_NAMES env).

Lemma defineTools_names : map name defs = map fst TOOL_LITERALS.
Proof.
  unfold defs, defineTools. rewrite map_map. apply map_ext.
  intros [n d]. reflexivity.
Qed.

Lemma getAll_agentRegistry : getAll (agentRegistry env) = defs.
Proof.
  apply of_list_distinct. fold defs. rewrite defineTools_names.
  apply TOOL_LITERALS_distinct.
Qed.

Lemma agentRegistry_wellKeyed : wellKeyed (agentRegistry env).
Proof. apply of_list_wellKeyed. Qed.

(** A listed tool is core in the registry as soon as its name is in
    [CORE_TOOL_NAMES]. *)
Lemma listed_core_tool n :
  has (map fst TOOL_LITERALS) n = true ->
  has (CORE_TOOL_NAMES env) n = true ->
  exists tool,
    In tool (getCoreTools (agentRegistry env)) /\ name tool = n.
Proof.
  intros Hlisted Hcore.
  apply existsb_exists in Hlisted as [n' [Hin E]].
  apply String.eqb_eq in E. subst n'.
  apply in_map_iff in Hin as [[n0 d] [E Hin]]. simpl in E. subst n0.
  eexists. split.
  - unfold getCoreTools. rewrite getAll_agentRegistry.
    apply filter_In. split.
    + unfold defs, defineTools. apply in_map_iff.
      exists (n, d). split; [reflexivity | exact Hin].
    + simpl. exact Hcore.
  - reflexivity.
Qed.
End TheAgentRegistry.

End SelectorFacts.

(** C6, as amended. Whatever tools were registered and whatever the
    message, [selectTools] returns every core tool of the registry, and the
    number of tools it returns is at most the larger of [MAX_TOOLS] (50)
    and the number of core tools; so it is at most 50 as soon as the
    registry has at most 50 core tools. *)
Theorem selectTools_core_and_cap :
  forall (detectToolHints : string -> ToolHints)
         (defs : list ToolDefinition) (messageText : string),
    let registry := ToolRegistry.of_list defs in
    let selected := selectTools detectToolHints registry messageText in
    (forall tool, In tool (ToolRegistry.getAll registry) ->
                  isCore tool = true -> In tool selected)
    /\ length selected
       <= Nat.max MAX_TOOLS (length (ToolRegistry.getCoreTools registry))
    /\ (length (ToolRegistry.getCoreTools registry) <= MAX_TOOLS ->
        length selected <= MAX_TOOLS).
Proof.
  intros detectToolHints defs messageText registry selected.
  destruct (SelectorFacts.selectTools_spec registry
              (RegistryFacts.of_list_wellKeyed defs)
              detectToolHints messageText) as [Hcore Hcap].
  fold selected in Hcore, Hcap.
  split; [exact Hcore|]. split; [exact Hcap|]. intros Hfew. lia.
Qed.

(** C6, as stated, fails: a registry of 51 core tools yields 51 tools. *)
Lemma selectTools_exceeds_cap :
  (forall tool, In tool (ToolRegistry.getAll Sample.crowdedRegistry) ->
                isCore tool = true)
  /\ length (selectTools Sample.noHints Sample.crowdedRegistry "hello") = 51
  /\ ~ length (selectTools Sample.noHints Sample.crowdedRegistry "hello")
       <= MAX_TOOLS.
Proof.
  split; [|split].
  - intros tool Hin.
    assert (forallb isCore (ToolRegistry.getAll Sample.crowdedRegistry) = true)
      as Hall by (vm_compute; reflexivity).
    rewrite forallb_forall in Hall. now apply Hall.
  - vm_compute. reflexivity.
  - assert (length (selectTools Sample.noHints Sample.crowdedRegistry "hello")
            = 51) as -> by (vm_compute; reflexivity).
    unfold MAX_TOOLS. lia.
Qed.

(** C9. [tool_search] is defined as the core meta tool: with its name in
    [CORE_TOOL_NAMES], on every message for which [detectToolHints] finds
    no platform and no category, [selectTools] on the agent's registry
    returns exactly the core tools of the registry, which are the core
    tools among those of [defineTools] in the order in which they are
    registered, and that list is not empty. *)
Theorem selectTools_without_hints :
  forall (Session : Type) (env : Environment Session) (messageText : string),
    has (CORE_TOOL_NAMES env) "tool_search" = true ->
    platforms (detectToolHints env messageText) = [] ->
    categories (detectToolHints env messageText) = [] ->
    let selected :=
      selectTools (detectToolHints env) (agentRegistry env) messageText in
    selected = ToolRegistry.getCoreTools (agentRegistry env)
    /\ selected
       = filter isCore
           (defineTools (inferToolMetadata env) (CORE_TOOL_NAMES env))
    /\ selected <> [].
Proof.
  intros Session env messageText Hmeta Hp Hc selected.
  assert (selected = ToolRegistry.getCoreTools (agentRegistry env)) as Heq.
  { apply SelectorFacts.selectTools_no_hints; try assumption.
    apply SelectorFacts.agentRegistry_wellKeyed. }
  split; [exact Heq|]. split.
  - rewrite Heq. unfold ToolRegistry.getCoreTools.
    rewrite SelectorFacts.getAll_agentRegistry. reflexivity.
  - rewrite Heq.
    destruct (SelectorFacts.listed_core_tool Session env "tool_search")
      as [tool [Hin _]]; [vm_compute; reflexivity | exact Hmeta |].
    intros Hnil. rewrite Hnil in Hin. destruct Hin.
Qed.

Lemma selectTools_without_hints_witness :
  let selected :=
    selectTools (detectToolHints Sample.env) (agentRegistry Sample.env)
                "hello" in
  selected = ToolRegistry.getCoreTools (agentRegistry Sample.env)
  /\ selected
     = filter isCore
         (defineTools (inferToolMetadata Sample.env)
                      (CORE_TOOL_NAMES Sample.env))
  /\ selected <> [].
Proof.
  apply (selectTools_without_hints _ Sample.env "hello"); reflexivity.
Defined.

(** Scenario A: with Amazon named in the message, the Amazon tools follow
    the core tools. *)
Example selectTools_scenario_A :
  map name
      (selectTools Sample.amazonHints
         (ToolRegistry.of_list
            (defineTools Sample.amazonByName ["tool_search"]))
         "search amazon for yoga mat")
  = ["tool_search"; "scan_amazon"; "create_amazon_listing";
     "setup_amazon_credentials"; "browse_amazon_categories";
     "amazon_sp_search_catalog"; "amazon_sp_get_pricing";
     "amazon_sp_estimate_fees"; "amazon_sp_create_listing";
     "amazon_sp_get_orders"; "amazon_sp_get_fba_inventory";
     "setup_amazon_sp_credentials"].
Proof. vm_compute. reflexivity. Qed.

(** The sample registry answers a message without hints with its two core
    tools, in the order [defineTools] lists them. *)
Example selectTools_sample :
  map name (selectTools (detectToolHints Sample.env)
                        (agentRegistry Sample.env) "hello")
  = ["list_credentials"; "tool_search"].
Proof. vm_compute. reflexivity. Qed.

(* ===================================================================== *)
(** ** [ensureAlternatingRoles] *)
(* ===================================================================== *)

Module NormalizerFacts.

Lemma role_eqb_eq a b : role_eqb a b = true <-> a = b.
Proof. destruct a, b; simpl; split; congruence. Qed.

Lemma role_eqb_neq a b : role_eqb a b = false <-> a <> b.
Proof. destruct a, b; simpl; split; congruence. Qed.

Lemma lastOf_snoc {A : Type} (l : list A) x : lastOf (l ++ [x]) = Some x.
Proof.
  induction l as [|a l IH]; [reflexivity|].
  simpl. destruct (l ++ [x]) eqn:E; [|exact IH].
  destruct l; discriminate.
Qed.

Lemma lastOf_map {A B : Type} (f : A -> B) (l : list A) :
  lastOf (map f l) = option_map f (lastOf l).
Proof.
  induction l as [|a [|b l] IH]; try reflexivity. exact IH.
Qed.

Lemma lastOf_None {A : Type} (l : list A) : lastOf l = None -> l = [].
Proof.
  induction l as [|a [|b l] IH]; simpl; intros H;
    [reflexivity | discriminate | ].
  specialize (IH H). discriminate.
Qed.

Lemma alternating_snoc roles x :
  alternating roles ->
  (forall y, lastOf roles = Some y -> y <> x) ->
  alternating (roles ++ [x]).
Proof.
  induction roles as [|a [|b roles] IH]; intros Halt Hlast.
  - exact I.
  - simpl. split; [apply Hlast; reflexivity | exact I].
  - destruct Halt as [Hab Halt]. split; [exact Hab|].
    apply IH; [exact Halt | exact Hlast].
Qed.

Lemma roles_setLastContent result c :
  map role (setLastContent result c) = map role result.
Proof.
  induction result as [|a [|b result] IH]; try reflexivity.
  change (role a :: map role (setLastContent (b :: result) c)
          = role a :: map role (b :: result)).
  now rewrite IH.
Qed.

Lemma setLastContent_nonempty result c :
  result <> [] -> setLastContent result c <> [].
Proof. destruct result as [|a [|b result]]; simpl; congruence. Qed.

Lemma visit_alternating result msg :
  alternating (map role result) -> alternating (map role (visit result msg)).
Proof.
  intros Halt. unfold visit.
  destruct (lastOf result) as [last|] eqn:Elast.
  - destruct (role_eqb (role last) (role msg)) eqn:Erole.
    + destruct (content last), (content msg);
        try exact Halt. now rewrite roles_setLastContent.
    + rewrite map_app. apply alternating_snoc; [exact Halt|].
      intros y Hy. rewrite lastOf_map, Elast in Hy. inversion Hy; subst.
      now apply role_eqb_neq.
  - apply lastOf_None in Elast. subst. exact I.
Qed.

Lemma visit_nonempty result msg : visit result msg <> [].
Proof.
  unfold visit. destruct (lastOf result) as [last|] eqn:Elast.
  - assert (result <> []) as Hne by (intros ->; discriminate).
    destruct (role_eqb (role last) (role msg)).
    + destruct (content last), (content msg); try exact Hne.
      now apply setLastContent_nonempty.
    + destruct result; discriminate.
  - destruct result; discriminate.
Qed.

Lemma walk_alternating messages : forall result,
  alternating (map role result) ->
  alternating (map role (fold_left visit messages result)).
Proof.
  induction messages as [|m messages IH]; intros result Halt; simpl.
  - exact Halt.
  - apply IH, visit_alternating, Halt.
Qed.

Lemma walk_nonempty messages : forall result,
  result <> [] \/ messages <> [] -> fold_left visit messages result <> [].
Proof.
  induction messages as [|m messages IH]; intros result H; simpl.
  - destruct H as [H|H]; [exact H | congruence].
  - apply IH. left. apply visit_nonempty.
Qed.

(** The roles of the normalised transcript alternate, and it opens with
    the user. *)
Lemma ensureAlternatingRoles_roles messages :
  alternating (map role (ensureAlternatingRoles messages))
  /\ (messages <> [] ->
      exists first rest, ensureAlternatingRoles messages = first :: rest
                         /\ role first = user).
Proof.
  destruct messages as [|m messages]; [split; [exact I | congruence]|].
  unfold ensureAlternatingRoles.
  pose proof (walk_alternating (m :: messages) [] I) as Halt.
  assert (fold_left visit (m :: messages) [] <> []) as Hne
      by (apply walk_nonempty; right; discriminate).
  destruct (fold_left visit (m :: messages) []) as [|first rest] eqn:E;
    [congruence|].
  destruct (role first) eqn:Efirst.
  - split; [exact Halt|]. intros _. now exists first, rest.
  - split.
    + change (user <> role first /\ alternating (map role (first :: rest))).
      split; [congruence | exact Halt].
    + intros _. now exists CONVERSATION_START, (first :: rest).
Qed.

Lemma alternating_neighbours (l : list MessageParam) :
  alternating (map role l) ->
  forall i a b, nth_error l i = Some a -> nth_error l (S i) = Some b ->
                role a <> role b.
Proof.
  induction l as [|x [|y l] IH]; intros Halt i a b Ha Hb.
  - destruct i; discriminate.
  - destruct i as [|[|i]]; discriminate.
  - destruct Halt as [Hxy Halt]. destruct i as [|i].
    + simpl in Ha, Hb. congruence.
    + apply (IH Halt i); assumption.
Qed.

End NormalizerFacts.

(** C4. For every list of turns, [ensureAlternatingRoles] returns a list
    that is non-empty whenever its input is, whose first turn is then a
    user turn, and in which no two consecutive turns have the same role
    and both plain-text content. *)
Theorem ensureAlternatingRoles_normal :
  forall messages : list MessageParam,
    let out := ensureAlternatingRoles messages in
    (messages <> [] -> out <> [])
    /\ (forall first rest, out = first :: rest -> role first = user)
    /\ (forall i a b,
          nth_error out i = Some a -> nth_error out (S i) = Some b ->
          ~ (role a = role b
             /\ isPlain (content a) = true /\ isPlain (content b) = true)).
Proof.
  intros messages out.
  destruct (NormalizerFacts.ensureAlternatingRoles_roles messages)
    as [Halt Hfirst]. fold out in Halt, Hfirst.
  split; [|split].
  - intros Hne. destruct (Hfirst Hne) as [first [rest [E _]]]. congruence.
  - intros first rest E. destruct messages as [|m messages].
    + unfold out in E. discriminate.
    + destruct Hfirst as [first' [rest' [E' Hrole]]]; [discriminate|].
      congruence.
  - intros i a b Ha Hb [Hrole _].
    exact (NormalizerFacts.alternating_neighbours out Halt i a b Ha Hb Hrole).
Qed.

(** Scenario D: two assistant turns and a user turn become the filler
    user turn, the merged assistant turn and the user turn. *)
Example ensureAlternatingRoles_scenario_D :
  ensureAlternatingRoles
    [{| role := assistant; content := plain "a" |};
     {| role := assistant; content := plain "b" |};
     {| role := user; content := plain "c" |}]
  = [{| role := user; content := plain "(conversation start)" |};
     {| role := assistant; content := plain ("a" ++ LF ++ "b") |};
     {| role := user; content := plain "c" |}].
Proof. reflexivity. Qed.

(** C5, as amended. When the role of the current turn equals the role of
    the last turn put out and one of the two has block content, [visit]
    leaves the output as it was: no merge and nothing appended. The turn
    put out before keeps its content; the current turn does not reach the
    output. *)
Theorem visit_blocks_same_role :
  forall (result : list MessageParam) (last msg : MessageParam),
    lastOf result = Some last ->
    role last = role msg ->
    isPlain (content last) && isPlain (content msg) = false ->
    visit result msg = result.
Proof.
  intros result last msg Hlast Hrole Hblocks. unfold visit.
  rewrite Hlast. apply NormalizerFacts.role_eqb_eq in Hrole. rewrite Hrole.
  destruct (content last), (content msg); try reflexivity. discriminate.
Qed.

Lemma visit_blocks_same_role_witness :
  visit [Sample.toolResultsTurn] Sample.helloTurn = [Sample.toolResultsTurn].
Proof.
  apply (visit_blocks_same_role [Sample.toolResultsTurn]
           Sample.toolResultsTurn Sample.helloTurn); reflexivity.
Defined.

(** C5, as stated, fails: a plain user turn that follows a user turn of
    tool results is not appended, and it is absent from the normalised
    transcript. *)
Lemma visit_drops_turn :
  lastOf [Sample.toolResultsTurn] = Some Sample.toolResultsTurn
  /\ role Sample.toolResultsTurn = role Sample.helloTurn
  /\ isPlain (content Sample.toolResultsTurn) = false
  /\ visit [Sample.toolResultsTurn] Sample.helloTurn
     <> [Sample.toolResultsTurn] ++ [Sample.helloTurn]
  /\ ensureAlternatingRoles [Sample.toolResultsTurn; Sample.helloTurn]
     = [Sample.toolResultsTurn]
  /\ ~ In Sample.helloTurn
       (ensureAlternatingRoles [Sample.toolResultsTurn; Sample.helloTurn]).
Proof.
  repeat split; try reflexivity.
  - discriminate.
  - simpl. intros [H|[]]. discriminate.
Qed.

(* ===================================================================== *)
(** ** [executeTool] *)
(* ===================================================================== *)

Module ExecutorFacts.

Lemma has_true names n : has names n = true <-> In n names.
Proof.
  unfold has. rewrite existsb_exists. split.
  - intros [x [Hin E]]. apply String.eqb_eq in E. now subst.
  - intros Hin. exists n. split; [exact Hin | apply String.eqb_refl].
Qed.

Lemma has_subset small big :
  forallb (has big) small = true ->
  forall n, has small n = true -> has big n = true.
Proof.
  intros Hall n Hn. rewrite forallb_forall in Hall.
  apply Hall. now apply has_true.
Qed.

(** The [switch] of [executeTool] has a case for exactly the tools that
    [defineTools] lists. *)
Lemma case_labels_are_tool_names n :
  has CASE_LABELS n = has (map fst TOOL_LITERALS) n.
Proof.
  assert (forallb (has (map fst TOOL_LITERALS)) CASE_LABELS = true) as H1
      by (vm_compute; reflexivity).
  assert (forallb (has CASE_LABELS) (map fst TOOL_LITERALS) = true) as H2
      by (vm_compute; reflexivity).
  destruct (has CASE_LABELS n) eqn:E1.
  - symmetry. exact (has_subset _ _ H1 n E1).
  - destruct (has (map fst TOOL_LITERALS) n) eqn:E2; [|reflexivity].
    pose proof (has_subset _ _ H2 n E2). congruence.
Qed.

Lemma not_a_case toolName :
  has CASE_LABELS toolName = false ->
  String.eqb toolName "scan_amazon" = false
  /\ String.eqb toolName "scan_ebay" = false
  /\ String.eqb toolName "scan_walmart" = false
  /\ String.eqb toolName "scan_aliexpress" = false
  /\ has WRAPPER_CASES toolName = false.
Proof.
  unfold CASE_LABELS, has. rewrite existsb_app. intros H.
  apply orb_false_elim in H as [Hscan Hwrap].
  cbn [SCANNER_CASES existsb] in Hscan.
  repeat (apply orb_false_elim in Hscan as [? Hscan]).
  repeat split; assumption.
Qed.

Section Dispatch.
Variable platformsApi : Platforms.
Variable wrapperCase : string -> Json -> Context -> UserCreds -> Async Json.

Lemma executeTool_unknown toolName input context :
  has CASE_LABELS toolName = false ->
  executeTool platformsApi wrapperCase toolName input context
  = ([LoggerWarn "Unknown tool called"], Resolved (UNKNOWN_TOOL toolName)).
Proof.
  intros H. destruct (not_a_case toolName H) as [E1 [E2 [E3 [E4 E5]]]].
  unfold executeTool. rewrite E1, E2, E3, E4, E5. reflexivity.
Qed.

(** [storeResults] when every write returns: all the writes, in order. *)
Lemma storeResults_written database results :
  Forall (written database) results ->
  storeResults database results = (writesFor results, Resolved tt).
Proof.
  induction 1 as [|r rest [Hupsert Hprice] _ IH]; [reflexivity|].
  cbn [storeResults]. unfold bind. rewrite Hupsert, Hprice, IH.
  reflexivity.
Qed.

(** [storeResults] resolves only when every write returned. *)
Lemma storeResults_resolved database results u :
  outcomeOf (storeResults database results) = Resolved u ->
  Forall (written database) results.
Proof.
  unfold outcomeOf. destruct u.
  induction results as [|r rest IH]; [constructor|].
  cbn [storeResults]. unfold bind.
  destruct (upsertProduct database r) as [[]|e] eqn:Hupsert;
    [|discriminate].
  destruct (addPrice database r) as [[]|e] eqn:Hprice; [|discriminate].
  destruct (storeResults database rest) as [calls [[]|e]];
    [|discriminate].
  intros _. constructor; [now split | apply IH; reflexivity].
Qed.

(** [storeResults] rejects with the first write that throws: the results
    before it are written, and that write is the last call. *)
Lemma storeResults_rejected database results e :
  outcomeOf (storeResults database results) = Rejected e ->
  exists before r after,
    results = before ++ r :: after
    /\ Forall (written database) before
    /\ ((upsertProduct database r = Rejected e
         /\ callsOf (storeResults database results)
            = writesFor before ++ [UpsertProduct r])
        \/ (upsertProduct database r = Resolved tt
            /\ addPrice database r = Rejected e
            /\ callsOf (storeResults database results)
               = writesFor before ++ [UpsertProduct r; AddPrice r])).
Proof.
  unfold outcomeOf, callsOf.
  induction results as [|r rest IH]; [discriminate|].
  cbn [storeResults]. unfold bind.
  destruct (upsertProduct database r) as [[]|e1] eqn:Hupsert.
  - destruct (addPrice database r) as [[]|e2] eqn:Hprice.
    + destruct (storeResults database rest) as [calls [v|e3]];
        [discriminate|].
      cbn [fst snd] in *. intros H.
      destruct (IH H) as [before [r' [after [Hrest [Hall Hlast]]]]].
      exists (r :: before), r', after.
      split; [now rewrite Hrest|].
      split; [constructor; [now split | exact Hall]|].
      unfold writesFor in *. cbn [flat_map app].
      destruct Hlast as [[H1 ->]|[H1 [H2 ->]]];
        [left | right]; repeat split; assumption.
    + cbn [fst snd]. intros H. inversion H; subst e2.
      exists [], r, rest. split; [reflexivity|]. split; [constructor|].
      right. repeat split; assumption.
  - cbn [fst snd]. intros H. inversion H; subst e1.
    exists [], r, rest. split; [reflexivity|]. split; [constructor|].
    left. split; [assumption | reflexivity].
Qed.

(** The calls and the outcome of a scanner after its credential check. *)
Lemma scanWith_spec p createAdapter creds input database :
  scanWith p createAdapter creds input database
  = match search (createAdapter creds) (searchRequest input) with
    | Resolved results =>
        ([CreateAdapter p; AdapterSearch p (searchRequest input)]
           ++ callsOf (storeResults database results),
         match outcomeOf (storeResults database results) with
         | Resolved _ =>
             Resolved (JObj [("status", JStr "ok");
                             ("results", JArr results);
                             ("count", JNum (Z.of_nat (length results)))])
         | Rejected e => Rejected e
         end)
    | Rejected e =>
        ([CreateAdapter p; AdapterSearch p (searchRequest input)],
         Rejected e)
    end.
Proof.
  unfold scanWith, outcomeOf, callsOf, bind, emit, ret.
  destruct (search (createAdapter creds) (searchRequest input))
    as [results|e]; [|reflexivity].
  destruct (storeResults database results) as [calls [u|e]];
    cbn [fst snd app]; [now rewrite app_nil_r | reflexivity].
Qed.

(** A scanner case of [executeTool] is its credential check followed by
    the shared body. *)
Lemma executeTool_scanner toolName scanner input context :
  scannerOf toolName = Some scanner ->
  executeTool platformsApi wrapperCase toolName input context
  = let creds := getUserCreds (credentials context) (userId context) in
    if falsy (scan_creds scanner creds)
    then ret (NOT_CONFIGURED (scan_label scanner) (scan_setup scanner))
    else scanWith (scan_platform scanner)
                  (scan_adapter scanner platformsApi)
                  (scan_creds scanner creds) input (db context).
Proof.
  unfold scannerOf, executeTool.
  destruct (String.eqb toolName "scan_amazon");
    [intros H; inversion H; reflexivity|].
  destruct (String.eqb toolName "scan_ebay");
    [intros H; inversion H; reflexivity|].
  destruct (String.eqb toolName "scan_walmart");
    [intros H; inversion H; reflexivity|].
  destruct (String.eqb toolName "scan_aliexpress");
    [intros H; inversion H; reflexivity|].
  discriminate.
Qed.

(** The four scanners are no wrapper cases. *)
Lemma wrapper_is_no_scanner toolName :
  has WRAPPER_CASES toolName = true ->
  String.eqb toolName "scan_amazon" = false
  /\ String.eqb toolName "scan_ebay" = false
  /\ String.eqb toolName "scan_walmart" = false
  /\ String.eqb toolName "scan_aliexpress" = false.
Proof.
  intros Hwrapper.
  repeat split;
    match goal with
    | |- String.eqb toolName ?scan = false =>
        destruct (String.eqb toolName scan) eqn:E; [|reflexivity];
        apply String.eqb_eq in E; subst toolName;
        vm_compute in Hwrapper; discriminate Hwrapper
    end.
Qed.

(** In a wrapper case [executeTool] settles as the body of the case. *)
Lemma executeTool_wrapper toolName input context :
  has WRAPPER_CASES toolName = true ->
  outcomeOf (executeTool platformsApi wrapperCase toolName input context)
  = outcomeOf (wrapperCase toolName input context
                 (getUserCreds (credentials context) (userId context))).
Proof.
  intros Hwrapper.
  destruct (wrapper_is_no_scanner toolName Hwrapper) as [E1 [E2 [E3 E4]]].
  unfold executeTool. rewrite E1, E2, E3, E4, Hwrapper.
  unfold outcomeOf, bind, emit.
  destruct (wrapperCase toolName input context _) as [made o].
  destruct o; reflexivity.
Qed.

(** A scanner with credentials settles as its search and its writes do. *)
Lemma executeTool_scans toolName scanner input context :
  scannerOf toolName = Some scanner ->
  falsy (scan_creds scanner
           (getUserCreds (credentials context) (userId context))) = false ->
  executeTool platformsApi wrapperCase toolName input context
  = scanWith (scan_platform scanner) (scan_adapter scanner platformsApi)
      (scan_creds scanner
         (getUserCreds (credentials context) (userId context)))
      input (db context).
Proof.
  intros Hscan Hcreds. rewrite (executeTool_scanner _ _ _ _ Hscan).
  cbv zeta. now rewrite Hcreds.
Qed.

End Dispatch.

End ExecutorFacts.

(** C8. For a user with no Amazon credentials in the store, [executeTool]
    on [scan_amazon] resolves (it does not reject) to the payload with
    status error and the message that the Amazon credentials are not
    configured, and it makes no call at all: the Amazon adapter is neither
    made nor searched. *)
Theorem scan_amazon_not_configured :
  forall (platformsApi : Platforms)
         (wrapperCase : string -> Json -> Context -> UserCreds -> Async Json)
         (input : Json) (context : Context),
    getCredentials (credentials context) (userId context) "amazon" = None ->
    let attempt :=
      executeTool platformsApi wrapperCase "scan_amazon" input context in
    outcomeOf attempt
    = Resolved
        (JObj [("status", JStr "error");
               ("message",
                JStr "Amazon credentials not configured. Use setup_amazon_credentials first.")])
    /\ callsOf attempt = []
    /\ existsb (onAdapter "amazon") (callsOf attempt) = false.
Proof.
  intros platformsApi wrapperCase input context Hnone attempt.
  assert (attempt
          = ([], Resolved (NOT_CONFIGURED "Amazon" "setup_amazon_credentials")))
    as ->.
  { unfold attempt, executeTool, getUserCreds.
    cbn [amazon String.eqb Ascii.eqb Bool.eqb]. rewrite Hnone. reflexivity. }
  repeat split.
Qed.

Lemma scan_amazon_not_configured_witness :
  let attempt :=
    executeTool Sample.offline Sample.okWrapper "scan_amazon"
      (JObj [("query", JStr "yoga mat")])
      {| registry := agentRegistry Sample.env;
         db := Sample.database;
         credentials := Sample.noCredentials;
         userId := "user-1" |} in
  outcomeOf attempt
  = Resolved
      (JObj [("status", JStr "error");
             ("message",
              JStr "Amazon credentials not configured. Use setup_amazon_credentials first.")])
  /\ callsOf attempt = []
  /\ existsb (onAdapter "amazon") (callsOf attempt) = false.
Proof.
  apply (scan_amazon_not_configured Sample.offline Sample.okWrapper).
  reflexivity.
Defined.

(* ===================================================================== *)
(** ** The agentic loop *)
(* ===================================================================== *)

Module LoopFacts.

Lemma modelCalls_app a b : modelCalls (a ++ b) = modelCalls a + modelCalls b.
Proof. unfold modelCalls. now rewrite filter_app, length_app. Qed.

Lemma truthy_app_notice text : truthy (text ++ MAX_ITERATIONS_NOTICE) = true.
Proof. destruct text; reflexivity. Qed.

Section OneRun.
Variable Session : Type.
Variable env : Environment Session.
Variable session : Session.
Variable selectedTools : list ToolDefinition.

Let pass' := pass env session selectedTools.
Let while' := fun fuel => while env fuel session selectedTools.
Let answerTo (s : LoopState) :=
  stream env (S (iterations s)) (currentMessages s) (toApiTools selectedTools).

Lemma runToolCall_shape toolCall :
  exists events c,
    runToolCall env session toolCall
    = (events, tool_result_block (call_id toolCall) c)
    /\ modelCalls events = 0.
Proof.
  unfold runToolCall.
  destruct (executeTool _ _ _ _ _) as [made [result|errMsg]];
    do 2 eexists; split; reflexivity.
Qed.

Lemma runToolCalls_shape toolUseBlocks :
  exists events toolResults,
    runToolCalls env session toolUseBlocks = (events, toolResults)
    /\ modelCalls events = 0
    /\ Forall2 (fun toolCall block =>
                  exists c, block = tool_result_block (call_id toolCall) c)
               toolUseBlocks toolResults.
Proof.
  induction toolUseBlocks as [|toolCall rest IH]; cbn [runToolCalls].
  - exists [], []. repeat split. constructor.
  - destruct (runToolCall_shape toolCall) as [e1 [c [-> H1]]].
    destruct IH as [e2 [results [-> [H2 HF]]]].
    exists (e1 ++ e2), (tool_result_block (call_id toolCall) c :: results).
    split; [reflexivity|]. split.
    + rewrite modelCalls_app. lia.
    + constructor; [now exists c | exact HF].
Qed.


(** What a pass does once the model has answered with tool
    invocations. *)
Lemma pass_with_tools s response :
  answerTo s = Resolved response ->
  toolUseBlocksOf (response_content response) <> [] ->
  exists ran toolResults,
    runToolCalls env session (toolUseBlocksOf (response_content response))
    = (ran, toolResults)
    /\ currentMessages (stateOf (pass' s))
       = currentMessages s
           ++ [{| role := assistant;
                  content := blocks (response_content response) |};
               {| role := user; content := blocks toolResults |}]
    /\ iterations (stateOf (pass' s)) = S (iterations s)
    /\ events (stateOf (pass' s))
       = events s ++ ModelCall (S (iterations s)) :: ran.
Proof.
  intros Hanswer Htools. unfold pass', pass. unfold answerTo in Hanswer.
  rewrite Hanswer.
  destruct (toolUseBlocksOf (response_content response)) as [|c cs] eqn:E;
    [congruence|].
  cbn [length Nat.eqb].
  destruct (runToolCalls env session (c :: cs)) as [ran toolResults].
  exists ran, toolResults. split; [reflexivity|].
  destruct (stop_reason response) as [reason|];
    [destruct (String.eqb reason "end_turn"
               && Nat.ltb 0 (length (textBlocksOf (response_content response))))|];
    repeat split.
Qed.

Lemma pass_answer s response :
  answerTo s = Resolved response ->
  toolUseBlocksOf (response_content response) = [] ->
  pass' s
  = Break {| currentMessages := currentMessages s;
             iterations := S (iterations s);
             finalText := join LF (textBlocksOf (response_content response));
             events := events s ++ [ModelCall (S (iterations s))] |}.
Proof.
  intros Hanswer Hnone. unfold pass', pass. unfold answerTo in Hanswer.
  rewrite Hanswer, Hnone. reflexivity.
Qed.

Lemma pass_error s errMsg :
  answerTo s = Rejected errMsg ->
  pass' s
  = Break {| currentMessages := currentMessages s;
             iterations := S (iterations s);
             finalText :=
               if includes errMsg "prompt is too long"
                  || includes errMsg "max_tokens"
               then TOO_LONG_REPLY else TRY_AGAIN_REPLY;
             events := events s ++ [ModelCall (S (iterations s));
                                    ModelError errMsg] |}.
Proof.
  intros Hanswer. unfold pass', pass. unfold answerTo in Hanswer.
  rewrite Hanswer.
  destruct (includes errMsg "prompt is too long"
            || includes errMsg "max_tokens"); reflexivity.
Qed.

Lemma pass_counts s :
  iterations (stateOf (pass' s)) = S (iterations s)
  /\ modelCalls (events (stateOf (pass' s))) = S (modelCalls (events s)).
Proof.
  destruct (answerTo s) as [response|errMsg] eqn:Hanswer.
  - destruct (toolUseBlocksOf (response_content response)) as [|c cs] eqn:E.
    + rewrite (pass_answer s response Hanswer E).
      cbn [stateOf iterations events]. rewrite modelCalls_app.
      split; [reflexivity | cbn; lia].
    + destruct (pass_with_tools s response Hanswer) as
          [ran [results [Hrun [_ [Hit Hev]]]]]; [congruence|].
      split; [exact Hit|]. rewrite Hev, modelCalls_app.
      destruct (runToolCalls_shape
                  (toolUseBlocksOf (response_content response)))
        as [ran' [results' [Hrun' [Hzero _]]]].
      rewrite Hrun in Hrun'. inversion Hrun'; subst.
      change (modelCalls (ModelCall (S (iterations s)) :: ran'))
        with (S (modelCalls ran')). lia.
  - rewrite (pass_error s errMsg Hanswer).
    cbn [stateOf iterations events]. rewrite modelCalls_app.
    split; [reflexivity | cbn; lia].
Qed.

(** The loop is over within [MAX_ITERATIONS - iterations] passes, and it
    called the model once per pass. *)
Lemma while_ends fuel : forall s,
  MAX_ITERATIONS - iterations s <= fuel ->
  exists s',
    while' fuel s = Some s'
    /\ iterations s <= iterations s'
    /\ (iterations s <= MAX_ITERATIONS -> iterations s' <= MAX_ITERATIONS)
    /\ modelCalls (events s') + iterations s
       = modelCalls (events s) + iterations s'.
Proof.
  unfold while'.
  induction fuel as [|fuel IH]; intros s Hfuel; cbn [while];
    destruct (Nat.ltb_spec (iterations s) MAX_ITERATIONS) as [Hlt|Hge];
    try (exists s; repeat split; lia).
  destruct (pass_counts s) as [Hit Hcalls]. unfold pass' in Hit, Hcalls.
  destruct (pass env session selectedTools s) as [s1|s1];
    cbn [stateOf] in Hit, Hcalls.
  - destruct (IH s1) as [s' [Hw [H1 [H2 H3]]]]; [lia|].
    exists s'. repeat split; try exact Hw; lia.
  - exists s1. repeat split; lia.
Qed.

Lemma pass_keepsAsking s :
  keepsAsking (answerTo s) ->
  exists s', pass' s = Continue s' /\ finalText s' = finalText s.
Proof.
  intros [response [Hanswer [Htools Hend]]].
  unfold pass', pass. unfold answerTo in Hanswer. rewrite Hanswer.
  destruct (toolUseBlocksOf (response_content response)) as [|c cs] eqn:E;
    [congruence|].
  cbn [length Nat.eqb].
  destruct (runToolCalls env session (c :: cs)) as [ran toolResults].
  destruct (stop_reason response) as [reason|] eqn:Ereason;
    [|eexists; split; reflexivity].
  destruct (String.eqb_spec reason "end_turn") as [->|Hne];
    [|eexists; split; reflexivity].
  destruct (textBlocksOf (response_content response)) eqn:Etext;
    [eexists; split; reflexivity|].
  exfalso. apply Hend. split; [reflexivity | discriminate].
Qed.

Lemma while_keepsAsking :
  (forall s, keepsAsking (answerTo s)) ->
  forall fuel s,
    MAX_ITERATIONS - iterations s <= fuel ->
    iterations s <= MAX_ITERATIONS ->
    exists s',
      while' fuel s = Some s'
      /\ iterations s' = MAX_ITERATIONS
      /\ finalText s' = finalText s.
Proof.
  intros Hasks. unfold while'.
  induction fuel as [|fuel IH]; intros s Hfuel Hle; cbn [while];
    destruct (Nat.ltb_spec (iterations s) MAX_ITERATIONS) as [Hlt|Hge];
    try (exists s; repeat split; lia).
  destruct (pass_keepsAsking s (Hasks s)) as [s1 [Hpass Htext]].
  destruct (pass_counts s) as [Hit _]. unfold pass' in *.
  rewrite Hpass in *. cbn [stateOf] in Hit.
  destruct (IH s1) as [s' [Hw [H1 H2]]]; [lia | lia |].
  exists s'. repeat split; [exact Hw | exact H1 | congruence].
Qed.

(** Passes that ran to the end of the body are a prefix of the loop. *)
Lemma afterPasses_while n : forall s0 s fuel,
  afterPasses env n session selectedTools s0 = Some s ->
  while' (n + fuel) s0 = while' fuel s /\ iterations s = iterations s0 + n.
Proof.
  unfold while'.
  induction n as [|n IH]; intros s0 s fuel H; cbn [afterPasses] in H.
  - inversion H; subst. split; [reflexivity | lia].
  - cbn [Nat.add while].
    destruct (Nat.ltb (iterations s0) MAX_ITERATIONS); [|discriminate].
    destruct (pass_counts s0) as [Hit _]. unfold pass' in Hit.
    destruct (pass env session selectedTools s0) as [s1|s1];
      [|discriminate].
    cbn [stateOf] in Hit. destruct (IH s1 s fuel H) as [Hw Hn].
    split; [exact Hw | lia].
Qed.

End OneRun.
End LoopFacts.

(** C1, as amended. [handleMessage] always returns, its loop makes at most
    10 passes, and it calls the model exactly once per pass. If every
    answer of the model asks for a tool and none of them is an [end_turn]
    answer that also carries text, the loop stops after the 10th pass and
    the text put out is the maximum-iterations notice. *)
Theorem handleMessage_iteration_cap :
  forall (Session : Type) (env : Environment Session)
         (message : IncomingMessage) (session : Session),
  exists h,
    handleMessage env message session = Some h
    /\ (forall s, loop_end h = Some s ->
                  iterations s <= MAX_ITERATIONS
                  /\ modelCalls (events s) = iterations s)
    /\ (truthy (trim env (msg_text message)) = true ->
        (forall n messages tools, keepsAsking (stream env n messages tools)) ->
        exists s,
          loop_end h = Some s
          /\ iterations s = 10
          /\ modelCalls (events s) = 10
          /\ text_out h = MAX_ITERATIONS_NOTICE
          /\ includes (text_out h) "(Reached maximum tool call iterations.)"
             = true).
Proof.
  intros Session env message session.
  unfold handleMessage, handleMessageWithin.
  set (text := trim env (msg_text message)).
  destruct (truthy text) eqn:Htext; cbn [negb].
  2:{ eexists. split; [reflexivity|]. split.
      - intros s H. discriminate.
      - intros H. discriminate. }
  set (session1 := addToHistory env session user text).
  set (selectedTools :=
         selectTools (detectToolHints env) (agentRegistry env) text).
  destruct (LoopFacts.while_ends Session env session1 selectedTools
              MAX_ITERATIONS (loopStart env session1))
    as [s' [Hw [_ [Hcap Hcalls]]]];
    [change (iterations (loopStart env session1)) with 0; lia|].
  rewrite Hw.
  assert (iterations s' <= MAX_ITERATIONS
          /\ modelCalls (events s') = iterations s') as Hbound.
  { change (iterations (loopStart env session1)) with 0 in Hcap, Hcalls.
    change (modelCalls (events (loopStart env session1))) with 0 in Hcalls.
    split; [apply Hcap; lia | lia]. }
  assert ((forall n messages tools, keepsAsking (stream env n messages tools))
          -> iterations s' = 10 /\ afterLoop s' = MAX_ITERATIONS_NOTICE)
    as Hasks.
  { intros Hall.
    destruct (LoopFacts.while_keepsAsking Session env session1 selectedTools
                (fun s => Hall _ _ _) MAX_ITERATIONS (loopStart env session1))
      as [s'' [Hw' [Hit Hfinal]]];
      [change (iterations (loopStart env session1)) with 0; lia
      |change (iterations (loopStart env session1)) with 0; lia|].
    rewrite Hw in Hw'. inversion Hw'; subst s''.
    split; [exact Hit|]. unfold afterLoop. rewrite Hit, Hfinal. reflexivity. }
  destruct (truthy (afterLoop s')) eqn:Hout.
  - eexists. split; [reflexivity|]. cbn [loop_end text_out]. split.
    + intros s H. inversion H; subst. exact Hbound.
    + intros _ Hall. destruct (Hasks Hall) as [Hit Hnotice].
      exists s'. split; [reflexivity|]. split; [exact Hit|].
      split; [lia|]. split; [exact Hnotice|]. rewrite Hnotice. reflexivity.
  - eexists. split; [reflexivity|]. cbn [loop_end text_out]. split.
    + intros s H. inversion H; subst. exact Hbound.
    + intros _ Hall. destruct (Hasks Hall) as [_ Hnotice].
      rewrite Hnotice in Hout. discriminate.
Qed.

(** Scenario C: a model that asks for a tool on every call is stopped
    after ten calls, with the notice as the reply. *)
Example handleMessage_scenario_C :
  exists h s,
    handleMessage Sample.env Sample.hello [] = Some h
    /\ loop_end h = Some s
    /\ iterations s = 10
    /\ modelCalls (events s) = 10
    /\ reply h = Some MAX_ITERATIONS_NOTICE.
Proof.
  do 2 eexists. split; [vm_compute; reflexivity|].
  repeat split.
Qed.

(** Scenario B: one tool round, then the answer: two passes, and the
    answer is the reply, without notice. *)
Example handleMessage_scenario_B :
  exists h s,
    handleMessage
      (Sample.envWith Sample.asksOnceThenAnswers Sample.noCredentials)
      Sample.hello []
    = Some h
    /\ loop_end h = Some s
    /\ iterations s = 2
    /\ reply h = Some "All done.".
Proof.
  do 2 eexists. split; [vm_compute; reflexivity|].
  repeat split.
Qed.

(** C1, as stated, fails: every answer of this model asks for a tool, yet
    the loop stops after the first pass and the text carries no notice,
    because the answers are [end_turn] answers with text. *)
Lemma end_turn_answer_with_tools_ends_loop :
  (forall n messages tools,
      exists response,
        Sample.asksAtEndOfTurn n messages tools = Resolved response
        /\ toolUseBlocksOf (response_content response) <> [])
  /\ exists h s,
      handleMessage (Sample.envWith Sample.asksAtEndOfTurn Sample.noCredentials)
                    Sample.hello []
      = Some h
      /\ loop_end h = Some s
      /\ iterations s = 1
      /\ text_out h = "done"
      /\ includes (text_out h) "(Reached maximum tool call iterations.)"
         = false.
Proof.
  split.
  - intros n messages tools. eexists. split; [reflexivity | discriminate].
  - do 2 eexists. split; [vm_compute; reflexivity|]. repeat split.
Qed.

(** C2, as amended. [executeTool] resolves to an error-shaped payload,
    without raising, for a tool name that is no case label (that is, no
    name [defineTools] lists), and for a scanner whose platform
    credentials are missing. It has no [catch] of its own. A scanner with
    credentials resolves to its payload when the search of the adapter and
    every write of [storeResults] return, and rejects when the search
    rejects or a write throws; in each of the other 84 cases the call
    settles as the body of the case does. A rejection is caught by the
    loop around the call, which turns it into the payload
    [{ error: 'Tool execution failed: ...' }]: either way each invocation
    gets its [tool_result] block. *)
Theorem executeTool_boundary :
  forall (Session : Type) (env : Environment Session) (session : Session)
         (toolName : string) (input : Json) (context : Context),
    let run := executeTool (platformsApi env) (wrapperCase env) in
    let creds := getUserCreds (credentials context) (userId context) in
    (has (map fst TOOL_LITERALS) toolName = false ->
     run toolName input context
     = ([LoggerWarn "Unknown tool called"],
        Resolved (JObj [("error", JStr ("Unknown tool: " ++ toolName))])))
    /\ (forall scanner,
          scannerOf toolName = Some scanner ->
          if falsy (scan_creds scanner creds)
          then
            run toolName input context
            = ([],
               Resolved
                 (JObj [("status", JStr "error");
                        ("message",
                         JStr (scan_label scanner
                               ++ " credentials not configured. Use "
                               ++ scan_setup scanner ++ " first."))]))
          else
            match search (scan_adapter scanner (platformsApi env)
                            (scan_creds scanner creds))
                         (searchRequest input) with
            | Resolved results =>
                (Forall (written (db context)) results ->
                 outcomeOf (run toolName input context)
                 = Resolved
                     (JObj [("status", JStr "ok");
                            ("results", JArr results);
                            ("count", JNum (Z.of_nat (length results)))]))
                /\ (forall r,
                       In r results -> ~ written (db context) r ->
                       exists errMsg,
                         outcomeOf (run toolName input context)
                         = Rejected errMsg)
            | Rejected errMsg =>
                outcomeOf (run toolName input context) = Rejected errMsg
            end)
    /\ (has WRAPPER_CASES toolName = true ->
        outcomeOf (run toolName input context)
        = outcomeOf (wrapperCase env toolName input context creds))
    /\ (forall toolCall,
          let attempt :=
            run (call_name toolCall) (call_input toolCall)
                {| registry := agentRegistry env;
                   db := deps_db env;
                   credentials := credentialStore env;
                   userId := session_userId env session |} in
          exists payload,
            snd (runToolCall env session toolCall)
            = tool_result_block (call_id toolCall) (resultContent env payload)
            /\ (outcomeOf attempt = Resolved payload
                \/ exists errMsg,
                    outcomeOf attempt = Rejected errMsg
                    /\ payload
                       = JObj [("error",
                                JStr ("Tool execution failed: " ++ errMsg))])).
Proof.
  intros Session env session toolName input context run creds.
  split; [|split; [|split]].
  - intros Hunknown. apply ExecutorFacts.executeTool_unknown.
    now rewrite ExecutorFacts.case_labels_are_tool_names.
  - intros scanner Hscan. unfold run.
    destruct (falsy (scan_creds scanner creds)) eqn:Hcreds.
    + rewrite (ExecutorFacts.executeTool_scanner _ _ _ _ _ _ Hscan).
      cbv zeta. fold creds. now rewrite Hcreds.
    + rewrite (ExecutorFacts.executeTool_scans _ _ _ _ _ _ Hscan Hcreds).
      fold creds. rewrite ExecutorFacts.scanWith_spec.
      destruct (search _ (searchRequest input)) as [results|errMsg];
        [|reflexivity].
      unfold outcomeOf at 1 3. cbn [snd].
      split.
      * intros Hall.
        now rewrite (ExecutorFacts.storeResults_written _ _ Hall).
      * intros r Hin Hnot.
        destruct (outcomeOf (storeResults (db context) results))
          as [u|errMsg] eqn:Hstore; [|now exists errMsg].
        exfalso. apply Hnot.
        pose proof (ExecutorFacts.storeResults_resolved _ _ _ Hstore)
          as Hall.
        rewrite Forall_forall in Hall. now apply Hall.
  - intros Hwrapper. apply ExecutorFacts.executeTool_wrapper. exact Hwrapper.
  - intros toolCall attempt. unfold runToolCall. fold run. fold attempt.
    destruct attempt as [made [result|errMsg]]; eexists; split;
      try reflexivity.
    + left. reflexivity.
    + right. eexists. split; reflexivity.
Qed.

(** C2, as stated, fails: with Amazon credentials stored and an adapter
    whose search rejects, [executeTool] on [scan_amazon] rejects. *)
Lemma executeTool_rejects :
  let attempt :=
    executeTool Sample.offline Sample.okWrapper "scan_amazon"
      (JObj [("query", JStr "yoga mat")])
      {| registry := agentRegistry Sample.env;
         db := Sample.database;
         credentials := Sample.amazonCredentials;
         userId := "user-1" |} in
  outcomeOf attempt = Rejected "ECONNRESET"
  /\ ~ exists payload, outcomeOf attempt = Resolved payload.
Proof.
  split; [reflexivity|]. intros [payload H]. discriminate.
Qed.



(** The two invocations of the sample answer get their results in order:
    the failed Amazon search as a caught failure, the unknown tool as an
    error payload. *)
Example tool_results_sample :
  let env := Sample.envWith Sample.asksTwo Sample.amazonCredentials in
  runToolCalls env [Sample.helloTurn]
    (toolUseBlocksOf (response_content Sample.askForTwoTools))
  = ([ToolRun {| call_id := "toolu_a"; call_name := "scan_amazon";
                 call_input := JObj [("query", JStr "yoga mat")] |}
        [CreateAdapter "amazon";
         AdapterSearch "amazon"
           {| query := Some (JStr "yoga mat"); search_category := None;
              maxResults := 10 |}];
      ToolError {| call_id := "toolu_a"; call_name := "scan_amazon";
                   call_input := JObj [("query", JStr "yoga mat")] |}
        "ECONNRESET";
      ToolRun {| call_id := "toolu_b"; call_name := "no_such_tool";
                 call_input := JObj [] |}
        [LoggerWarn "Unknown tool called"]],
     [tool_result_block "toolu_a" "error: Tool execution failed: ECONNRESET";
      tool_result_block "toolu_b" "error: Unknown tool: no_such_tool"]).
Proof. vm_compute. reflexivity. Qed.

(** C7, as amended. When the model call of a pass rejects, that pass ends
    the loop: the model is not called again, the transcript is left as it
    was, and [finalText] becomes the too-long reply if the error message
    contains [prompt is too long] or [max_tokens], the try-again reply
    otherwise. The text put out is that reply, followed by the
    maximum-iterations notice when the failed call was the tenth. *)
Theorem model_error_ends_loop :
  forall (Session : Type) (env : Environment Session) (session : Session)
         (selectedTools : list ToolDefinition) (fuel : nat) (s : LoopState)
         (errMsg : string),
    iterations s < MAX_ITERATIONS ->
    stream env (S (iterations s)) (currentMessages s)
           (toApiTools selectedTools)
    = Rejected errMsg ->
    let replyText :=
      if includes errMsg "prompt is too long" || includes errMsg "max_tokens"
      then "I apologize, but the conversation has grown too long. Please start a new conversation with /new."
      else "Sorry, I encountered an error processing your request. Please try again." in
    exists s',
      while env (S fuel) session selectedTools s = Some s'
      /\ events s'
         = events s ++ [ModelCall (S (iterations s)); ModelError errMsg]
      /\ currentMessages s' = currentMessages s
      /\ iterations s' = S (iterations s)
      /\ finalText s' = replyText
      /\ afterLoop s'
         = if Nat.eqb (S (iterations s)) MAX_ITERATIONS
           then (replyText ++ MAX_ITERATIONS_NOTICE)%string
           else replyText.
Proof.
  intros Session env session selectedTools fuel s errMsg Hlt Hrejected
         replyText.
  cbn [while]. apply Nat.ltb_lt in Hlt as Hlt'. rewrite Hlt'.
  rewrite (LoopFacts.pass_error Session env session selectedTools
             s errMsg Hrejected).
  eexists. split; [reflexivity|]. cbn [events currentMessages iterations
                                        finalText].
  repeat split. unfold afterLoop. cbn [iterations finalText].
  fold TOO_LONG_REPLY TRY_AGAIN_REPLY.
  destruct (Nat.eqb_spec (S (iterations s)) MAX_ITERATIONS) as [E|E].
  - rewrite E, Nat.leb_refl. reflexivity.
  - destruct (Nat.leb_spec MAX_ITERATIONS (S (iterations s))); [lia|].
    reflexivity.
Qed.

Lemma model_error_ends_loop_witness :
  let env := Sample.envWith Sample.failsAtOnce Sample.noCredentials in
  let s := loopStart env [Sample.helloTurn] in
  exists s',
    while env 10 [Sample.helloTurn] [] s = Some s'
    /\ events s'
       = [ModelCall 1;
          ModelError "prompt is too long: 210000 tokens > 200000 maximum"]
    /\ currentMessages s' = [Sample.helloTurn]
    /\ iterations s' = 1
    /\ finalText s'
       = "I apologize, but the conversation has grown too long. Please start a new conversation with /new."
    /\ afterLoop s'
       = "I apologize, but the conversation has grown too long. Please start a new conversation with /new.".
Proof.
  intros env s.
  apply (model_error_ends_loop _ env [Sample.helloTurn] [] 9 s
           "prompt is too long: 210000 tokens > 200000 maximum").
  - unfold MAX_ITERATIONS. cbn. lia.
  - reflexivity.
Defined.

(** C7, as stated, fails: when the model has asked for tools nine times
    and its tenth call rejects, the text put out is not the try-again
    reply but that reply followed by the notice. *)
Lemma model_error_on_tenth_call :
  exists h s,
    handleMessage (Sample.envWith Sample.failsOnTenth Sample.noCredentials)
                  Sample.hello []
    = Some h
    /\ loop_end h = Some s
    /\ iterations s = 10
    /\ lastOf (events s) = Some (ModelError "Overloaded")
    /\ finalText s = TRY_AGAIN_REPLY
    /\ text_out h = (TRY_AGAIN_REPLY ++ MAX_ITERATIONS_NOTICE)%string
    /\ text_out h <> TRY_AGAIN_REPLY
    /\ reply h = Some (TRY_AGAIN_REPLY ++ MAX_ITERATIONS_NOTICE)%string.
Proof.
  do 2 eexists. split; [vm_compute; reflexivity|].
  repeat split. cbn [text_out]. vm_compute. discriminate.
Qed.

(** C10. In a run of [handleMessage] whose first nine passes all ran to
    the end of the loop body and in which the model's tenth answer holds
    no [tool_use] block, the text put out is that answer's text followed
    by the maximum-iterations notice, and it is the text sent: the check
    after the loop looks at the counter only. *)
Theorem notice_after_answer_on_tenth_pass :
  forall (Session : Type) (env : Environment Session)
         (message : IncomingMessage) (session : Session)
         (s9 : LoopState) (response : Message),
    let text := trim env (msg_text message) in
    let session1 := addToHistory env session user text in
    let selectedTools :=
      selectTools (detectToolHints env) (agentRegistry env) text in
    truthy text = true ->
    afterPasses env 9 session1 selectedTools (loopStart env session1)
    = Some s9 ->
    stream env 10 (currentMessages s9) (toApiTools selectedTools)
    = Resolved response ->
    toolUseBlocksOf (response_content response) = [] ->
    exists h,
      handleMessage env message session = Some h
      /\ text_out h
         = (join LF (textBlocksOf (response_content response))
              ++ LF ++ LF ++ "(Reached maximum tool call iterations.)")%string
      /\ reply h
         = sendMessage env {| out_platform := msg_platform message;
                              out_chatId := msg_chatId message;
                              out_text := text_out h;
                              replyToMessageId := msg_id message |}
      /\ (deps_sendMessage env = None -> reply h = Some (text_out h)).
Proof.
  intros Session env message session s9 response text session1 selectedTools
         Htext Hnine Hanswer Hnone.
  destruct (LoopFacts.afterPasses_while Session env session1 selectedTools
              9 (loopStart env session1) s9 1 Hnine) as [Hw Hit].
  change (iterations (loopStart env session1)) with 0 in Hit.
  cbn [Nat.add] in Hit.
  assert (while env 1 session1 selectedTools s9
          = Some {| currentMessages := currentMessages s9;
                    iterations := 10;
                    finalText :=
                      join LF (textBlocksOf (response_content response));
                    events := events s9 ++ [ModelCall 10] |}) as Hlast.
  { cbn [while]. rewrite Hit. cbn [Nat.ltb Nat.leb MAX_ITERATIONS].
    rewrite <- Hit in Hanswer.
    rewrite (LoopFacts.pass_answer Session env session1 selectedTools
               s9 response Hanswer Hnone).
    rewrite Hit. reflexivity. }
  unfold handleMessage, handleMessageWithin.
  fold text. rewrite Htext. cbn [negb]. fold session1. fold selectedTools.
  replace (while env MAX_ITERATIONS session1 selectedTools
                 (loopStart env session1))
    with (while env 1 session1 selectedTools s9) by (symmetry; exact Hw).
  rewrite Hlast.
  change (afterLoop _)
    with (join LF (textBlocksOf (response_content response))
            ++ MAX_ITERATIONS_NOTICE)%string.
  rewrite LoopFacts.truthy_app_notice.
  eexists. split; [reflexivity|]. cbn [text_out reply].
  split; [reflexivity|]. split; [reflexivity|].
  intros Hdefault. unfold sendMessage. rewrite Hdefault. reflexivity.
Qed.

Lemma notice_after_answer_on_tenth_pass_witness :
  exists h,
    handleMessage (Sample.envWith Sample.answersOnTenth Sample.noCredentials)
                  Sample.hello []
    = Some h
    /\ text_out h
       = (join LF (textBlocksOf (response_content Sample.answer))
            ++ LF ++ LF ++ "(Reached maximum tool call iterations.)")%string
    /\ reply h
       = sendMessage
           (Sample.envWith Sample.answersOnTenth Sample.noCredentials)
           {| out_platform := msg_platform Sample.hello;
              out_chatId := msg_chatId Sample.hello;
              out_text := text_out h;
              replyToMessageId := msg_id Sample.hello |}
    /\ (deps_sendMessage
          (Sample.envWith Sample.answersOnTenth Sample.noCredentials) = None ->
        reply h = Some (text_out h)).
Proof.
  eapply (notice_after_answer_on_tenth_pass _
            (Sample.envWith Sample.answersOnTenth Sample.noCredentials)
            Sample.hello [] _ Sample.answer).
  - reflexivity.
  - vm_compute. reflexivity.
  - reflexivity.
  - reflexivity.
Defined.

(** The sample run: nine tool rounds, then the answer, and the reply
    carries the notice all the same. *)
Example notice_after_answer_sample :
  exists h,
    handleMessage (Sample.envWith Sample.answersOnTenth Sample.noCredentials)
                  Sample.hello []
    = Some h
    /\ reply h
       = Some ("All done." ++ LF ++ LF
               ++ "(Reached maximum tool call iterations.)")%string.
Proof. eexists. split; [vm_compute; reflexivity | reflexivity]. Qed.

(* ===================================================================== *)
(** * Further properties *)
(* ===================================================================== *)

(* ===================================================================== *)
(** ** More on [ensureAlternatingRoles] *)
(* ===================================================================== *)

Module NormalizerMore.
Import NormalizerFacts.

Lemma append_assoc (a b c : string) :
  ((a ++ b) ++ c)%string = (a ++ b ++ c)%string.
Proof. induction a as [|ch a IH]; simpl; [reflexivity | now rewrite IH]. Qed.

Lemma lastOf_cons {A : Type} (x : A) (l : list A) :
  l <> [] -> lastOf (x :: l) = lastOf l.
Proof. destruct l; [congruence | reflexivity]. Qed.

Lemma lastOf_setLastContent result c last :
  lastOf result = Some last ->
  lastOf (setLastContent result c)
  = Some {| role := role last; content := c |}.
Proof.
  induction result as [|x [|y rest] IH]; intros H.
  - discriminate.
  - simpl in *. now inversion H.
  - change (setLastContent (x :: y :: rest) c)
      with (x :: setLastContent (y :: rest) c).
    rewrite lastOf_cons by (apply setLastContent_nonempty; discriminate).
    apply IH. exact H.
Qed.

(** The roles after the walk, from a non-empty output on. *)
Lemma walk_roles messages : forall result last,
  lastOf result = Some last ->
  map role (fold_left visit messages result)
  = map role result ++ skipRun (role last) (map role messages).
Proof.
  induction messages as [|m messages IH]; intros result last Hlast; simpl.
  - now rewrite app_nil_r.
  - unfold visit at 2. rewrite Hlast.
    destruct (role_eqb (role last) (role m)) eqn:E.
    + assert (role_eqb (role m) (role last) = true) as E'
          by (destruct (role m), (role last); auto).
      rewrite E'.
      destruct (content last) eqn:Elast, (content m) eqn:Em;
        try (apply IH; exact Hlast).
      rewrite (IH _ _ (lastOf_setLastContent result _ last Hlast)).
      now rewrite roles_setLastContent.
    + assert (role_eqb (role m) (role last) = false) as E'
          by (destruct (role m), (role last); auto).
      rewrite E'. rewrite (IH _ m (lastOf_snoc result m)).
      rewrite map_app, <- app_assoc. reflexivity.
Qed.

Lemma walk_roles_start messages :
  map role (fold_left visit messages []) = roleRuns (map role messages).
Proof.
  destruct messages as [|m messages]; [reflexivity|].
  simpl. change (visit [] m) with [m].
  now rewrite (walk_roles messages [m] m eq_refl).
Qed.

(** A turn that goes on alternating is pushed. *)
Lemma alternating_app_last acc m rest :
  alternating (map role (acc ++ m :: rest)) ->
  forall last, lastOf acc = Some last -> role last <> role m.
Proof.
  induction acc as [|x [|y acc] IH]; intros Halt last Hlast.
  - discriminate.
  - simpl in Hlast. inversion Hlast; subst. simpl in Halt. apply Halt.
  - apply IH; [|exact Hlast]. simpl in Halt. apply Halt.
Qed.

Lemma walk_alternating_id messages : forall acc,
  alternating (map role (acc ++ messages)) ->
  fold_left visit messages acc = acc ++ messages.
Proof.
  induction messages as [|m messages IH]; intros acc Halt; simpl.
  - now rewrite app_nil_r.
  - assert (visit acc m = acc ++ [m]) as ->.
    { unfold visit. destruct (lastOf acc) as [last|] eqn:Hlast;
        [|reflexivity].
      pose proof (alternating_app_last acc m messages Halt last Hlast) as Hne.
      apply role_eqb_neq in Hne. now rewrite Hne. }
    rewrite IH; rewrite <- app_assoc; [reflexivity | exact Halt].
Qed.

(** Joining texts with line feeds. *)
Lemma join_app (a b : list string) :
  a <> [] -> b <> [] ->
  join LF (a ++ b) = (join LF a ++ LF ++ join LF b)%string.
Proof.
  intros Ha Hb. induction a as [|x [|y a] IH]; [congruence | |].
  - destruct b; [congruence|]. reflexivity.
  - change (join LF ((x :: y :: a) ++ b))
      with (x ++ LF ++ join LF ((y :: a) ++ b))%string.
    rewrite IH by discriminate.
    change (join LF (x :: y :: a)) with (x ++ LF ++ join LF (y :: a))%string.
    now rewrite !append_assoc.
Qed.

Lemma join_setLast result a b last :
  lastOf result = Some last -> content last = plain a ->
  join LF (map textOf (setLastContent result (plain (a ++ LF ++ b))))
  = join LF (map textOf (result ++ [{| role := role last;
                                       content := plain b |}])).
Proof.
  induction result as [|x [|y rest] IH]; intros Hlast Ha.
  - discriminate.
  - simpl in Hlast. inversion Hlast; subst. simpl. unfold textOf at 2.
    rewrite Ha. reflexivity.
  - specialize (IH Hlast Ha).
    change (join LF (map textOf (setLastContent (x :: y :: rest)
                                   (plain (a ++ LF ++ b)))))
      with (join LF ([textOf x]
                       ++ map textOf (setLastContent (y :: rest)
                                        (plain (a ++ LF ++ b))))).
    change (map textOf ((x :: y :: rest) ++ [{| role := role last;
                                                content := plain b |}]))
      with ([textOf x]
              ++ map textOf ((y :: rest) ++ [{| role := role last;
                                                content := plain b |}])).
    rewrite !join_app;
      try discriminate;
      try (intros H; apply map_eq_nil in H; revert H;
           apply setLastContent_nonempty; discriminate).
    now rewrite IH.
Qed.

Lemma allPlain_setLast result c :
  allPlain result -> isPlain c = true -> allPlain (setLastContent result c).
Proof.
  unfold allPlain. induction result as [|x [|y rest] IH]; intros H Hc.
  - constructor.
  - repeat constructor. exact Hc.
  - inversion H; subst. constructor; [assumption|]. now apply IH.
Qed.

Lemma visit_plain result m :
  allPlain result -> isPlain (content m) = true ->
  allPlain (visit result m)
  /\ join LF (map textOf (visit result m))
     = join LF (map textOf (result ++ [m])).
Proof.
  intros Hres Hm. unfold visit.
  assert (allPlain (result ++ [m])) as Hpush
      by (apply Forall_app; split; [exact Hres | repeat constructor; exact Hm]).
  destruct (lastOf result) as [last|] eqn:Hlast; [|now split].
  destruct (role_eqb (role last) (role m)) eqn:E; [|now split].
  destruct (content m) as [b|] eqn:Em; [|discriminate].
  destruct (content last) as [a|] eqn:Ea.
  - split; [now apply allPlain_setLast|].
    rewrite (join_setLast result a b last Hlast Ea).
    rewrite !map_app. simpl. unfold textOf at 2 4. simpl. now rewrite Em.
  - exfalso. unfold allPlain in Hres. rewrite Forall_forall in Hres.
    assert (In last result) as Hin.
    { clear -Hlast. induction result as [|x [|y rest] IH];
        [discriminate | simpl in Hlast; inversion Hlast; now left |].
      right. now apply IH. }
    specialize (Hres last Hin). rewrite Ea in Hres. discriminate.
Qed.

Lemma join_same_tail (a b rest : list string) :
  a <> [] -> b <> [] -> join LF a = join LF b ->
  join LF (a ++ rest) = join LF (b ++ rest).
Proof.
  intros Ha Hb E. destruct rest as [|r rest].
  - now rewrite !app_nil_r.
  - rewrite !join_app by (assumption || discriminate). now rewrite E.
Qed.

Lemma walk_plain messages : forall result,
  allPlain result -> allPlain messages ->
  allPlain (fold_left visit messages result)
  /\ join LF (map textOf (fold_left visit messages result))
     = join LF (map textOf (result ++ messages)).
Proof.
  induction messages as [|m messages IH]; intros result Hres Hmsgs; simpl.
  - rewrite app_nil_r. now split.
  - inversion Hmsgs as [|? ? Hm Hrest]; subst.
    destruct (visit_plain result m Hres Hm) as [Hplain Hjoin].
    destruct (IH _ Hplain Hrest) as [H1 H2]. split; [exact H1|].
    rewrite H2. rewrite !map_app.
    change (map textOf (m :: messages))
      with ([textOf m] ++ map textOf messages).
    rewrite app_assoc. apply join_same_tail.
    + intros H. apply map_eq_nil in H. revert H. apply visit_nonempty.
    + destruct (map textOf result); discriminate.
    + rewrite Hjoin, map_app. reflexivity.
Qed.

End NormalizerMore.

(** X1. A transcript whose roles already alternate and that starts with a
    user turn comes back from [ensureAlternatingRoles] unchanged; so
    normalising twice is the same as normalising once. *)
Theorem ensureAlternatingRoles_idempotent :
  forall messages : list MessageParam,
    (alternating (map role messages) ->
     (forall first rest, messages = first :: rest -> role first = user) ->
     ensureAlternatingRoles messages = messages)
    /\ ensureAlternatingRoles (ensureAlternatingRoles messages)
       = ensureAlternatingRoles messages.
Proof.
  assert (forall l, alternating (map role l) ->
                    (forall first rest, l = first :: rest -> role first = user) ->
                    ensureAlternatingRoles l = l) as Hfix.
  { intros l Halt Hfirst. destruct l as [|m l]; [reflexivity|].
    unfold ensureAlternatingRoles.
    rewrite (NormalizerMore.walk_alternating_id (m :: l) [] Halt).
    cbn [app]. now rewrite (Hfirst m l eq_refl). }
  intros messages. split; [apply Hfix|].
  destruct (NormalizerFacts.ensureAlternatingRoles_roles messages)
    as [Halt Hfirst].
  apply Hfix; [exact Halt|].
  intros first rest E. destruct messages as [|m messages];
    [discriminate|].
  destruct Hfirst as [first' [rest' [E' Hrole]]]; [discriminate|].
  congruence.
Qed.

(** X2. The output of [ensureAlternatingRoles] has one turn for every run
    of consecutive turns of one role in the input, in order, with the
    filler user turn in front exactly when the input starts with an
    assistant turn; so it is at most one turn longer than the input. *)
Theorem ensureAlternatingRoles_runs :
  forall messages : list MessageParam,
    map role (ensureAlternatingRoles messages)
    = match roleRuns (map role messages) with
      | assistant :: runs => user :: assistant :: runs
      | runs => runs
      end
    /\ length (ensureAlternatingRoles messages) <= S (length messages).
Proof.
  intros messages.
  assert (map role (ensureAlternatingRoles messages)
          = match roleRuns (map role messages) with
            | assistant :: runs => user :: assistant :: runs
            | runs => runs
            end) as Hroles.
  { destruct messages as [|m messages]; [reflexivity|].
    unfold ensureAlternatingRoles.
    pose proof (NormalizerMore.walk_roles_start (m :: messages)) as H.
    destruct (fold_left visit (m :: messages) []) as [|first rest].
    - rewrite <- H. reflexivity.
    - rewrite <- H. destruct (role first) eqn:E; cbn [map]; rewrite E;
        reflexivity. }
  split; [exact Hroles|].
  rewrite <- (length_map role), Hroles.
  assert (forall r roles, length (skipRun r roles) <= length roles) as Hskip.
  { intros r roles. revert r.
    induction roles as [|a roles IH]; intros r; simpl; [lia|].
    destruct (role_eqb a r); simpl.
    - specialize (IH r). lia.
    - specialize (IH a). lia. }
  rewrite <- (length_map role messages).
  destruct (map role messages) as [|a roles]; [simpl; lia|].
  cbn [roleRuns]. specialize (Hskip a roles).
  destruct a; simpl; lia.
Qed.

(** X3. On a transcript of plain-text turns nothing is lost: the output is
    plain text too and, the filler turn apart, its texts joined with line
    feeds are the texts of the input joined with line feeds. *)
Theorem ensureAlternatingRoles_keeps_text :
  forall messages : list MessageParam,
    allPlain messages ->
    exists body,
      (ensureAlternatingRoles messages = body
       \/ ensureAlternatingRoles messages = CONVERSATION_START :: body)
      /\ allPlain body
      /\ join LF (map textOf body) = join LF (map textOf messages).
Proof.
  intros messages Hplain.
  destruct (NormalizerMore.walk_plain messages [] (Forall_nil _) Hplain)
    as [Hbody Hjoin].
  exists (fold_left visit messages []). split; [|split; assumption].
  destruct messages as [|m messages]; [now left|].
  unfold ensureAlternatingRoles.
  destruct (fold_left visit (m :: messages) []) as [|first rest];
    [now left|].
  destruct (role first); [now left | now right].
Qed.

Lemma ensureAlternatingRoles_keeps_text_witness :
  exists body,
    (ensureAlternatingRoles [Sample.helloTurn; Sample.helloTurn] = body
     \/ ensureAlternatingRoles [Sample.helloTurn; Sample.helloTurn]
        = CONVERSATION_START :: body)
    /\ allPlain body
    /\ join LF (map textOf body)
       = join LF (map textOf [Sample.helloTurn; Sample.helloTurn]).
Proof.
  apply (ensureAlternatingRoles_keeps_text
           [Sample.helloTurn; Sample.helloTurn]).
  repeat constructor.
Defined.

(* ===================================================================== *)
(** ** More on [selectTools] *)
(* ===================================================================== *)

Module SelectorMore.
Import ToolRegistry RegistryFacts SelectorFacts.

Lemma Forall_set {V : Type} (Q : string * V -> Prop) m k v :
  Forall Q m -> Q (k, v) -> Forall Q (JsMap.set k v m).
Proof.
  intros Hm Hkv. apply Forall_forall. intros [k' v'] Hin.
  apply JsMapFacts.set_inv in Hin as [E|Hin].
  - now rewrite E.
  - rewrite Forall_forall in Hm. now apply Hm.
Qed.

(** [set] on a key whose entries all hold the value given leaves the
    entries in place and at most adds one at the end. *)
Lemma set_extends {V : Type} (m : JsMap.t V) k v :
  (forall v', In (k, v') m -> v' = v) ->
  exists tail, JsMap.set k v m = m ++ tail.
Proof.
  induction m as [|[k0 v0] m IH]; intros Hsame; simpl.
  - now exists [(k, v)].
  - destruct (String.eqb_spec k0 k) as [->|Hne].
    + exists []. rewrite app_nil_r.
      now rewrite (Hsame v0 (or_introl eq_refl)).
    + destruct IH as [tail ->].
      * intros v' Hin. apply Hsame. now right.
      * now exists tail.
Qed.

Section OverARegistry.
Variable r : ToolRegistry.t.
Hypothesis r_wellKeyed : wellKeyed r.
Variable Q : string * ToolDefinition -> Prop.

Lemma sound_set base sel tool :
  sound r Q base sel -> In tool (getAll r) -> Q (byName tool) ->
  sound r Q base (JsMap.set (name tool) tool sel).
Proof.
  intros [Hnd [Hall [extra Hbase]]] Hin HQ.
  pose proof (getAll_entry r tool r_wellKeyed Hin) as Hentry.
  split; [now apply JsMapFacts.NoDup_keys_set|]. split.
  - apply Forall_set; [exact Hall | now split].
  - destruct (set_extends sel (name tool) tool) as [tail Htail].
    + intros v' Hv'. rewrite Forall_forall in Hall.
      destruct (Hall _ Hv') as [Hr _].
      now apply JsMapFacts.NoDup_keys_functional
        with (m:=r) (k:=name tool); [apply r_wellKeyed | |].
    + exists (extra ++ tail). rewrite Htail, Hbase. now rewrite app_assoc.
Qed.

Lemma sound_seed tools : forall base sel,
  sound r Q base sel ->
  (forall tool, In tool tools -> In tool (getAll r) /\ Q (byName tool)) ->
  sound r Q base (fold_left (fun s tool => JsMap.set (name tool) tool s) tools sel).
Proof.
  induction tools as [|a tools IH]; intros base sel Hsel Htools; simpl.
  - exact Hsel.
  - apply IH.
    + apply sound_set; [exact Hsel | |]; apply Htools; now left.
    + intros tool Hin. apply Htools. now right.
Qed.

Lemma sound_addWhileRoom tools : forall base sel,
  sound r Q base sel ->
  (forall tool, In tool tools -> In tool (getAll r) /\ Q (byName tool)) ->
  sound r Q base (addWhileRoom tools sel).
Proof.
  induction tools as [|a tools IH]; intros base sel Hsel Htools;
    cbn [addWhileRoom].
  - exact Hsel.
  - destruct (Nat.leb MAX_TOOLS (JsMap.size sel)); [exact Hsel|].
    apply IH.
    + apply sound_set; [exact Hsel | |]; apply Htools; now left.
    + intros tool Hin. apply Htools. now right.
Qed.

Lemma sound_hints (H : Type) (lookup : H -> list ToolDefinition) hints :
  (forall h tool, In h hints -> In tool (lookup h) ->
                  In tool (getAll r) /\ Q (byName tool)) ->
  forall base sel,
    sound r Q base sel ->
    sound r Q base (fold_left (fun s h => addWhileRoom (lookup h) s) hints sel).
Proof.
  induction hints as [|h hints IH]; intros Hlookup base sel Hsel;
    cbn [fold_left].
  - exact Hsel.
  - apply IH.
    + intros h' tool Hh Ht. apply (Hlookup h' tool); [now right | exact Ht].
    + apply sound_addWhileRoom; [exact Hsel|].
      intros tool Ht. apply (Hlookup h tool); [now left | exact Ht].
Qed.

End OverARegistry.

Section BelowTheCap.
Variable r : ToolRegistry.t.
Hypothesis r_wellKeyed : wellKeyed r.

Lemma addWhileRoom_size_ge tools : forall sel,
  JsMap.size sel <= JsMap.size (addWhileRoom tools sel).
Proof.
  induction tools as [|a tools IH]; intros sel; cbn [addWhileRoom];
    [lia|].
  destruct (Nat.leb MAX_TOOLS (JsMap.size sel)); [lia|].
  pose proof (JsMapFacts.size_set_ge sel (name a) a).
  specialize (IH (JsMap.set (name a) a sel)). lia.
Qed.

Lemma hints_size_ge (H : Type) (lookup : H -> list ToolDefinition) hints :
  forall sel,
    JsMap.size sel
    <= JsMap.size (fold_left (fun s h => addWhileRoom (lookup h) s) hints sel).
Proof.
  induction hints as [|h hints IH]; intros sel; cbn [fold_left]; [lia|].
  pose proof (addWhileRoom_size_ge (lookup h) sel).
  specialize (IH (addWhileRoom (lookup h) sel)). lia.
Qed.

(** While the map is not full, the inner loop adds every tool. *)
Lemma addWhileRoom_all tools : forall sel,
  fromRegistry r sel -> incl tools (getAll r) ->
  JsMap.size (addWhileRoom tools sel) < MAX_TOOLS ->
  forall tool, In tool tools -> In (byName tool) (addWhileRoom tools sel).
Proof.
  induction tools as [|a tools IH]; intros sel Hsel Hincl Hroom tool Hin;
    cbn [addWhileRoom] in *.
  - destruct Hin.
  - destruct (Nat.leb_spec MAX_TOOLS (JsMap.size sel)) as [Hfull|_];
      [lia|].
    assert (In a (getAll r)) as Ha by (apply Hincl; now left).
    assert (incl tools (getAll r)) as Hincl'
        by (intros x Hx; apply Hincl; now right).
    pose proof (set_fromRegistry r r_wellKeyed sel a Hsel Ha) as Hsel'.
    destruct Hin as [<-|Hin].
    + destruct (addWhileRoom_spec r r_wellKeyed tools _ Hsel' Hincl')
        as [_ [Hkeeps _]].
      apply Hkeeps. apply JsMapFacts.set_same.
    + now apply IH.
Qed.

Lemma hints_all (H : Type) (lookup : H -> list ToolDefinition) hints :
  (forall h, incl (lookup h) (getAll r)) ->
  forall sel,
    fromRegistry r sel ->
    JsMap.size (fold_left (fun s h => addWhileRoom (lookup h) s) hints sel)
    < MAX_TOOLS ->
    forall h tool, In h hints -> In tool (lookup h) ->
      In (byName tool)
         (fold_left (fun s h => addWhileRoom (lookup h) s) hints sel).
Proof.
  intros Hlookup. induction hints as [|h0 hints IH];
    intros sel Hsel Hroom h tool Hh Htool; cbn [fold_left] in *.
  - destruct Hh.
  - destruct (addWhileRoom_spec r r_wellKeyed (lookup h0) sel Hsel
                (Hlookup h0)) as [Hsel1 _].
    destruct Hh as [<-|Hh].
    + destruct (hints_spec r r_wellKeyed H lookup hints Hlookup _ Hsel1)
        as [_ [Hkeeps _]].
      apply Hkeeps. apply addWhileRoom_all; try assumption.
      * apply Hlookup.
      * pose proof (hints_size_ge H lookup hints
                      (addWhileRoom (lookup h0) sel)). lia.
    + exact (IH _ Hsel1 Hroom h tool Hh Htool).
Qed.

End BelowTheCap.
End SelectorMore.

(** X4. Whatever tools were registered and whatever the message, the tools
    [selectTools] returns have pairwise different names, each of them is a
    tool of the registry, and each is a core tool or a tool of a platform
    or category that [detectToolHints] found in the message. *)
Theorem selectTools_sound :
  forall (detectToolHints : string -> ToolHints)
         (defs : list ToolDefinition) (messageText : string),
    let registry := ToolRegistry.of_list defs in
    let selected := selectTools detectToolHints registry messageText in
    NoDup (map name selected)
    /\ forall tool,
         In tool selected ->
         In tool (ToolRegistry.getAll registry)
         /\ (isCore tool || hinted (detectToolHints messageText) tool = true).
Proof.
  intros detectToolHints defs messageText registry selected.
  pose proof (RegistryFacts.of_list_wellKeyed defs) as Hwk.
  fold registry in Hwk.
  set (hints := detectToolHints messageText).
  set (Q := fun e : string * ToolDefinition =>
              (isCore (snd e) || hinted hints (snd e)) = true).
  assert (sound registry Q [] []) as H0.
  { split; [constructor|]. split; [constructor | now exists []]. }
  assert (sound registry Q []
            (fold_left (fun sel tool => JsMap.set (name tool) tool sel)
                       (ToolRegistry.getCoreTools registry) JsMap.empty))
    as H1.
  { apply SelectorMore.sound_seed; [exact Hwk | exact H0 |].
    intros tool Hin. apply filter_In in Hin as [Hin Hcore].
    split; [exact Hin|]. unfold Q. simpl. now rewrite Hcore. }
  assert (forall p tool,
             In p (platforms hints) ->
             In tool (ToolRegistry.searchByPlatform registry p) ->
             In tool (ToolRegistry.getAll registry)
             /\ Q (ToolRegistry.byName tool)) as HP.
  { intros p tool Hp Hin. apply filter_In in Hin as [Hall Hon].
    split; [exact Hall|]. unfold Q, hinted, ToolRegistry.byName.
    cbn [snd]. apply orb_true_iff. right. apply orb_true_iff. left.
    apply existsb_exists. exists p. now split. }
  assert (forall c tool,
             In c (categories hints) ->
             In tool (ToolRegistry.searchByCategory registry c) ->
             In tool (ToolRegistry.getAll registry)
             /\ Q (ToolRegistry.byName tool)) as HC.
  { intros c tool Hc Hin. apply filter_In in Hin as [Hall Hon].
    split; [exact Hall|]. unfold Q, hinted, ToolRegistry.byName.
    cbn [snd]. apply orb_true_iff. right. apply orb_true_iff. right.
    apply existsb_exists. exists c. now split. }
  pose proof (SelectorMore.sound_hints registry Hwk Q Platform
                (ToolRegistry.searchByPlatform registry) (platforms hints)
                HP _ _ H1) as H2.
  pose proof (SelectorMore.sound_hints registry Hwk Q Category
                (ToolRegistry.searchByCategory registry) (categories hints)
                HC _ _ H2) as H3.
  match type of H3 with
  | sound _ _ _ ?m => set (final := m) in *
  end.
  destruct H3 as [Hnd [Hall _]].
  assert (forall k tool, In (k, tool) final -> name tool = k) as Hname.
  { intros k tool Hin. rewrite Forall_forall in Hall.
    destruct (Hall _ Hin) as [Hr _]. now apply (proj2 Hwk). }
  split.
  - change selected with (JsMap.values final).
    unfold JsMap.values. rewrite map_map.
    erewrite map_ext_in; [exact Hnd|].
    intros [k tool] Hin. simpl. now apply Hname.
  - intros tool Hin. change selected with (JsMap.values final) in Hin.
    unfold JsMap.values in Hin. apply in_map_iff in Hin as [[k t] [E Hin]].
    simpl in E. subst t. rewrite Forall_forall in Hall.
    destruct (Hall _ Hin) as [Hr HQ]. split; [|exact HQ].
    unfold ToolRegistry.getAll, JsMap.values. apply in_map_iff.
    now exists (k, tool).
Qed.

(** X5. The core tools come first: the list [selectTools] returns begins
    with the core tools of the registry, in registration order, whatever
    the hints add after them. *)
Theorem selectTools_core_first :
  forall (detectToolHints : string -> ToolHints)
         (defs : list ToolDefinition) (messageText : string),
    let registry := ToolRegistry.of_list defs in
    exists added,
      selectTools detectToolHints registry messageText
      = ToolRegistry.getCoreTools registry ++ added.
Proof.
  intros detectToolHints defs messageText registry.
  pose proof (RegistryFacts.of_list_wellKeyed defs) as Hwk.
  fold registry in Hwk.
  set (hints := detectToolHints messageText).
  set (Q := fun _ : string * ToolDefinition => True).
  set (seeded := fold_left (fun sel tool => JsMap.set (name tool) tool sel)
                           (ToolRegistry.getCoreTools registry) JsMap.empty).
  assert (seeded = map ToolRegistry.byName
                       (ToolRegistry.getCoreTools registry)) as Hseeded.
  { unfold seeded. rewrite RegistryFacts.fold_set_fresh; [reflexivity|].
    apply RegistryFacts.NoDup_names_getCoreTools, Hwk. }
  assert (sound registry Q seeded seeded) as H1.
  { split; [|split; [|exists []; now rewrite app_nil_r]].
    - rewrite Hseeded. unfold JsMap.keys. rewrite map_map. simpl.
      apply RegistryFacts.NoDup_names_getCoreTools, Hwk.
    - rewrite Hseeded. apply Forall_forall. intros e Hin.
      apply in_map_iff in Hin as [tool [<- Hin]]. split; [|exact I].
      apply RegistryFacts.getAll_entry; [exact Hwk|].
      now apply filter_In in Hin. }
  assert (forall (p : ToolDefinition -> bool) tool,
             In tool (filter p (ToolRegistry.getAll registry)) ->
             In tool (ToolRegistry.getAll registry)
             /\ Q (ToolRegistry.byName tool)) as Hfilter.
  { intros p tool Hin. apply filter_In in Hin. now split. }
  pose proof (SelectorMore.sound_hints registry Hwk Q Platform
                (ToolRegistry.searchByPlatform registry) (platforms hints)
                (fun p tool _ => Hfilter (onPlatform p) tool) _ _ H1) as H2.
  pose proof (SelectorMore.sound_hints registry Hwk Q Category
                (ToolRegistry.searchByCategory registry) (categories hints)
                (fun c tool _ => Hfilter (inCategory c) tool) _ _ H2) as H3.
  destruct H3 as [_ [_ [extra Hextra]]].
  exists (JsMap.values extra).
  unfold selectTools. fold hints. fold seeded. rewrite Hextra.
  unfold JsMap.values. rewrite map_app, Hseeded, map_map. simpl.
  now rewrite map_id.
Qed.

(** X6. Nothing is left out while there is room: when [selectTools]
    returns fewer than 50 tools, every tool of the registry that is on a
    platform or in a category found in the message is among them. *)
Theorem selectTools_complete_below_cap :
  forall (detectToolHints : string -> ToolHints)
         (defs : list ToolDefinition) (messageText : string),
    let registry := ToolRegistry.of_list defs in
    let selected := selectTools detectToolHints registry messageText in
    length selected < MAX_TOOLS ->
    forall tool,
      In tool (ToolRegistry.getAll registry) ->
      hinted (detectToolHints messageText) tool = true ->
      In tool selected.
Proof.
  intros detectToolHints defs messageText registry selected Hroom tool
         Hin Hhinted.
  pose proof (RegistryFacts.of_list_wellKeyed defs) as Hwk.
  fold registry in Hwk.
  unfold selected, selectTools in *.
  set (hints := detectToolHints messageText) in *.
  destruct (SelectorFacts.seed_spec registry Hwk
              (ToolRegistry.getCoreTools registry) JsMap.empty)
    as [S1 _]; [intros k t [] | apply SelectorFacts.filter_incl |].
  set (seeded := fold_left _ (ToolRegistry.getCoreTools registry) JsMap.empty)
    in *.
  destruct (SelectorFacts.hints_spec registry Hwk Platform
              (ToolRegistry.searchByPlatform registry) (platforms hints)
              (fun p => SelectorFacts.filter_incl registry (onPlatform p))
              seeded S1) as [P1 _].
  set (withPlatforms := fold_left _ (platforms hints) seeded) in *.
  destruct (SelectorFacts.hints_spec registry Hwk Category
              (ToolRegistry.searchByCategory registry) (categories hints)
              (fun c => SelectorFacts.filter_incl registry (inCategory c))
              withPlatforms P1) as [_ [C2 _]].
  set (withCategories := fold_left _ (categories hints) withPlatforms) in *.
  unfold JsMap.values in Hroom. rewrite length_map in Hroom.
  assert (In (ToolRegistry.byName tool) withCategories) as Hsel.
  { unfold hinted in Hhinted. apply orb_true_iff in Hhinted as [Hp|Hc].
    - apply existsb_exists in Hp as [p [Hp Hon]].
      apply C2.
      apply (SelectorMore.hints_all registry Hwk Platform
               (ToolRegistry.searchByPlatform registry) (platforms hints)
               (fun p => SelectorFacts.filter_incl registry (onPlatform p))
               seeded S1) with (h := p).
      + pose proof (SelectorMore.hints_size_ge Category
                      (ToolRegistry.searchByCategory registry)
                      (categories hints) withPlatforms) as Hge.
        fold withCategories in Hge. fold withPlatforms.
        unfold JsMap.size in *. lia.
      + exact Hp.
      + apply filter_In. now split.
    - apply existsb_exists in Hc as [c [Hc Hcat]].
      apply (SelectorMore.hints_all registry Hwk Category
               (ToolRegistry.searchByCategory registry) (categories hints)
               (fun c => SelectorFacts.filter_incl registry (inCategory c))
               withPlatforms P1) with (h := c).
      + exact Hroom.
      + exact Hc.
      + apply filter_In. now split. }
  apply (in_map snd) in Hsel. exact Hsel.
Qed.

Lemma selectTools_complete_below_cap_witness :
  In (nth 0 (defineTools Sample.amazonByName ["tool_search"])
          (Sample.coreTool 0))
     (selectTools Sample.amazonHints
        (ToolRegistry.of_list
           (defineTools Sample.amazonByName ["tool_search"]))
        "search amazon for yoga mat").
Proof.
  apply (selectTools_complete_below_cap Sample.amazonHints
           (defineTools Sample.amazonByName ["tool_search"])
           "search amazon for yoga mat").
  - vm_compute. lia.
  - vm_compute. left. reflexivity.
  - vm_compute. reflexivity.
Defined.

(* ===================================================================== *)
(** ** More on [executeTool] *)
(* ===================================================================== *)

Module ExecutorMore.

(** The calls of [storeResults] are writes to the database. *)
Lemma storeResults_calls database results :
  Forall (fun c => isDbWrite c = true /\ forall p, onAdapter p c = false)
         (callsOf (storeResults database results)).
Proof.
  unfold callsOf.
  induction results as [|r rest IH]; [constructor|].
  cbn [storeResults]. unfold bind.
  destruct (upsertProduct database r) as [[]|e1]; cbn [fst];
    [|repeat constructor].
  destruct (addPrice database r) as [[]|e2]; cbn [fst];
    [|repeat constructor].
  destruct (storeResults database rest) as [calls o]. cbn [fst app] in *.
  repeat (constructor; [now split|]). exact IH.
Qed.

Lemma dbWrites_store database results :
  filter isDbWrite (callsOf (storeResults database results))
  = callsOf (storeResults database results).
Proof.
  pose proof (storeResults_calls database results) as H.
  induction H as [|c calls [Hc _] _ IH]; [reflexivity|].
  cbn [filter]. now rewrite Hc, IH.
Qed.

Lemma onAdapter_store p database results :
  filter (onAdapter p) (callsOf (storeResults database results)) = [].
Proof.
  pose proof (storeResults_calls database results) as H.
  induction H as [|c calls [_ Hc] _ IH]; [reflexivity|].
  cbn [filter]. now rewrite Hc.
Qed.

End ExecutorMore.

(** X7. Each of the four scanner tools checks its own credentials first:
    when they are missing (or falsy) [executeTool] resolves to the error
    payload that names the platform and its setup tool, and makes no call
    at all. *)
Theorem scanner_not_configured :
  forall (platformsApi : Platforms)
         (wrapperCase : string -> Json -> Context -> UserCreds -> Async Json)
         (toolName : string) (scanner : Scanner)
         (input : Json) (context : Context),
    scannerOf toolName = Some scanner ->
    falsy (scan_creds scanner
             (getUserCreds (credentials context) (userId context))) = true ->
    executeTool platformsApi wrapperCase toolName input context
    = ([],
       Resolved
         (JObj [("status", JStr "error");
                ("message",
                 JStr (scan_label scanner
                       ++ " credentials not configured. Use "
                       ++ scan_setup scanner ++ " first."))])).
Proof.
  intros platformsApi wrapperCase toolName scanner input context Hscan Hfalsy.
  rewrite (ExecutorFacts.executeTool_scanner _ _ _ _ _ _ Hscan).
  cbv zeta. rewrite Hfalsy. reflexivity.
Qed.

Lemma scanner_not_configured_witness :
  executeTool Sample.offline Sample.okWrapper "scan_walmart"
    (JObj [("query", JStr "yoga mat")])
    {| registry := agentRegistry Sample.env;
       db := Sample.database;
       credentials := Sample.amazonCredentials;
       userId := "user-1" |}
  = ([],
     Resolved
       (JObj [("status", JStr "error");
              ("message",
               JStr "Walmart credentials not configured. Use setup_walmart_credentials first.")])).
Proof.
  apply (scanner_not_configured Sample.offline Sample.okWrapper
           "scan_walmart"
           {| scan_platform := "walmart"; scan_label := "Walmart";
              scan_setup := "setup_walmart_credentials";
              scan_adapter := createWalmartAdapter;
              scan_creds := walmart |}); reflexivity.
Defined.

(** X8. A scanner tool with credentials makes its adapter and searches
    once, on its own platform. When the search rejects, [executeTool]
    rejects with the same message and nothing is written. When the search
    resolves, [executeTool] resolves to the payload or rejects. If every
    write to the database returns, it resolves, every result is written
    (product, then price) in the order returned, and the payload's count
    is the number of results. If it rejects, a write threw that message:
    the results before it are written, that write is the last call, and
    the results after it are not written. *)
Theorem scanner_stores_what_it_returns :
  forall (platformsApi : Platforms)
         (wrapperCase : string -> Json -> Context -> UserCreds -> Async Json)
         (toolName : string) (scanner : Scanner)
         (input : Json) (context : Context),
    let creds := getUserCreds (credentials context) (userId context) in
    let adapter :=
      scan_adapter scanner platformsApi (scan_creds scanner creds) in
    let attempt :=
      executeTool platformsApi wrapperCase toolName input context in
    scannerOf toolName = Some scanner ->
    falsy (scan_creds scanner creds) = false ->
    filter (onAdapter (scan_platform scanner)) (callsOf attempt)
    = [CreateAdapter (scan_platform scanner);
       AdapterSearch (scan_platform scanner) (searchRequest input)]
    /\ match search adapter (searchRequest input) with
       | Resolved results =>
           let payload :=
             JObj [("status", JStr "ok");
                   ("results", JArr results);
                   ("count", JNum (Z.of_nat (length results)))] in
           (outcomeOf attempt = Resolved payload
            \/ exists message, outcomeOf attempt = Rejected message)
           /\ (Forall (written (db context)) results ->
               outcomeOf attempt = Resolved payload
               /\ filter isDbWrite (callsOf attempt)
                  = flat_map (fun r => [UpsertProduct r; AddPrice r])
                             results)
           /\ (forall message,
                  outcomeOf attempt = Rejected message ->
                  exists before r after,
                    results = before ++ r :: after
                    /\ Forall (written (db context)) before
                    /\ ((upsertProduct (db context) r = Rejected message
                         /\ filter isDbWrite (callsOf attempt)
                            = flat_map
                                (fun r => [UpsertProduct r; AddPrice r])
                                before
                              ++ [UpsertProduct r])
                        \/ (upsertProduct (db context) r = Resolved tt
                            /\ addPrice (db context) r = Rejected message
                            /\ filter isDbWrite (callsOf attempt)
                               = flat_map
                                   (fun r => [UpsertProduct r; AddPrice r])
                                   before
                                 ++ [UpsertProduct r; AddPrice r])))
       | Rejected message =>
           outcomeOf attempt = Rejected message
           /\ filter isDbWrite (callsOf attempt) = []
       end.
Proof.
  intros platformsApi wrapperCase toolName scanner input context creds
         adapter attempt Hscan Hcreds.
  unfold attempt.
  rewrite (ExecutorFacts.executeTool_scans _ _ _ _ _ _ Hscan Hcreds).
  fold creds. rewrite ExecutorFacts.scanWith_spec. fold adapter.
  assert (String.eqb (scan_platform scanner) (scan_platform scanner) = true)
    as Hrefl by apply String.eqb_refl.
  destruct (search adapter (searchRequest input)) as [results|message].
  - pose proof (ExecutorMore.dbWrites_store (db context) results) as Hdb.
    pose proof (ExecutorMore.onAdapter_store (scan_platform scanner)
                  (db context) results) as Had.
    pose proof (ExecutorFacts.storeResults_written (db context) results)
      as Hwritten.
    pose proof (ExecutorFacts.storeResults_rejected (db context) results)
      as Hrejected.
    unfold callsOf, outcomeOf in *.
    destruct (storeResults (db context) results) as [calls o].
    cbn [fst snd] in *.
    cbn [app filter onAdapter isDbWrite]. rewrite Hrefl, Had, Hdb.
    split; [reflexivity|]. split; [|split].
    + destruct o; [now left | right; eauto].
    + intros Hall. specialize (Hwritten Hall).
      inversion Hwritten; subst. split; reflexivity.
    + intros message H. destruct o as [u|e]; [discriminate|].
      inversion H; subst e. exact (Hrejected message eq_refl).
  - unfold callsOf, outcomeOf. cbn [fst snd filter onAdapter isDbWrite].
    rewrite Hrefl. repeat split.
Qed.

Lemma scanner_stores_what_it_returns_witness :
  outcomeOf
    (executeTool SampleStore.stocked Sample.okWrapper "scan_amazon"
       (JObj [("query", JStr "yoga")])
       (SampleStore.contextWith Sample.database))
  = Resolved
      (JObj [("status", JStr "ok");
             ("results", JArr [SampleStore.yogaMat; SampleStore.yogaBlock]);
             ("count", JNum 2)])
  /\ filter isDbWrite
       (callsOf
          (executeTool SampleStore.stocked Sample.okWrapper "scan_amazon"
             (JObj [("query", JStr "yoga")])
             (SampleStore.contextWith Sample.database)))
     = [UpsertProduct SampleStore.yogaMat; AddPrice SampleStore.yogaMat;
        UpsertProduct SampleStore.yogaBlock;
        AddPrice SampleStore.yogaBlock].
Proof.
  refine (proj1 (proj2 (proj2 (scanner_stores_what_it_returns
                                 SampleStore.stocked Sample.okWrapper
                                 "scan_amazon" SampleStore.amazon
                                 (JObj [("query", JStr "yoga")])
                                 (SampleStore.contextWith Sample.database)
                                 eq_refl eq_refl)))
                _).
  repeat constructor.
Defined.

(** With a database that takes the product but not its price, the scan
    rejects after the first result: one product is written, and the
    second result is not reached. *)
Example scan_with_refused_price :
  executeTool SampleStore.stocked Sample.okWrapper "scan_amazon"
    (JObj [("query", JStr "yoga")])
    (SampleStore.contextWith SampleStore.noPrices)
  = ([CreateAdapter "amazon";
      AdapterSearch "amazon" (searchRequest (JObj [("query", JStr "yoga")]));
      UpsertProduct SampleStore.yogaMat; AddPrice SampleStore.yogaMat],
     Rejected "SQLITE_FULL").
Proof. reflexivity. Qed.

(* ===================================================================== *)
(** ** More on the agentic loop *)
(* ===================================================================== *)

Module LoopMore.
Import NormalizerFacts.

Section OneRun.
Variable Session : Type.
Variable env : Environment Session.
Variable session : Session.
Variable selectedTools : list ToolDefinition.



(** A pass that runs to the end of the loop body has appended the
    assistant's answer and a user turn. *)
Lemma pass_Continue s s' :
  pass env session selectedTools s = Continue s' ->
  exists answer results,
    currentMessages s'
    = currentMessages s
        ++ [{| role := assistant; content := blocks answer |};
            {| role := user; content := blocks results |}].
Proof.
  unfold pass.
  destruct (stream env _ _ _) as [response|errMsg].
  - destruct (Nat.eqb _ 0); [discriminate|].
    destruct (runToolCalls env session _) as [ran results].
    destruct (stop_reason response) as [reason|];
      [destruct (String.eqb reason "end_turn" && _); [discriminate|]|];
      intros H; inversion H; subst; cbn [currentMessages]; eauto.
  - destruct (includes errMsg "prompt is too long"
              || includes errMsg "max_tokens"); discriminate.
Qed.

Lemma wellFormed_round turns answer results :
  wellFormed turns ->
  wellFormed (turns ++ [{| role := assistant; content := blocks answer |};
                        {| role := user; content := blocks results |}]).
Proof.
  intros [Halt [[first [rest [E Hfirst]]] Hlast]].
  set (a := {| role := assistant; content := blocks answer |}).
  set (u := {| role := user; content := blocks results |}).
  split; [|split].
  - change [a; u] with ([a] ++ [u]). rewrite app_assoc, !map_app.
    apply alternating_snoc.
    + apply alternating_snoc; [exact Halt|].
      intros y Hy. unfold lastRole in Hlast. rewrite lastOf_map in Hy.
      rewrite Hy in Hlast. inversion Hlast; subst. discriminate.
    + intros y Hy. rewrite <- map_app, lastOf_map, lastOf_snoc in Hy.
      inversion Hy; subst. discriminate.
  - exists first, (rest ++ [a; u]). split; [now rewrite E | exact Hfirst].
  - unfold lastRole. change [a; u] with ([a] ++ [u]).
    now rewrite app_assoc, lastOf_snoc.
Qed.

Lemma afterPasses_wellFormed n : forall s0 s,
  wellFormed (currentMessages s0) ->
  afterPasses env n session selectedTools s0 = Some s ->
  wellFormed (currentMessages s)
  /\ length (currentMessages s) = length (currentMessages s0) + 2 * n.
Proof.
  induction n as [|n IH]; intros s0 s Hwf H; cbn [afterPasses] in H.
  - inversion H; subst. split; [exact Hwf | lia].
  - destruct (Nat.ltb (iterations s0) MAX_ITERATIONS); [|discriminate].
    destruct (pass env session selectedTools s0) as [s1|s1] eqn:Epass;
      [|discriminate].
    destruct (pass_Continue s0 s1 Epass) as [answer [results Hmsgs]].
    destruct (IH s1 s) as [H1 H2]; [|exact H|].
    + rewrite Hmsgs. now apply wellFormed_round.
    + split; [exact H1|]. rewrite H2, Hmsgs, length_app. simpl. lia.
Qed.

(** A loop that is entered makes at least one pass. *)
Lemma while_progress fuel s s' :
  iterations s < MAX_ITERATIONS ->
  MAX_ITERATIONS - iterations s <= fuel ->
  while env fuel session selectedTools s = Some s' ->
  iterations s < iterations s'.
Proof.
  intros Hlt Hfuel Hw. destruct fuel as [|fuel]; [lia|].
  assert (while env (S fuel) session selectedTools s
          = match pass env session selectedTools s with
            | Break s1 => Some s1
            | Continue s1 => while env fuel session selectedTools s1
            end) as Hstep.
  { cbn [while]. apply Nat.ltb_lt in Hlt. now rewrite Hlt. }
  rewrite Hstep in Hw.
  destruct (LoopFacts.pass_counts Session env session selectedTools s)
    as [Hit _].
  destruct (pass env session selectedTools s) as [s1|s1];
    cbn [stateOf] in Hit.
  - destruct (LoopFacts.while_ends Session env session selectedTools
                fuel s1) as [s3 [Hw3 [Hge _]]]; [lia|].
    rewrite Hw in Hw3. inversion Hw3; subst. lia.
  - inversion Hw; subst. lia.
Qed.

End OneRun.

Lemma lastOf_skipRun roles : forall r,
  lastOf (r :: skipRun r roles) = lastOf (r :: roles).
Proof.
  induction roles as [|a roles IH]; intros r; [reflexivity|].
  cbn [skipRun]. destruct (role_eqb a r) eqn:E.
  - apply role_eqb_eq in E. subst a. rewrite IH.
    destruct roles; reflexivity.
  - change (lastOf (r :: a :: skipRun a roles))
      with (lastOf (a :: skipRun a roles)).
    now rewrite IH.
Qed.

(** Normalising keeps the role of the last turn. *)
Lemma lastRole_ensureAlternatingRoles messages :
  lastRole (ensureAlternatingRoles messages) = lastRole messages.
Proof.
  unfold lastRole. rewrite <- !lastOf_map.
  destruct messages as [|m messages]; [reflexivity|].
  unfold ensureAlternatingRoles.
  pose proof (NormalizerMore.walk_roles_start (m :: messages)) as Hroles.
  destruct (fold_left visit (m :: messages) []) as [|first rest].
  - discriminate.
  - assert (lastOf (map role (first :: rest)) = lastOf (map role (m :: messages)))
      as Hlast.
    { rewrite Hroles. cbn [map roleRuns]. apply lastOf_skipRun. }
    destruct (role first); [exact Hlast|].
    rewrite <- Hlast. reflexivity.
Qed.

End LoopMore.


(** X10. When the history of the session ends with a user turn, every
    transcript the loop sends to the model is well formed: its roles
    alternate, it starts and ends with a user turn, and after [n] tool
    rounds it is [2 * n] turns longer than the normalised history. *)
Theorem loop_transcripts_alternate :
  forall (Session : Type) (env : Environment Session) (session : Session)
         (selectedTools : list ToolDefinition) (n : nat) (s : LoopState),
    lastRole (getHistory env session) = Some user ->
    afterPasses env n session selectedTools (loopStart env session)
    = Some s ->
    alternating (map role (currentMessages s))
    /\ (exists first rest,
           currentMessages s = first :: rest /\ role first = user)
    /\ lastRole (currentMessages s) = Some user
    /\ length (currentMessages s)
       = length (ensureAlternatingRoles (apiMessagesOf env session)) + 2 * n.
Proof.
  intros Session env session selectedTools n s Hlast Hpasses.
  assert (apiMessagesOf env session <> []
          /\ lastRole (apiMessagesOf env session) = Some user) as [Hne Hlast'].
  { unfold apiMessagesOf.
    destruct (getHistory env session) as [|h hs] eqn:Eh; [discriminate|].
    split; [intros H; apply app_eq_nil in H as [_ H]; discriminate|].
    unfold lastRole in *.
    set (front := match contextSummary env session with
                  | Some summary => if truthy summary then _ else []
                  | None => []
                  end).
    clearbody front. clear -Hlast.
    induction front as [|x front IH]; [exact Hlast|].
    cbn [app]. rewrite NormalizerMore.lastOf_cons; [exact IH|].
    destruct front; discriminate. }
  assert (wellFormed (currentMessages (loopStart env session)))
    as Hwf.
  { cbn [loopStart currentMessages].
    destruct (NormalizerFacts.ensureAlternatingRoles_roles
                (apiMessagesOf env session)) as [Halt Hfirst].
    split; [exact Halt|]. split; [now apply Hfirst|].
    now rewrite LoopMore.lastRole_ensureAlternatingRoles. }
  destruct (LoopMore.afterPasses_wellFormed Session env session selectedTools
              n _ s Hwf Hpasses) as [[H1 [H2 H3]] H4].
  repeat split; assumption.
Qed.

Lemma loop_transcripts_alternate_witness :
  exists s,
    afterPasses Sample.env 2 [Sample.helloTurn] []
                (loopStart Sample.env [Sample.helloTurn])
    = Some s
    /\ alternating (map role (currentMessages s))
    /\ (exists first rest,
           currentMessages s = first :: rest /\ role first = user)
    /\ lastRole (currentMessages s) = Some user
    /\ length (currentMessages s)
       = length (ensureAlternatingRoles
                   (apiMessagesOf Sample.env [Sample.helloTurn])) + 2 * 2.
Proof.
  eexists. split; [vm_compute; reflexivity|].
  eapply (loop_transcripts_alternate _ Sample.env [Sample.helloTurn] [] 2).
  - reflexivity.
  - vm_compute. reflexivity.
Defined.

(** X11. The maximum-iterations notice is appended exactly when the loop
    made ten passes: whenever the loop ran it called the model between one
    and ten times, and the text put out is [finalText] followed by the
    notice if the tenth call was made, [finalText] alone otherwise. *)
Theorem notice_exactly_after_ten_calls :
  forall (Session : Type) (env : Environment Session)
         (message : IncomingMessage) (session : Session)
         (h : Handled Session) (s : LoopState),
    handleMessage env message session = Some h ->
    loop_end h = Some s ->
    1 <= iterations s <= 10
    /\ modelCalls (events s) = iterations s
    /\ text_out h
       = if Nat.eqb (iterations s) 10
         then (finalText s ++ MAX_ITERATIONS_NOTICE)%string
         else finalText s.
Proof.
  intros Session env message session h s Hrun Hend.
  unfold handleMessage, handleMessageWithin in Hrun.
  set (text := trim env (msg_text message)) in *.
  destruct (truthy text); cbn [negb] in Hrun;
    [|inversion Hrun; subst; discriminate].
  set (session1 := addToHistory env session user text) in *.
  set (selectedTools :=
         selectTools (detectToolHints env) (agentRegistry env) text) in *.
  set (start := loopStart env session1) in *.
  destruct (while env MAX_ITERATIONS session1 selectedTools start)
    as [s'|] eqn:Hw; [|discriminate].
  assert (s' = s) as ->.
  { destruct (truthy (afterLoop s')); inversion Hrun; subst;
      cbn [loop_end] in Hend; congruence. }
  assert (text_out h = afterLoop s) as Hout
      by (destruct (truthy (afterLoop s)); inversion Hrun; reflexivity).
  destruct (LoopFacts.while_ends Session env session1 selectedTools
              MAX_ITERATIONS start) as [s2 [Hw2 [_ [Hcap Hcalls]]]];
    [change (iterations start) with 0; lia|].
  rewrite Hw in Hw2. inversion Hw2; subst s2.
  change (iterations start) with 0 in Hcap, Hcalls.
  change (modelCalls (events start)) with 0 in Hcalls.
  assert (1 <= iterations s) as Hone.
  { pose proof (LoopMore.while_progress Session env session1 selectedTools
                  MAX_ITERATIONS start s) as Hp.
    change (iterations start) with 0 in Hp.
    unfold MAX_ITERATIONS in Hp at 1 2 3. specialize (Hp ltac:(lia) ltac:(lia) Hw). lia. }
  assert (iterations s <= 10) as Hten by (apply Hcap; unfold MAX_ITERATIONS; lia).
  split; [lia|]. split; [lia|].
  rewrite Hout. unfold afterLoop.
  destruct (Nat.eqb_spec (iterations s) 10) as [E|E].
  - rewrite E. reflexivity.
  - destruct (Nat.leb_spec MAX_ITERATIONS (iterations s)) as [Hle|_];
      [unfold MAX_ITERATIONS in Hle; lia | reflexivity].
Qed.

Lemma notice_exactly_after_ten_calls_witness :
  exists h s,
    handleMessage
      (Sample.envWith Sample.asksOnceThenAnswers Sample.noCredentials)
      Sample.hello []
    = Some h
    /\ loop_end h = Some s
    /\ 1 <= iterations s <= 10
    /\ modelCalls (events s) = iterations s
    /\ text_out h
       = if Nat.eqb (iterations s) 10
         then (finalText s ++ MAX_ITERATIONS_NOTICE)%string
         else finalText s.
Proof.
  do 2 eexists. split; [vm_compute; reflexivity|].
  split; [reflexivity|].
  eapply (notice_exactly_after_ten_calls _
            (Sample.envWith Sample.asksOnceThenAnswers Sample.noCredentials)
            Sample.hello []).
  - vm_compute. reflexivity.
  - reflexivity.
Defined.

(** X12. What [handleMessage] records and sends. A message that is blank
    after trimming is ignored: no reply, the session untouched, the model
    not called. Otherwise the user's text is recorded first; when the
    text put out is non-empty it is recorded as the assistant's turn and
    handed to [sendMessage], whose result is the reply; when it is empty,
    which happens only if the loop ended before its tenth pass with an
    empty [finalText], nothing more is recorded and the reply is null.
    The tool rounds of the loop are never recorded in the session. *)
Theorem handleMessage_records_and_replies :
  forall (Session : Type) (env : Environment Session)
         (message : IncomingMessage) (session : Session),
    let text := trim env (msg_text message) in
    let session1 := addToHistory env session user text in
    exists h,
      handleMessage env message session = Some h
      /\ (truthy text = false ->
          reply h = None /\ session_after h = session /\ loop_end h = None)
      /\ (truthy text = true ->
          exists s,
            loop_end h = Some s
            /\ (truthy (text_out h) = true ->
                session_after h = addToHistory env session1 assistant (text_out h)
                /\ reply h
                   = sendMessage env
                       {| out_platform := msg_platform message;
                          out_chatId := msg_chatId message;
                          out_text := text_out h;
                          replyToMessageId := msg_id message |})
            /\ (truthy (text_out h) = false ->
                session_after h = session1 /\ reply h = None
                /\ finalText s = "" /\ iterations s < 10)).
Proof.
  intros Session env message session text session1.
  unfold handleMessage, handleMessageWithin. fold text.
  destruct (truthy text) eqn:Htext; cbn [negb].
  - fold session1.
    set (selectedTools :=
           selectTools (detectToolHints env) (agentRegistry env) text).
    destruct (LoopFacts.while_ends Session env session1 selectedTools
                MAX_ITERATIONS (loopStart env session1))
      as [s [Hw _]];
      [change (iterations (loopStart env session1)) with 0; lia|].
    rewrite Hw.
    destruct (truthy (afterLoop s)) eqn:Hout; eexists;
      (split; [reflexivity|]); cbn [reply session_after loop_end text_out];
      (split; [discriminate|]); intros _; exists s;
      (split; [reflexivity|]); rewrite Hout; (split; [|discriminate])
      || (split; [discriminate|]).
    + intros _. split; reflexivity.
    + intros _. split; [reflexivity|]. split; [reflexivity|].
      unfold afterLoop in Hout.
      destruct (Nat.leb_spec MAX_ITERATIONS (iterations s)) as [Hle|Hlt].
      * rewrite LoopFacts.truthy_app_notice in Hout. discriminate.
      * split; [|unfold MAX_ITERATIONS in Hlt; lia].
        destruct (finalText s); [reflexivity | discriminate].
  - eexists. split; [reflexivity|]. cbn [reply session_after loop_end].
    split; [intros _; repeat split | discriminate].
Qed.

(* ===================================================================== *)
(** ** The listing creator *)
(* ===================================================================== *)

Module ListingFacts.

Lemma length_slice0 n s : String.length (slice0 n s) <= n.
Proof.
  unfold slice0. revert s.
  induction n as [|n IH]; intros [|c s]; simpl; try lia.
  specialize (IH s). lia.
Qed.

Lemma slice0_prefix n s : exists rest, s = (slice0 n s ++ rest)%string.
Proof.
  unfold slice0. revert s.
  induction n as [|n IH]; intros [|c s]; simpl.
  - now exists EmptyString.
  - now exists (String c s).
  - now exists EmptyString.
  - destruct (IH s) as [rest E]. exists rest. now rewrite <- E.
Qed.

Lemma slice0_short n s : String.length s <= n -> slice0 n s = s.
Proof.
  unfold slice0. revert s.
  induction n as [|n IH]; intros [|c s]; simpl; intros H;
    try reflexivity; try lia.
  rewrite IH; [reflexivity | lia].
Qed.

Lemma splitOn_cons sep s : exists word words, splitOn sep s = word :: words.
Proof.
  induction s as [|c s [word [words IH]]]; simpl.
  - now exists EmptyString, [].
  - destruct (Ascii.eqb c sep).
    + now exists EmptyString, (splitOn sep s).
    + rewrite IH. now exists (String c word), words.
Qed.

(** [s.split(' ').join(' ')] is [s]. *)
Lemma join_splitOn s : join " " (splitOn SPACE s) = s.
Proof.
  unfold join.
  induction s as [|c s IH]; [reflexivity|].
  cbn [splitOn].
  destruct (Ascii.eqb c SPACE) eqn:E.
  - apply Ascii.eqb_eq in E. subst c.
    destruct (splitOn_cons SPACE s) as [word [words Hs]].
    rewrite Hs in *.
    change (String.concat " " (EmptyString :: word :: words))
      with (String SPACE (String.concat " " (word :: words))).
    now rewrite IH.
  - destruct (splitOn_cons SPACE s) as [word [words Hs]].
    rewrite Hs in *. rewrite <- IH.
    destruct words; reflexivity.
Qed.

Lemma capitalize_short toUpperCase word :
  String.length word <= 3 -> capitalize toUpperCase word = word.
Proof.
  unfold capitalize. destruct word as [|c rest]; [reflexivity|].
  intros H. apply Nat.ltb_ge in H. now rewrite H.
Qed.

Lemma map_capitalize_short toUpperCase words :
  Forall (fun word => String.length word <= 3) words ->
  map (capitalize toUpperCase) words = words.
Proof.
  induction 1 as [|w ws Hw _ IH]; simpl; [reflexivity|].
  now rewrite capitalize_short, IH.
Qed.

(** The listing an eBay publish call of [createListing] carries. *)
Lemma createListing_ebay_listing world platform draft credentials creds
      listing :
  In (PublishOnEbay creds listing)
     (fst (createListing world platform draft credentials)) ->
  ebay_title listing = slice0 80 (draft_title draft)
  /\ ebay_sku listing = ("fa-" ++ slice0 8 (randomUUID world))%string.
Proof.
  unfold createListing.
  destruct (String.eqb platform "ebay").
  - destruct (cred_ebay credentials) as [ebayCreds|]; [|intros []].
    destruct (falsy (Some ebayCreds)); [intros []|].
    destruct (falsy (prop "refreshToken" ebayCreds)); [intros []|].
    match goal with
    | |- context [createAndPublishListing ?w ?c ?l] =>
        destruct (createAndPublishListing w c l) as [[id offer]|msg]
    end; intros [H|[]]; inversion H; subst; split; reflexivity.
  - destruct (String.eqb platform "amazon"); [|intros []].
    destruct (cred_amazon credentials) as [amazonCreds|]; [|intros []].
    match goal with
    | |- context [if ?b then _ else _] => destruct b
    end; [|intros []].
    match goal with
    | |- context [putListingsItem ?w ?a ?b ?c ?l] =>
        destruct (putListingsItem w a b c l) as [issues|msg]
    end.
    + match goal with
      | |- context [if ?b then _ else _] => destruct b
      end; intros [H|[]]; discriminate H.
    + intros [H|[]]; discriminate H.
Qed.

End ListingFacts.

(** X13. [createListing] answers in one of two shapes: a success with a
    listing id and a URL and no error, reached only after exactly one call
    to the selling platform, or a failure with an error text and neither
    id nor URL, after at most one call. *)
Theorem createListing_result_shape :
  forall (world : ListingWorld) (platform : Platform)
         (draft : ListingDraft) (credentials : ListingCredentials),
    let answer := createListing world platform draft credentials in
    ((exists id link, snd answer = listed id link)
     /\ length (fst answer) = 1)
    \/ ((exists why, snd answer = notListed why)
        /\ length (fst answer) <= 1).
Proof.
  intros world platform draft credentials. cbv zeta.
  unfold createListing.
  destruct (String.eqb platform "ebay").
  - destruct (cred_ebay credentials) as [ebayCreds|];
      [|right; split; [eexists; reflexivity | simpl; lia]].
    destruct (falsy (Some ebayCreds));
      [right; split; [eexists; reflexivity | simpl; lia]|].
    destruct (falsy (prop "refreshToken" ebayCreds));
      [right; split; [eexists; reflexivity | simpl; lia]|].
    match goal with
    | |- context [createAndPublishListing ?w ?c ?l] =>
        destruct (createAndPublishListing w c l) as [[id offer]|msg]
    end.
    + left. split; [do 2 eexists; reflexivity | reflexivity].
    + right. split; [eexists; reflexivity | simpl; lia].
  - destruct (String.eqb platform "amazon");
      [|right; split; [eexists; reflexivity | simpl; lia]].
    destruct (cred_amazon credentials) as [amazonCreds|];
      [|right; split; [eexists; reflexivity | simpl; lia]].
    match goal with
    | |- context [if ?b then _ else _] => destruct b
    end; [|right; split; [eexists; reflexivity | simpl; lia]].
    match goal with
    | |- context [putListingsItem ?w ?a ?b ?c ?l] =>
        destruct (putListingsItem w a b c l) as [issues|msg]
    end.
    + match goal with
      | |- context [if ?b then _ else _] => destruct b
      end.
      * right. split; [eexists; reflexivity | simpl; lia].
      * left. split; [do 2 eexists; reflexivity | reflexivity].
    + right. split; [eexists; reflexivity | simpl; lia].
Qed.

(** X14. [createListing] calls a selling platform only for that platform
    and only with its credentials: eBay's publish call needs the platform
    ['ebay'] and credentials with a truthy refresh token, Amazon's put call
    the platform ['amazon'] and credentials with a truthy refresh token,
    client id and client secret. *)
Theorem createListing_calls_need_credentials :
  forall (world : ListingWorld) (platform : Platform)
         (draft : ListingDraft) (credentials : ListingCredentials)
         (call : ListingCall),
    In call (fst (createListing world platform draft credentials)) ->
    match call with
    | PublishOnEbay creds _ =>
        platform = "ebay"
        /\ cred_ebay credentials = Some creds
        /\ falsy (prop "refreshToken" creds) = false
    | PutOnAmazon _ =>
        platform = "amazon"
        /\ exists creds,
            cred_amazon credentials = Some creds
            /\ falsy (prop "spRefreshToken" creds) = false
            /\ falsy (prop "spClientId" creds) = false
            /\ falsy (prop "spClientSecret" creds) = false
    end.
Proof.
  intros world platform draft credentials call.
  unfold createListing.
  destruct (String.eqb platform "ebay") eqn:Hebay.
  - apply String.eqb_eq in Hebay.
    destruct (cred_ebay credentials) as [ebayCreds|]; [|intros []].
    destruct (falsy (Some ebayCreds)); [intros []|].
    destruct (falsy (prop "refreshToken" ebayCreds)) eqn:Htoken;
      [intros []|].
    match goal with
    | |- context [createAndPublishListing ?w ?c ?l] =>
        destruct (createAndPublishListing w c l) as [[id offer]|msg]
    end; intros [<-|[]]; auto.
  - destruct (String.eqb platform "amazon") eqn:Hamazon; [|intros []].
    apply String.eqb_eq in Hamazon.
    destruct (cred_amazon credentials) as [amazonCreds|]; [|intros []].
    unfold present.
    destruct (falsy (prop "spRefreshToken" amazonCreds)) eqn:H1;
      [intros []|].
    destruct (falsy (prop "spClientId" amazonCreds)) eqn:H2;
      [intros []|].
    destruct (falsy (prop "spClientSecret" amazonCreds)) eqn:H3;
      [intros []|].
    cbn [negb andb].
    match goal with
    | |- context [putListingsItem ?w ?a ?b ?c ?l] =>
        destruct (putListingsItem w a b c l) as [issues|msg]
    end.
    + match goal with
      | |- context [if ?b then _ else _] => destruct b
      end; intros [<-|[]]; split; auto; exists amazonCreds; auto.
    + intros [<-|[]]; split; auto; exists amazonCreds; auto.
Qed.

Lemma createListing_calls_need_credentials_witness :
  In (PublishOnEbay SampleShop.ebayCredentials SampleShop.ebayListing)
     (fst (createListing SampleShop.world "ebay" SampleShop.draft
             SampleShop.bothCredentials))
  /\ falsy (prop "refreshToken" SampleShop.ebayCredentials) = false.
Proof.
  assert (H : In (PublishOnEbay SampleShop.ebayCredentials
                    SampleShop.ebayListing)
                 (fst (createListing SampleShop.world "ebay"
                         SampleShop.draft SampleShop.bothCredentials)))
    by (vm_compute; left; reflexivity).
  split; [exact H|].
  exact (proj2 (proj2 (createListing_calls_need_credentials _ _ _ _ _ H))).
Defined.

(** X15. What [createListing] submits to eBay respects eBay's limits
    whatever the draft: the title is the draft's title cut to at most 80
    characters (the draft's title itself when that has at most 80), and
    the SKU is ["fa-"] followed by at most 8 characters. *)
Theorem createListing_ebay_limits :
  forall (world : ListingWorld) (platform : Platform)
         (draft : ListingDraft) (credentials : ListingCredentials)
         (creds : Json) (listing : EbayListing),
    In (PublishOnEbay creds listing)
       (fst (createListing world platform draft credentials)) ->
    String.length (ebay_title listing) <= 80
    /\ (exists rest,
           draft_title draft = (ebay_title listing ++ rest)%string)
    /\ (String.length (draft_title draft) <= 80 ->
        ebay_title listing = draft_title draft)
    /\ (exists rest,
           ebay_sku listing = ("fa-" ++ rest)%string
           /\ String.length rest <= 8).
Proof.
  intros world platform draft credentials creds listing Hcall.
  destruct (ListingFacts.createListing_ebay_listing
              world platform draft credentials creds listing Hcall)
    as [Htitle Hsku].
  rewrite Htitle, Hsku.
  split; [apply ListingFacts.length_slice0|].
  split; [apply ListingFacts.slice0_prefix|].
  split; [apply ListingFacts.slice0_short|].
  exists (slice0 8 (randomUUID world)).
  split; [reflexivity | apply ListingFacts.length_slice0].
Qed.

Lemma createListing_ebay_limits_witness :
  In (PublishOnEbay SampleShop.ebayCredentials SampleShop.ebayListing)
     (fst (createListing SampleShop.world "ebay" SampleShop.draft
             SampleShop.bothCredentials))
  /\ String.length (ebay_title SampleShop.ebayListing) <= 80.
Proof.
  assert (H : In (PublishOnEbay SampleShop.ebayCredentials
                    SampleShop.ebayListing)
                 (fst (createListing SampleShop.world "ebay"
                         SampleShop.draft SampleShop.bothCredentials)))
    by (vm_compute; left; reflexivity).
  split; [exact H|].
  exact (proj1 (createListing_ebay_limits _ _ _ _ _ _ H)).
Defined.

(** X16. With full SP-API credentials and an answer from Amazon,
    [createListing] succeeds exactly when no issue of the answer has
    severity ["ERROR"]: warnings do not fail the listing, and a missing
    issue list counts as none. On success the listing id is the SKU that
    was submitted. *)
Theorem createListing_amazon_issues :
  forall (world : ListingWorld) (draft : ListingDraft)
         (credentials : ListingCredentials) (creds : Json)
         (issues : option (list Issue)),
    cred_amazon credentials = Some creds ->
    falsy (prop "spRefreshToken" creds) = false ->
    falsy (prop "spClientId" creds) = false ->
    falsy (prop "spClientSecret" creds) = false ->
    (forall listing,
        putListingsItem world (prop "spClientId" creds)
          (prop "spClientSecret" creds) (prop "spRefreshToken" creds)
          listing = Resolved issues) ->
    let answer := createListing world "amazon" draft credentials in
    success (snd answer)
    = forallb (fun issue => negb (String.eqb (severity issue) "ERROR"))
              (match issues with Some found => found | None => [] end)
    /\ (success (snd answer) = true ->
        exists listing,
          fst answer = [PutOnAmazon listing]
          /\ listingId (snd answer) = Some (amazon_sku listing)).
Proof.
  intros world draft credentials creds issues Hcreds H1 H2 H3 Hput.
  cbv zeta. unfold createListing.
  change (String.eqb "amazon" "ebay") with false.
  change (String.eqb "amazon" "amazon") with true. cbv iota.
  rewrite Hcreds. unfold present. rewrite H1, H2, H3.
  cbn [negb andb]. rewrite Hput.
  set (found := match issues with Some found => found | None => [] end).
  assert (E : forallb (fun issue => negb (String.eqb (severity issue) "ERROR"))
                      found
              = negb (existsb isError found)).
  { clear. induction found as [|i rest IH]; [reflexivity|].
    cbn [forallb existsb]. rewrite IH. unfold isError.
    now destruct (String.eqb (severity i) "ERROR"). }
  rewrite E.
  destruct (existsb isError found); cbn [snd fst success negb].
  - split; [reflexivity | discriminate].
  - split; [reflexivity|]. intros _. eexists. split; reflexivity.
Qed.

Lemma createListing_amazon_issues_witness :
  success (snd (createListing SampleShop.world "amazon" SampleShop.draft
                  SampleShop.bothCredentials))
  = true.
Proof.
  refine (eq_trans
            (proj1 (createListing_amazon_issues
                      SampleShop.world SampleShop.draft
                      SampleShop.bothCredentials SampleShop.sellerCentral
                      (Some [SampleShop.warning])
                      eq_refl eq_refl eq_refl eq_refl
                      (fun _ => eq_refl)))
            _).
  reflexivity.
Defined.

(** X17. Whatever the built-in [toUpperCase] does, [optimizeListing]
    returns a title of at most 80 characters and a description that is
    never empty: the given one, or the default text when that is empty. *)
Theorem optimizeListing_limits :
  forall (toUpperCase : string -> string) (title description : string),
    let optimized := optimizeListing toUpperCase title description in
    String.length (fst optimized) <= 80
    /\ snd optimized <> EmptyString
    /\ (description <> EmptyString -> snd optimized = description).
Proof.
  intros toUpperCase title description. cbv zeta.
  unfold optimizeListing. cbn [fst snd].
  split; [apply ListingFacts.length_slice0|].
  destruct description as [|c rest]; cbn [truthy].
  - split; [discriminate | intros H; now elim H].
  - split; [discriminate | reflexivity].
Qed.

(** X18. [optimizeListing] only cuts a title whose words need no capital:
    when every word between spaces has at most 3 characters or begins
    with a character that [toUpperCase] leaves alone, the optimised title
    is the title's first 80 characters; the spaces, also repeated ones,
    are kept. *)
Theorem optimizeListing_capitalised_title :
  forall (toUpperCase : string -> string) (title description : string),
    Forall (fun word =>
              match word with
              | String c _ =>
                  String.length word <= 3
                  \/ toUpperCase (String c EmptyString)
                     = String c EmptyString
              | EmptyString => True
              end)
           (splitOn SPACE title) ->
    fst (optimizeListing toUpperCase title description) = slice0 80 title.
Proof.
  intros toUpperCase title description Hwords.
  unfold optimizeListing. cbn [fst].
  replace (map (capitalize toUpperCase) (splitOn SPACE title))
    with (splitOn SPACE title).
  - now rewrite ListingFacts.join_splitOn.
  - induction Hwords as [|word words Hword _ IH]; [reflexivity|].
    cbn [map]. rewrite <- IH. f_equal.
    destruct word as [|c rest]; [reflexivity|].
    destruct Hword as [Hshort|Hup].
    + now rewrite ListingFacts.capitalize_short.
    + unfold capitalize.
      destruct (Nat.ltb 3 (String.length (String c rest)));
        [|reflexivity].
      now rewrite Hup.
Qed.

Lemma optimizeListing_capitalised_title_witness :
  fst (optimizeListing SampleShop.toUpperCase "Wireless usb hub for PC" "")
  = "Wireless usb hub for PC".
Proof.
  refine (eq_trans
            (optimizeListing_capitalised_title
               SampleShop.toUpperCase "Wireless usb hub for PC" "" _)
            _).
  - change (splitOn SPACE "Wireless usb hub for PC")
      with ["Wireless"; "usb"; "hub"; "for"; "PC"].
    repeat apply Forall_cons; try apply Forall_nil;
      first [right; reflexivity | left; simpl; lia].
  - reflexivity.
Defined.

(* ===================================================================== *)
(** ** The [bulk_list] case *)
(* ===================================================================== *)

Module BulkFacts.

Lemma filter_OnPlatform p calls :
  (forall call, p (OnPlatform call) = false) ->
  filter p (map OnPlatform calls) = [].
Proof.
  intros Hp. induction calls as [|c rest IH]; [reflexivity|].
  cbn [map filter]. now rewrite Hp.
Qed.

Lemma adds_OnPlatform calls more :
  filter isAddListing (map OnPlatform calls ++ more)
  = filter isAddListing more.
Proof. rewrite filter_app, filter_OnPlatform; [reflexivity | now intros]. Qed.

Lemma updates_OnPlatform calls more :
  filter isStatusUpdate (map OnPlatform calls ++ more)
  = filter isStatusUpdate more.
Proof. rewrite filter_app, filter_OnPlatform; [reflexivity | now intros]. Qed.

(** One pass, when no read throws: one entry for the id, and the counts
    by the end of the pass. *)
Lemma listOne_resolved world creds oppId t calls t' :
  listOne world creds oppId t = (calls, Resolved t') ->
  exists entry e,
    results t' = results t ++ [entry]
    /\ entry_opportunityId entry = oppId
    /\ entry_success entry = reported e
    /\ failed t' = failed t + (if reported e then 0 else 1)
    /\ created t' = created t + adds e
    /\ length (filter isAddListing calls) = adds e
    /\ match e with
       | Stored => length (filter isStatusUpdate calls) = 1
       | NotListed => length (filter isStatusUpdate calls) = 0
       | NotStored =>
           exists row msg,
             addListing world row = Rejected msg
             \/ updateOpportunityStatus world oppId "listed" = Rejected msg
       end.
Proof.
  unfold listOne.
  destruct (queryOpportunities world oppId) as [[|opp rows]|e];
    [| |discriminate].
  { intros H. inversion H; subst; clear H.
    eexists _, NotListed. cbn. repeat split; lia. }
  destruct (getProduct world (product_id opp)) as [product|e];
    [|discriminate].
  match goal with
  | |- context [createListing ?w ?p ?d ?c] =>
      destruct (createListing w p d c) as [listingCalls result]
  end.
  destruct (success result) eqn:Hsuccess.
  - match goal with
    | |- context [addListing world ?row] =>
        set (theRow := row); destruct (addListing world theRow) as [[]|msg] eqn:Hadd
    end.
    + destruct (updateOpportunityStatus world oppId "listed")
        as [[]|msg] eqn:Hupdate;
        intros H; inversion H; subst; clear H.
      * eexists _, Stored.
        rewrite adds_OnPlatform, updates_OnPlatform. cbn.
        repeat split; try lia; try exact Hsuccess.
      * eexists _, NotStored.
        rewrite adds_OnPlatform. cbn.
        repeat split; try lia. exists theRow, msg. now right.
    + intros H. inversion H; subst; clear H.
      eexists _, NotStored.
      rewrite adds_OnPlatform. cbn.
      repeat split; try lia. exists theRow, msg. now left.
  - intros H. inversion H; subst; clear H.
    eexists _, NotListed.
    rewrite <- (app_nil_r (map OnPlatform listingCalls)).
    rewrite adds_OnPlatform, updates_OnPlatform. cbn.
    repeat split; try lia; try exact Hsuccess.
Qed.

Lemma listOne_returns world creds oppId t :
  (exists rows, queryOpportunities world oppId = Resolved rows) ->
  (forall id, exists product, getProduct world id = Resolved product) ->
  exists calls t', listOne world creds oppId t = (calls, Resolved t').
Proof.
  intros [rows Hrows] Hproduct. unfold listOne. rewrite Hrows.
  destruct rows as [|opp rows]; [now eexists _, _|].
  destruct (Hproduct (product_id opp)) as [product ->].
  match goal with
  | |- context [createListing ?w ?p ?d ?c] =>
      destruct (createListing w p d c) as [listingCalls result]
  end.
  destruct (success result).
  - match goal with
    | |- context [addListing world ?row] =>
        destruct (addListing world row) as [[]|msg]
    end; [|now eexists _, _].
    destruct (updateOpportunityStatus world oppId "listed") as [[]|msg];
      now eexists _, _.
  - now eexists _, _.
Qed.

Lemma bulkLoop_returns worldAt creds ids :
  readsReturn worldAt ->
  forall round t,
  exists calls t', bulkLoop worldAt creds round ids t = (calls, Resolved t').
Proof.
  intros Hreads.
  induction ids as [|oppId rest IH]; intros round t; cbn [bulkLoop].
  - now eexists _, _.
  - destruct (listOne_returns (worldAt round) creds oppId t)
      as [calls [t1 ->]].
    + apply (Hreads round oppId).
    + intros id. apply (Hreads round id).
    + destruct (IH (S round) t1) as [calls' [t' ->]]. now eexists _, _.
Qed.

(** The loop, when no read throws: one entry per id in the order of the
    ids, and how each pass ended. *)
Lemma bulkLoop_passes worldAt creds ids :
  forall round t calls t',
    bulkLoop worldAt creds round ids t = (calls, Resolved t') ->
    exists entries ends,
      results t' = results t ++ entries
      /\ map entry_opportunityId entries = ids
      /\ map entry_success entries = map reported ends
      /\ failed t'
         = failed t + length (filter (fun e => negb (reported e)) ends)
      /\ created t' = created t + list_sum (map adds ends)
      /\ length (filter isAddListing calls) = list_sum (map adds ends)
      /\ (~ In NotStored ends ->
          length (filter isStatusUpdate calls) = list_sum (map adds ends))
      /\ (In NotStored ends ->
          exists pass row id msg,
            addListing (worldAt pass) row = Rejected msg
            \/ updateOpportunityStatus (worldAt pass) id "listed"
               = Rejected msg)
      /\ (In Stored ends ->
          exists pass row, addListing (worldAt pass) row = Resolved tt).
Proof.
  induction ids as [|oppId rest IH]; intros round t calls t';
    cbn [bulkLoop].
  - intros H. inversion H; subst. exists [], []. cbn.
    rewrite app_nil_r. repeat split; try lia; intros [].
  - destruct (listOne (worldAt round) creds oppId t)
      as [calls1 [t1|e]] eqn:Hone; [|discriminate].
    destruct (bulkLoop worldAt creds (S round) rest t1)
      as [calls2 o] eqn:Hloop.
    intros H. inversion H; subst; clear H.
    destruct (listOne_resolved _ _ _ _ _ _ Hone)
      as [entry [e [Hres [Hid [Hsucc [Hfailed [Hcreated [Hadds Hend]]]]]]]].
    destruct (IH _ _ _ _ Hloop)
      as [entries [ends [Hres' [Hids [Hrep [Hfailed' [Hcreated'
           [Hadds' [Hupd [Hns Hst]]]]]]]]]].
    exists (entry :: entries), (e :: ends).
    rewrite Hres', Hres, <- app_assoc. cbn [app map filter].
    change (list_sum (adds e :: map adds ends))
      with (adds e + list_sum (map adds ends)).
    rewrite Hid, Hids, Hsucc, Hrep, !filter_app, !length_app.
    split; [reflexivity|]. split; [reflexivity|]. split; [reflexivity|].
    split; [rewrite Hfailed', Hfailed;
            destruct e; cbn [reported negb length]; lia|].
    split; [lia|]. split; [lia|].
    split; [|split].
    + intros Hnot.
      rewrite Hupd by (intros Hin; apply Hnot; now right).
      destruct e; cbn [adds] in *; try lia.
      exfalso. apply Hnot. now left.
    + intros [->|Hin]; [|exact (Hns Hin)].
      destruct Hend as [row [msg Hend]].
      exists round, row, oppId, msg. exact Hend.
    + intros [->|Hin]; [|exact (Hst Hin)].
      clear - Hone Hend. unfold listOne in Hone.
      destruct (queryOpportunities (worldAt round) oppId)
        as [[|opp rows]|e]; [| |discriminate].
      { inversion Hone; subst. cbn in Hend. discriminate. }
      destruct (getProduct (worldAt round) (product_id opp))
        as [product|e]; [|discriminate].
      match type of Hone with
      | context [createListing ?w ?p ?d ?c] =>
          destruct (createListing w p d c) as [listingCalls result]
      end.
      destruct (success result).
      * match type of Hone with
        | context [addListing ?w ?row] =>
            destruct (addListing w row) as [[]|msg] eqn:Hadd
        end; [exists round; eexists; exact Hadd|].
        inversion Hone; subst. rewrite updates_OnPlatform in Hend.
        cbn in Hend. discriminate.
      * inversion Hone; subst.
        rewrite <- (app_nil_r (map OnPlatform listingCalls)) in Hend.
        rewrite updates_OnPlatform in Hend. cbn in Hend. discriminate.
Qed.

(** Counting the passes by how they ended. *)
Lemma ends_count ends :
  length ends + length (filter (fun e => match e with NotStored => true | _ => false end) ends)
  = list_sum (map adds ends)
    + length (filter (fun e => negb (reported e)) ends).
Proof.
  induction ends as [|e rest IH]; [reflexivity|].
  cbn [map filter length].
  change (list_sum (adds e :: map adds rest))
    with (adds e + list_sum (map adds rest)).
  destruct e; cbn [length adds reported negb]; lia.
Qed.

Lemma ends_all_stored_or_not ends :
  ~ In NotStored ends ->
  filter (fun e => match e with NotStored => true | _ => false end) ends
  = []
  /\ list_sum (map adds ends) = length (filter reported ends).
Proof.
  induction ends as [|e rest IH]; [now split|].
  intros Hnot.
  destruct IH as [IH1 IH2]; [intros Hin; apply Hnot; now right|].
  cbn [map filter].
  change (list_sum (adds e :: map adds rest))
    with (adds e + list_sum (map adds rest)).
  destruct e; cbn [adds reported length];
    try (split; [exact IH1 | lia]).
  exfalso. apply Hnot. now left.
Qed.

Lemma ends_none_stored ends :
  ~ In Stored ends -> filter reported ends = [].
Proof.
  induction ends as [|e rest IH]; [reflexivity|].
  intros Hnot. destruct e; cbn [filter reported];
    try (apply IH; intros Hin; apply Hnot; now right).
  exfalso. apply Hnot. now left.
Qed.

Lemma filter_reported entries ends (p : bool -> bool) :
  map entry_success entries = map reported ends ->
  length (filter (fun entry => p (entry_success entry)) entries)
  = length (filter (fun e => p (reported e)) ends).
Proof.
  revert ends.
  induction entries as [|entry rest IH]; intros [|e ends] H;
    try discriminate; [reflexivity|].
  cbn [map] in H. inversion H as [[Hhead Htail]].
  cbn [filter]. rewrite Hhead.
  destruct (p (reported e)); cbn [length]; now rewrite (IH ends Htail).
Qed.

Lemma successes_reported entries ends :
  map entry_success entries = map reported ends ->
  length (successes entries) = length (filter reported ends).
Proof. intros H. exact (filter_reported entries ends (fun b => b) H). Qed.

Lemma failures_reported entries ends :
  map entry_success entries = map reported ends ->
  length (failures entries)
  = length (filter (fun e => negb (reported e)) ends).
Proof. intros H. exact (filter_reported entries ends negb H). Qed.

(** The payload of the case, when no read throws. *)
Lemma bulk_list_passes worldAt creds ids :
  readsReturn worldAt ->
  exists report ends,
    snd (bulk_list worldAt creds ids) = Resolved report
    /\ report_status report = "ok"
    /\ total report = length ids
    /\ length ends = length ids
    /\ map entry_opportunityId (results (tally report)) = ids
    /\ map entry_success (results (tally report)) = map reported ends
    /\ failed (tally report)
       = length (filter (fun e => negb (reported e)) ends)
    /\ created (tally report) = list_sum (map adds ends)
    /\ length (filter isAddListing (fst (bulk_list worldAt creds ids)))
       = list_sum (map adds ends)
    /\ (~ In NotStored ends ->
        length (filter isStatusUpdate (fst (bulk_list worldAt creds ids)))
        = list_sum (map adds ends))
    /\ (In NotStored ends ->
        exists pass row id msg,
          addListing (worldAt pass) row = Rejected msg
          \/ updateOpportunityStatus (worldAt pass) id "listed"
             = Rejected msg)
    /\ (In Stored ends ->
        exists pass row, addListing (worldAt pass) row = Resolved tt).
Proof.
  intros Hreads. unfold bulk_list.
  destruct (bulkLoop_returns worldAt creds ids Hreads 0
              {| created := 0; failed := 0; results := [] |})
    as [calls [t' Hloop]].
  rewrite Hloop. cbn [fst snd].
  destruct (bulkLoop_passes _ _ _ _ _ _ _ Hloop)
    as [entries [ends [Hres [Hids [Hrep [Hfailed [Hcreated
         [Hadds [Hupd [Hns Hst]]]]]]]]]].
  cbn [results failed created app] in *.
  eexists _, ends. split; [reflexivity|]. cbn [report_status total tally].
  rewrite Hres.
  assert (Hlen : length ends = length ids).
  { rewrite <- Hids, length_map.
    rewrite <- (length_map reported), <- Hrep, length_map. reflexivity. }
  repeat split; auto.
Qed.

Lemma ends_reported_le ends :
  length (filter reported ends) <= list_sum (map adds ends).
Proof.
  induction ends as [|e rest IH]; [reflexivity|].
  cbn [map filter].
  change (list_sum (adds e :: map adds rest))
    with (adds e + list_sum (map adds rest)).
  destruct e; cbn [adds reported length]; lia.
Qed.

Lemma createListing_no_credentials world platform draft :
  exists why,
    createListing world platform draft
      {| cred_ebay := None; cred_amazon := None |}
    = ([], notListed why).
Proof.
  unfold createListing. cbn [cred_ebay cred_amazon].
  destruct (String.eqb platform "ebay"); [now eexists|].
  destruct (String.eqb platform "amazon"); now eexists.
Qed.

Lemma listOne_no_credentials world creds oppId t calls o :
  ebay creds = None -> amazon creds = None ->
  listOne world creds oppId t = (calls, o) -> calls = [].
Proof.
  intros Hebay Hamazon. unfold listOne. rewrite Hebay, Hamazon.
  destruct (queryOpportunities world oppId) as [[|opp rows]|e];
    try (intros H; now inversion H).
  destruct (getProduct world (product_id opp)) as [product|e];
    [|intros H; now inversion H].
  match goal with
  | |- context [createListing ?w ?p ?d _] =>
      destruct (createListing_no_credentials w p d) as [why ->]
  end.
  cbn [success notListed map]. intros H. now inversion H.
Qed.

Lemma bulkLoop_no_credentials worldAt creds ids :
  ebay creds = None -> amazon creds = None ->
  forall round t, fst (bulkLoop worldAt creds round ids t) = [].
Proof.
  intros Hebay Hamazon.
  induction ids as [|oppId rest IH]; intros round t; cbn [bulkLoop];
    [reflexivity|].
  destruct (listOne (worldAt round) creds oppId t) as [calls [t1|e]] eqn:Hone;
    rewrite (listOne_no_credentials _ _ _ _ _ _ Hebay Hamazon Hone);
    [|reflexivity].
  specialize (IH (S round) t1).
  destruct (bulkLoop worldAt creds (S round) rest t1) as [calls' o].
  exact IH.
Qed.

End BulkFacts.

(** X19. When the reads of the database return, [bulk_list] answers
    with one entry per opportunity id, in the order of the ids; [total]
    is the number of ids, [failed] the number of entries that report a
    failure, [created] the number of rows given to [db.addListing]; and
    [created + failed] is never below [total]. *)
Theorem bulk_list_reports_every_id :
  forall (worldAt : nat -> BulkWorld) (creds : UserCreds)
         (ids : list string),
    readsReturn worldAt ->
    exists report,
      snd (bulk_list worldAt creds ids) = Resolved report
      /\ report_status report = "ok"
      /\ total report = length ids
      /\ map entry_opportunityId (results (tally report)) = ids
      /\ failed (tally report)
         = length (failures (results (tally report)))
      /\ created (tally report)
         = length (filter isAddListing (fst (bulk_list worldAt creds ids)))
      /\ length (successes (results (tally report)))
         <= created (tally report)
      /\ total report <= created (tally report) + failed (tally report).
Proof.
  intros worldAt creds ids Hreads.
  destruct (BulkFacts.bulk_list_passes worldAt creds ids Hreads)
    as [report [ends [Hsnd [Hstatus [Htotal [Hlen [Hids [Hrep [Hfailed
         [Hcreated [Hadds _]]]]]]]]]]].
  exists report.
  split; [exact Hsnd|]. split; [exact Hstatus|]. split; [exact Htotal|].
  split; [exact Hids|].
  rewrite (BulkFacts.failures_reported _ ends Hrep).
  rewrite (BulkFacts.successes_reported _ ends Hrep).
  split; [exact Hfailed|]. split; [congruence|].
  split.
  - rewrite Hcreated. apply BulkFacts.ends_reported_le.
  - pose proof (BulkFacts.ends_count ends). lia.
Qed.

Lemma bulk_list_reports_every_id_witness :
  readsReturn (fun _ => SampleBulk.shop (Resolved tt))
  /\ exists report,
      snd (bulk_list (fun _ => SampleBulk.shop (Resolved tt))
             SampleBulk.sellerCredentials ["opp-1"; "opp-2"])
      = Resolved report
      /\ map entry_opportunityId (results (tally report))
         = ["opp-1"; "opp-2"].
Proof.
  assert (H : readsReturn (fun _ => SampleBulk.shop (Resolved tt))).
  { intros round id. split; eexists; reflexivity. }
  split; [exact H|].
  destruct (bulk_list_reports_every_id
              (fun _ => SampleBulk.shop (Resolved tt))
              SampleBulk.sellerCredentials ["opp-1"; "opp-2"] H)
    as [report [Hsnd [_ [_ [Hids _]]]]].
  exists report. split; [exact Hsnd | exact Hids].
Defined.

(** X20. When the reads and the writes of the database return, the
    counts of [bulk_list] add up: [created + failed = total], [created]
    is the number of entries that report a success, and each created
    listing has its opportunity marked once. *)
Theorem bulk_list_counts_add_up :
  forall (worldAt : nat -> BulkWorld) (creds : UserCreds)
         (ids : list string),
    readsReturn worldAt ->
    writesReturn worldAt ->
    exists report,
      snd (bulk_list worldAt creds ids) = Resolved report
      /\ created (tally report) + failed (tally report) = total report
      /\ created (tally report)
         = length (successes (results (tally report)))
      /\ length (filter isStatusUpdate
                   (fst (bulk_list worldAt creds ids)))
         = created (tally report).
Proof.
  intros worldAt creds ids Hreads Hwrites.
  destruct (BulkFacts.bulk_list_passes worldAt creds ids Hreads)
    as [report [ends [Hsnd [Hstatus [Htotal [Hlen [Hids [Hrep [Hfailed
         [Hcreated [Hadds [Hupd [Hns _]]]]]]]]]]]]].
  assert (Hnot : ~ In NotStored ends).
  { intros Hin. destruct (Hns Hin) as [pass [row [id [msg [H|H]]]]].
    - rewrite (proj1 (Hwrites pass) row) in H. discriminate.
    - rewrite (proj2 (Hwrites pass) id "listed") in H. discriminate. }
  destruct (BulkFacts.ends_all_stored_or_not ends Hnot) as [Hnone Hsum].
  exists report. split; [exact Hsnd|].
  rewrite (BulkFacts.successes_reported _ ends Hrep).
  pose proof (BulkFacts.ends_count ends) as Hcount.
  rewrite Hnone in Hcount. cbn [length] in Hcount.
  rewrite (Hupd Hnot).
  repeat split; lia.
Qed.

Lemma bulk_list_counts_add_up_witness :
  readsReturn (fun _ => SampleBulk.shop (Resolved tt))
  /\ writesReturn (fun _ => SampleBulk.shop (Resolved tt))
  /\ exists report,
      snd (bulk_list (fun _ => SampleBulk.shop (Resolved tt))
             SampleBulk.sellerCredentials ["opp-1"; "opp-2"])
      = Resolved report
      /\ created (tally report) + failed (tally report) = total report.
Proof.
  assert (H : readsReturn (fun _ => SampleBulk.shop (Resolved tt))).
  { intros round id. split; eexists; reflexivity. }
  assert (H' : writesReturn (fun _ => SampleBulk.shop (Resolved tt))).
  { intros round. split; reflexivity. }
  split; [exact H|]. split; [exact H'|].
  destruct (bulk_list_counts_add_up
              (fun _ => SampleBulk.shop (Resolved tt))
              SampleBulk.sellerCredentials ["opp-1"; "opp-2"] H H')
    as [report [Hsnd [Hsum _]]].
  exists report. split; [exact Hsnd | exact Hsum].
Defined.

(** X21. A listing that was made on the platform but whose row the
    database refuses is counted twice: when [db.addListing] throws in
    every pass, every entry of [bulk_list] reports a failure and
    [failed] is [total], while [created] still counts each listing for
    which [db.addListing] was called. *)
Theorem bulk_list_unstored_listings :
  forall (worldAt : nat -> BulkWorld) (creds : UserCreds)
         (ids : list string),
    readsReturn worldAt ->
    (forall pass row,
        exists msg, addListing (worldAt pass) row = Rejected msg) ->
    exists report,
      snd (bulk_list worldAt creds ids) = Resolved report
      /\ successes (results (tally report)) = []
      /\ failed (tally report) = total report
      /\ created (tally report)
         = length (filter isAddListing (fst (bulk_list worldAt creds ids))).
Proof.
  intros worldAt creds ids Hreads Hrejects.
  destruct (BulkFacts.bulk_list_passes worldAt creds ids Hreads)
    as [report [ends [Hsnd [Hstatus [Htotal [Hlen [Hids [Hrep [Hfailed
         [Hcreated [Hadds [_ [_ Hst]]]]]]]]]]]]].
  assert (Hnot : ~ In Stored ends).
  { intros Hin. destruct (Hst Hin) as [pass [row H]].
    destruct (Hrejects pass row) as [msg H']. congruence. }
  pose proof (BulkFacts.ends_none_stored ends Hnot) as Hnone.
  exists report. split; [exact Hsnd|].
  split; [|split; [|congruence]].
  - apply length_zero_iff_nil.
    rewrite (BulkFacts.successes_reported _ ends Hrep).
    now rewrite Hnone.
  - rewrite Hfailed, Htotal, <- Hlen.
    clear - Hnot. induction ends as [|e rest IH]; [reflexivity|].
    cbn [filter length].
    destruct e; cbn [reported negb length].
    + exfalso. apply Hnot. now left.
    + f_equal. apply IH. intros Hin. apply Hnot. now right.
    + f_equal. apply IH. intros Hin. apply Hnot. now right.
Qed.

Lemma bulk_list_unstored_listings_witness :
  readsReturn (fun _ => SampleBulk.shop (Rejected "database is locked"))
  /\ exists report,
      snd (bulk_list
             (fun _ => SampleBulk.shop (Rejected "database is locked"))
             SampleBulk.sellerCredentials ["opp-1"])
      = Resolved report
      /\ failed (tally report) = total report
      /\ created (tally report) = 1 /\ total report = 1.
Proof.
  assert (H : readsReturn
                (fun _ => SampleBulk.shop (Rejected "database is locked"))).
  { intros round id. split; eexists; reflexivity. }
  split; [exact H|].
  destruct (bulk_list_unstored_listings
              (fun _ => SampleBulk.shop (Rejected "database is locked"))
              SampleBulk.sellerCredentials ["opp-1"] H
              (fun _ _ => ex_intro _ "database is locked" eq_refl))
    as [report [Hsnd [_ [Hfailed _]]]].
  exists report. split; [exact Hsnd|]. split; [exact Hfailed|].
  vm_compute in Hsnd. inversion Hsnd. split; reflexivity.
Defined.

(** X22. Without eBay and Amazon credentials [bulk_list] lists nothing:
    when the reads of the database return, it makes no call to a selling
    platform and no write to the database, [created] is 0 and every
    opportunity is reported as failed. *)
Theorem bulk_list_without_credentials :
  forall (worldAt : nat -> BulkWorld) (creds : UserCreds)
         (ids : list string),
    readsReturn worldAt ->
    ebay creds = None ->
    amazon creds = None ->
    exists report,
      bulk_list worldAt creds ids = ([], Resolved report)
      /\ created (tally report) = 0
      /\ failed (tally report) = length ids
      /\ successes (results (tally report)) = [].
Proof.
  intros worldAt creds ids Hreads Hebay Hamazon.
  destruct (BulkFacts.bulk_list_passes worldAt creds ids Hreads)
    as [report [ends [Hsnd [Hstatus [Htotal [Hlen [Hids [Hrep [Hfailed
         [Hcreated [Hadds _]]]]]]]]]]].
  assert (Hcalls : fst (bulk_list worldAt creds ids) = []).
  { unfold bulk_list.
    pose proof (BulkFacts.bulkLoop_no_credentials worldAt creds ids
                  Hebay Hamazon 0
                  {| created := 0; failed := 0; results := [] |}) as H.
    destruct (bulkLoop worldAt creds 0 ids _) as [calls [t|e]];
      exact H. }
  rewrite Hcalls in Hadds. cbn [filter length] in Hadds.
  exists report.
  split; [rewrite (surjective_pairing (bulk_list worldAt creds ids));
          now rewrite Hcalls, Hsnd|].
  pose proof (BulkFacts.ends_count ends) as Hcount.
  pose proof (BulkFacts.ends_reported_le ends) as Hle.
  assert (Hns : length (filter (fun e => match e with
                                        | NotStored => true
                                        | _ => false
                                        end) ends) = 0).
  { clear - Hadds. induction ends as [|e rest IH]; [reflexivity|].
    cbn [map] in Hadds.
    change (list_sum (adds e :: map adds rest))
      with (adds e + list_sum (map adds rest)) in Hadds.
    destruct e; cbn [adds filter length] in *; lia. }
  split; [lia|]. split; [lia|].
  apply length_zero_iff_nil.
  rewrite (BulkFacts.successes_reported _ ends Hrep). lia.
Qed.

Lemma bulk_list_without_credentials_witness :
  readsReturn (fun _ => SampleBulk.shop (Resolved tt))
  /\ exists report,
      bulk_list (fun _ => SampleBulk.shop (Resolved tt))
        SampleBulk.unconfigured ["opp-1"; "opp-2"]
      = ([], Resolved report)
      /\ failed (tally report) = 2.
Proof.
  assert (H : readsReturn (fun _ => SampleBulk.shop (Resolved tt))).
  { intros round id. split; eexists; reflexivity. }
  split; [exact H|].
  destruct (bulk_list_without_credentials
              (fun _ => SampleBulk.shop (Resolved tt))
              SampleBulk.unconfigured ["opp-1"; "opp-2"] H
              eq_refl eq_refl)
    as [report [Hlist [_ [Hfailed _]]]].
  exists report. split; [exact Hlist | exact Hfailed].
Defined.

(* ===================================================================== *)
(** ** The shipment tracker *)
(* ===================================================================== *)

Module TrackerFacts.

(** [mapCarrierCode] returns one of its eight codes. *)
Lemma mapCarrierCode_range toUpperCase carrier :
  In (mapCarrierCode toUpperCase carrier) CARRIER_CODES.
Proof.
  unfold mapCarrierCode, CARRIER_CODES.
  repeat match goal with
         | |- context [if ?b then _ else _] => destruct b
         end;
    cbn [In]; tauto.
Qed.

(** The fulfillment a call of [updateTrackingOnPlatform] carries. *)
Lemma updateTrackingOnPlatform_calls world platform orderId number carrier
      ebayCredentials :
  fst (updateTrackingOnPlatform world platform orderId number carrier
         ebayCredentials) = []
  \/ exists creds,
      ebayCredentials = Some creds
      /\ platform = "ebay"
      /\ falsy (prop "refreshToken" creds) = false
      /\ ((fst (updateTrackingOnPlatform world platform orderId number
                  carrier ebayCredentials) = [GetOrder orderId]
           /\ snd (updateTrackingOnPlatform world platform orderId number
                     carrier ebayCredentials) = false)
          \/ exists ebayOrder,
              getOrder (createEbayOrdersApi world creds) orderId
              = Resolved (Some ebayOrder)
              /\ let fulfillment :=
                   {| lineItems :=
                        map (fun li =>
                               {| fulfilled_lineItemId := lineItemId li;
                                  fulfilled_quantity := quantity li |})
                            (order_lineItems ebayOrder);
                      shippedDate := toISOString_now world;
                      shippingCarrierCode :=
                        mapCarrierCode (String_toUpperCase world) carrier;
                      trackingNumber := number |} in
                 fst (updateTrackingOnPlatform world platform orderId
                        number carrier ebayCredentials)
                 = [GetOrder orderId;
                    CreateShippingFulfillment orderId fulfillment]
                 /\ (snd (updateTrackingOnPlatform world platform orderId
                           number carrier ebayCredentials) = true
                     <-> exists id,
                         createShippingFulfillment
                           (createEbayOrdersApi world creds) orderId
                           fulfillment = Resolved id)).
Proof.
  unfold updateTrackingOnPlatform.
  destruct ebayCredentials as [creds|]; [|now left].
  destruct (String.eqb platform "ebay") eqn:Hebay; [|now left].
  apply String.eqb_eq in Hebay.
  destruct (falsy (prop "refreshToken" creds)) eqn:Htoken; [now left|].
  cbn [negb andb].
  right. exists creds. repeat split; auto.
  destruct (getOrder (createEbayOrdersApi world creds) orderId)
    as [[ebayOrder|]|e]; [|now left|now left].
  right. exists ebayOrder. split; [reflexivity|]. cbv zeta.
  match goal with
  | |- context [createShippingFulfillment ?api ?id ?f] =>
      destruct (createShippingFulfillment api id f) as [out|e] eqn:Hout
  end; cbn [fst snd]; split; try reflexivity; split.
  - intros _. now exists out.
  - reflexivity.
  - discriminate.
  - intros [id H]. discriminate.
Qed.

Lemma afterAliExpress_calls world number carrier credentials call :
  In call (fst (afterAliExpress world number carrier credentials)) ->
  call = AskEasyPost (orElse (easypostApiKey credentials) "") number carrier
  /\ exists key,
      easypostApiKey credentials = Some key
      /\ truthy key = true /\ truthy number = true.
Proof.
  unfold afterAliExpress.
  destruct (easypostApiKey credentials) as [key|]; [|intros []].
  destruct (truthy key) eqn:Hkey; [|intros []].
  destruct (truthy number) eqn:Hnumber; [|intros []].
  cbn [andb orElse].
  destruct (createTracker world key number carrier);
    intros [<-|[]]; split; try reflexivity; now exists key.
Qed.

End TrackerFacts.

(** X23. [mapCarrierCode] maps each of its own codes to itself, so
    mapping twice is mapping once, given that [toUpperCase] leaves the
    eight codes as they are (they are in capitals). *)
Theorem mapCarrierCode_idempotent :
  forall (toUpperCase : string -> string) (carrier : string),
    (forall code, In code CARRIER_CODES -> toUpperCase code = code) ->
    mapCarrierCode toUpperCase (mapCarrierCode toUpperCase carrier)
    = mapCarrierCode toUpperCase carrier.
Proof.
  intros toUpperCase carrier Hcodes.
  assert (Hfix : forall code,
             In code CARRIER_CODES ->
             mapCarrierCode toUpperCase code = code).
  { intros code Hin. unfold mapCarrierCode. rewrite (Hcodes code Hin).
    unfold CARRIER_CODES in Hin. cbn [In] in Hin.
    repeat (destruct Hin as [<-|Hin]; [reflexivity|]).
    destruct Hin. }
  apply Hfix. apply TrackerFacts.mapCarrierCode_range.
Qed.

Lemma mapCarrierCode_idempotent_witness :
  mapCarrierCode SampleShop.toUpperCase
    (mapCarrierCode SampleShop.toUpperCase "China Post ePacket")
  = mapCarrierCode SampleShop.toUpperCase "China Post ePacket".
Proof.
  apply (mapCarrierCode_idempotent SampleShop.toUpperCase
           "China Post ePacket").
  intros code Hin. unfold CARRIER_CODES in Hin. cbn [In] in Hin.
  repeat (destruct Hin as [<-|Hin]; [reflexivity|]).
  destruct Hin.
Defined.

(** X24. A fulfillment that [updateTrackingOnPlatform] sends is for the
    platform ['ebay'], under credentials with a refresh token, for an
    order that eBay returned: it carries that order's line items with
    their quantities in the order's sequence, the given tracking number,
    and a carrier code among the eight codes of [mapCarrierCode]. *)
Theorem updateTrackingOnPlatform_sends_order_items :
  forall (world : TrackerWorld) (platform orderId number carrier : string)
         (ebayCredentials : option Json) (id : string)
         (fulfillment : EbayShippingFulfillment),
    In (CreateShippingFulfillment id fulfillment)
       (fst (updateTrackingOnPlatform world platform orderId number carrier
               ebayCredentials)) ->
    platform = "ebay" /\ id = orderId
    /\ trackingNumber fulfillment = number
    /\ In (shippingCarrierCode fulfillment) CARRIER_CODES
    /\ exists creds ebayOrder,
        ebayCredentials = Some creds
        /\ falsy (prop "refreshToken" creds) = false
        /\ getOrder (createEbayOrdersApi world creds) orderId
           = Resolved (Some ebayOrder)
        /\ map fulfilled_lineItemId (lineItems fulfillment)
           = map lineItemId (order_lineItems ebayOrder)
        /\ map fulfilled_quantity (lineItems fulfillment)
           = map quantity (order_lineItems ebayOrder).
Proof.
  intros world platform orderId number carrier ebayCredentials id
         fulfillment.
  destruct (TrackerFacts.updateTrackingOnPlatform_calls
              world platform orderId number carrier ebayCredentials)
    as [->|[creds [Hcreds [Hebay [Htoken
         [[-> _]|[ebayOrder [Horder [-> _]]]]]]]]].
  - intros [].
  - intros [H|[]]. discriminate H.
  - intros [H|[H|[]]]; [discriminate H|].
    inversion H; subst id fulfillment; clear H.
    cbn [trackingNumber shippingCarrierCode lineItems].
    split; [exact Hebay|]. split; [reflexivity|]. split; [reflexivity|].
    split; [apply TrackerFacts.mapCarrierCode_range|].
    exists creds, ebayOrder.
    rewrite !map_map. cbn [fulfilled_lineItemId fulfilled_quantity].
    repeat split; auto.
Qed.

Lemma updateTrackingOnPlatform_sends_order_items_witness :
  In (CreateShippingFulfillment "12-34567-89012" SampleTracker.fulfillment)
     (fst (updateTrackingOnPlatform SampleTracker.accepting "ebay"
             "12-34567-89012" "9400111899223" "usps priority"
             (Some SampleShop.ebayCredentials)))
  /\ map fulfilled_lineItemId (lineItems SampleTracker.fulfillment)
     = ["1001"; "1002"].
Proof.
  assert (H : In (CreateShippingFulfillment "12-34567-89012"
                    SampleTracker.fulfillment)
                 (fst (updateTrackingOnPlatform SampleTracker.accepting "ebay"
                         "12-34567-89012" "9400111899223" "usps priority"
                         (Some SampleShop.ebayCredentials))))
    by (vm_compute; right; left; reflexivity).
  split; [exact H|].
  destruct (updateTrackingOnPlatform_sends_order_items _ _ _ _ _ _ _ _ H)
    as [_ [_ [_ [_ [creds [ebayOrder [_ [_ [Horder [Hitems _]]]]]]]]]].
  rewrite Hitems. cbn in Horder. inversion Horder. reflexivity.
Defined.

(** X25. [updateTrackingOnPlatform] answers [true] exactly when eBay
    accepted the fulfillment: a platform other than ['ebay'], missing
    credentials or refresh token, an order eBay does not return, and a
    rejected call all give [false]. *)
Theorem updateTrackingOnPlatform_true_iff :
  forall (world : TrackerWorld) (platform orderId number carrier : string)
         (ebayCredentials : option Json),
    snd (updateTrackingOnPlatform world platform orderId number carrier
           ebayCredentials) = true
    <-> exists creds fulfillment id,
        ebayCredentials = Some creds
        /\ In (CreateShippingFulfillment orderId fulfillment)
              (fst (updateTrackingOnPlatform world platform orderId number
                      carrier ebayCredentials))
        /\ createShippingFulfillment (createEbayOrdersApi world creds)
             orderId fulfillment = Resolved id.
Proof.
  intros world platform orderId number carrier ebayCredentials.
  destruct (TrackerFacts.updateTrackingOnPlatform_calls
              world platform orderId number carrier ebayCredentials)
    as [Hnone|[creds [Hcreds [Hebay [Htoken
         [[Hcalls Hfalse]|[ebayOrder [Horder [Hcalls Hiff]]]]]]]]].
  - split.
    + intros Htrue. exfalso. revert Hnone Htrue.
      unfold updateTrackingOnPlatform.
      destruct ebayCredentials as [creds|]; [|discriminate].
      destruct (String.eqb platform "ebay"
                && negb (falsy (prop "refreshToken" creds)));
        [|discriminate].
      destruct (getOrder (createEbayOrdersApi world creds) orderId)
        as [[ebayOrder|]|e]; try discriminate.
      match goal with
      | |- context [createShippingFulfillment ?api ?id ?f] =>
          destruct (createShippingFulfillment api id f)
      end; discriminate.
    + intros [creds [fulfillment [id [_ [Hin _]]]]].
      rewrite Hnone in Hin. destruct Hin.
  - rewrite Hfalse, Hcalls. split; [discriminate|].
    intros [creds' [fulfillment [id [_ [[H|[]] _]]]]]. discriminate H.
  - rewrite Hcalls. split.
    + intros Htrue. apply Hiff in Htrue. destruct Htrue as [id Hid].
      eexists creds, _, id.
      split; [exact Hcreds|]. split; [right; left; reflexivity|].
      exact Hid.
    + intros [creds' [fulfillment [id [Hcreds' [Hin Hid]]]]].
      apply Hiff. exists id.
      assert (creds' = creds) by congruence. subst creds'.
      destruct Hin as [H|[H|[]]]; [discriminate H|].
      inversion H; subst fulfillment. exact Hid.
Qed.

(** X26. [getTracking] asks a tracking API only with that API's
    credentials and only about the given number: AliExpress needs
    credentials with a truthy access token, EasyPost a non-empty key and
    a non-empty tracking number; and the tracking it returns is always for
    the given number. *)
Theorem getTracking_calls_need_credentials :
  forall (world : TrackingWorld) (number : string)
         (carrier : option string) (credentials : TrackingCredentials),
    tracking_number (snd (getTracking world number carrier credentials))
    = number
    /\ forall call,
        In call (fst (getTracking world number carrier credentials)) ->
        match call with
        | AskAliExpress asked =>
            asked = number
            /\ exists aliexpress,
                tracking_aliexpress credentials = Some aliexpress
                /\ falsy (prop "accessToken" aliexpress) = false
        | AskEasyPost key asked hint =>
            asked = number /\ hint = carrier
            /\ easypostApiKey credentials = Some key
            /\ key <> EmptyString /\ number <> EmptyString
        end.
Proof.
  intros world number carrier credentials.
  assert (Hafter : tracking_number
                     (snd (afterAliExpress world number carrier credentials))
                   = number).
  { unfold afterAliExpress.
    destruct (easypostApiKey credentials) as [key|]; [|reflexivity].
    destruct (truthy key && truthy number); [|reflexivity].
    destruct (createTracker world key number carrier); reflexivity. }
  assert (Heasy : forall call,
             In call (fst (afterAliExpress world number carrier
                             credentials)) ->
             match call with
             | AskAliExpress asked => False
             | AskEasyPost key asked hint =>
                 asked = number /\ hint = carrier
                 /\ easypostApiKey credentials = Some key
                 /\ key <> EmptyString /\ number <> EmptyString
             end).
  { intros call Hin.
    destruct (TrackerFacts.afterAliExpress_calls _ _ _ _ _ Hin)
      as [-> [key [Hkey [Htkey Htnumber]]]].
    rewrite Hkey. cbn [orElse]. repeat split; auto.
    - intros ->. discriminate Htkey.
    - intros ->. discriminate Htnumber. }
  assert (Heasy' : forall call,
             In call (fst (afterAliExpress world number carrier
                             credentials)) ->
             match call with
             | AskAliExpress asked =>
                 asked = number
                 /\ exists aliexpress,
                     tracking_aliexpress credentials = Some aliexpress
                     /\ falsy (prop "accessToken" aliexpress) = false
             | AskEasyPost key asked hint =>
                 asked = number /\ hint = carrier
                 /\ easypostApiKey credentials = Some key
                 /\ key <> EmptyString /\ number <> EmptyString
             end).
  { intros call Hin. specialize (Heasy call Hin).
    destruct call; [destruct Heasy | exact Heasy]. }
  unfold getTracking.
  destruct (tracking_aliexpress credentials) as [aliexpress|] eqn:Hali;
    [|split; [exact Hafter | exact Heasy']].
  destruct (falsy (prop "accessToken" aliexpress)) eqn:Htoken;
    cbn [negb]; [split; [exact Hafter | exact Heasy']|].
  assert (Hask : number = number
                 /\ exists found,
                     Some aliexpress = Some found
                     /\ falsy (prop "accessToken" found) = false)
    by (split; [reflexivity | now exists aliexpress]).
  destruct (afterAliExpress world number carrier credentials)
    as [calls tracking].
  cbn [fst snd] in Hafter, Heasy'.
  destruct (callAliExpressApi world
              "aliexpress.logistics.ds.trackinginfo.query" number
              aliexpress) as [[[[] [found|]]|]|e];
    cbn [fst snd];
    (split;
     [first [exact Hafter | reflexivity]
     |intros call [<-|Hin];
      [exact Hask | first [exact (Heasy' call Hin) | destruct Hin]]]).
Qed.

Lemma getTracking_calls_need_credentials_witness :
  In (AskAliExpress "LP00123456789")
     (fst (getTracking SampleTracker.silent "LP00123456789" None
             SampleTracker.aliexpressCredentials))
  /\ exists aliexpress,
      tracking_aliexpress SampleTracker.aliexpressCredentials
      = Some aliexpress
      /\ falsy (prop "accessToken" aliexpress) = false.
Proof.
  assert (H : In (AskAliExpress "LP00123456789")
                 (fst (getTracking SampleTracker.silent "LP00123456789"
                         None SampleTracker.aliexpressCredentials)))
    by (left; reflexivity).
  split; [exact H|].
  exact (proj2 (proj2 (getTracking_calls_need_credentials
                         SampleTracker.silent "LP00123456789" None
                         SampleTracker.aliexpressCredentials)
                      (AskAliExpress "LP00123456789") H)).
Defined.

(** X27. [getTracking] does not fail with its sources: when AliExpress
    and EasyPost both reject, or are not configured, it returns the basic
    tracking for the number, with the given carrier or ['Unknown'], the
    notice that tracking is unavailable, and no events. *)
Theorem getTracking_falls_back :
  forall (world : TrackingWorld) (number : string)
         (carrier : option string) (credentials : TrackingCredentials),
    (forall method asked creds,
        exists e, callAliExpressApi world method asked creds = Rejected e) ->
    (forall key asked hint,
        exists e, createTracker world key asked hint = Rejected e) ->
    snd (getTracking world number carrier credentials)
    = {| tracking_carrier := orElse carrier "Unknown";
         tracking_number := number;
         tracking_status := UNAVAILABLE;
         estimatedDelivery := None;
         tracking_events := [] |}.
Proof.
  intros world number carrier credentials Hali Heasy.
  assert (Hafter : snd (afterAliExpress world number carrier credentials)
                   = basicTracking number carrier).
  { unfold afterAliExpress.
    destruct (easypostApiKey credentials) as [key|]; [|reflexivity].
    destruct (truthy key && truthy number); [|reflexivity].
    destruct (Heasy key number carrier) as [e ->]. reflexivity. }
  unfold getTracking.
  destruct (tracking_aliexpress credentials) as [aliexpress|];
    [|exact Hafter].
  destruct (falsy (prop "accessToken" aliexpress)); cbn [negb];
    [exact Hafter|].
  destruct (Hali "aliexpress.logistics.ds.trackinginfo.query" number
              aliexpress) as [e ->].
  destruct (afterAliExpress world number carrier credentials)
    as [calls tracking].
  exact Hafter.
Qed.

Lemma getTracking_falls_back_witness :
  tracking_status
    (snd (getTracking SampleTracker.silent "LP00123456789" None
            SampleTracker.aliexpressCredentials))
  = UNAVAILABLE.
Proof.
  rewrite (getTracking_falls_back SampleTracker.silent "LP00123456789"
             None SampleTracker.aliexpressCredentials
             (fun _ _ _ => ex_intro _ "timeout" eq_refl)
             (fun _ _ _ => ex_intro _ "timeout" eq_refl)).
  reflexivity.
Defined.

(* ===================================================================== *)
(** ** The eBay token cache *)
(* ===================================================================== *)

Module AuthFacts.
Import EbayAuth.

Lemma get_set_same (V : Type) (m : JsMap.t V) k v :
  JsMap.get k (JsMap.set k v m) = Some v.
Proof.
  induction m as [|[k' v'] m IH]; cbn [JsMap.set JsMap.get].
  - now rewrite String.eqb_refl.
  - destruct (String.eqb k' k) eqn:E; cbn [JsMap.get].
    + now rewrite String.eqb_refl.
    + now rewrite E.
Qed.

Lemma get_set_other (V : Type) (m : JsMap.t V) k k' v :
  k <> k' -> JsMap.get k (JsMap.set k' v m) = JsMap.get k m.
Proof.
  intros Hne.
  assert (Hk : String.eqb k' k = false)
    by (apply String.eqb_neq; congruence).
  induction m as [|[k0 v0] m IH]; cbn [JsMap.set JsMap.get].
  - now rewrite Hk.
  - destruct (String.eqb k0 k') eqn:E; cbn [JsMap.get].
    + apply String.eqb_eq in E. subst k0. now rewrite Hk.
    + now rewrite IH.
Qed.

Lemma append_length a b :
  String.length (a ++ b) = String.length a + String.length b.
Proof. induction a as [|c a IH]; cbn; [reflexivity | now rewrite IH]. Qed.

Lemma append_inj_l a b s : (a ++ s)%string = (b ++ s)%string -> a = b.
Proof.
  revert b. induction a as [|c a IH]; intros [|d b] H; cbn in H.
  - reflexivity.
  - exfalso. apply (f_equal String.length) in H. cbn in H.
    rewrite append_length in H. lia.
  - exfalso. apply (f_equal String.length) in H. cbn in H.
    rewrite append_length in H. lia.
  - inversion H. f_equal. now apply IH.
Qed.

(** The last character of a string, [None] for the empty one. *)
Lemma last_append a c d b :
  (a ++ String c EmptyString)%string = (b ++ String d EmptyString)%string ->
  c = d.
Proof.
  revert b. induction a as [|x a IH]; intros [|y b] H; cbn in H.
  - now inversion H.
  - inversion H as [[Hx Hrest]]. destruct b; discriminate Hrest.
  - inversion H as [[Hx Hrest]]. destruct a; discriminate Hrest.
  - inversion H. now apply (IH b).
Qed.

(** The key of the cache tells client ids and environments apart. *)
Lemma cacheKey_inj c c' :
  cacheKey c = cacheKey c' ->
  clientId c = clientId c' /\ envOf c = envOf c'.
Proof.
  unfold cacheKey.
  destruct (envOf c) eqn:E, (envOf c') eqn:E'; cbn [envName]; intros H.
  - split; [|reflexivity].
    apply (append_inj_l _ _ ":sandbox"). exact H.
  - exfalso.
    change (clientId c ++ ":" ++ "sandbox")%string
      with (clientId c ++ (":sandbo" ++ "x"))%string in H.
    change (clientId c' ++ ":" ++ "production")%string
      with (clientId c' ++ (":productio" ++ "n"))%string in H.
    rewrite <- !NormalizerMore.append_assoc in H.
    apply last_append in H. discriminate H.
  - exfalso.
    change (clientId c' ++ ":" ++ "sandbox")%string
      with (clientId c' ++ (":sandbo" ++ "x"))%string in H.
    change (clientId c ++ ":" ++ "production")%string
      with (clientId c ++ (":productio" ++ "n"))%string in H.
    rewrite <- !NormalizerMore.append_assoc in H.
    apply last_append in H. discriminate H.
  - split; [|reflexivity].
    apply (append_inj_l _ _ ":production"). exact H.
Qed.

Lemma cacheKey_same c c' :
  clientId c' = clientId c -> envOf c' = envOf c ->
  cacheKey c' = cacheKey c.
Proof. unfold cacheKey. now intros -> ->. Qed.

(** A call that resolves after a request has stored what it returns. *)
Lemma getAccessToken_granted world config tokenCache response data :
  cachedToken world config tokenCache = None ->
  fetch world (tokenRequest world config) = Resolved response ->
  ok response = true ->
  json response = Resolved data ->
  getAccessToken world config tokenCache
  = (JsMap.set (cacheKey config)
       {| accessToken := access_token data;
          expiresAt := (Date_now_after world + expires_in data * 1000)%Z |}
       tokenCache,
     ([tokenRequest world config], Resolved (access_token data))).
Proof.
  intros Hcache Hfetch Hok Hjson. unfold getAccessToken.
  now rewrite Hcache, Hfetch, Hok, Hjson.
Qed.

End AuthFacts.

(** X28. A token that [getAccessToken] obtained is served from the cache,
    without a request, exactly until 60 seconds before it expires; from
    then on a call makes one new request. The cache goes by client id and
    environment only: a call with another secret or with a refresh token
    is served the same token. *)
Theorem getAccessToken_serves_cached_token :
  forall (world later : EbayAuth.World)
         (config config' : EbayAuth.EbayAuthConfig)
         (tokenCache : JsMap.t EbayAuth.CachedToken)
         (response : EbayAuth.Response) (data : EbayAuth.TokenData),
    EbayAuth.cachedToken world config tokenCache = None ->
    EbayAuth.fetch world (EbayAuth.tokenRequest world config)
    = Resolved response ->
    EbayAuth.ok response = true ->
    EbayAuth.json response = Resolved data ->
    EbayAuth.clientId config' = EbayAuth.clientId config ->
    EbayAuth.envOf config' = EbayAuth.envOf config ->
    let cache := fst (EbayAuth.getAccessToken world config tokenCache) in
    let expiry :=
      (EbayAuth.Date_now_after world + EbayAuth.expires_in data * 1000)%Z in
    ((EbayAuth.Date_now later < expiry - 60000)%Z ->
     EbayAuth.getAccessToken later config' cache
     = (cache, ([], Resolved (EbayAuth.access_token data))))
    /\ ((expiry - 60000 <= EbayAuth.Date_now later)%Z ->
        fst (snd (EbayAuth.getAccessToken later config' cache))
        = [EbayAuth.tokenRequest later config']).
Proof.
  intros world later config config' tokenCache response data
         Hcache Hfetch Hok Hjson Hid Henv. cbv zeta.
  rewrite (AuthFacts.getAccessToken_granted
             world config tokenCache response data Hcache Hfetch Hok Hjson).
  cbn [fst].
  unfold EbayAuth.getAccessToken, EbayAuth.cachedToken.
  rewrite (AuthFacts.cacheKey_same config config' Hid Henv).
  rewrite AuthFacts.get_set_same.
  cbn [EbayAuth.expiresAt EbayAuth.accessToken].
  split; intros Htime.
  - apply Z.ltb_lt in Htime. now rewrite Htime.
  - apply Z.ltb_ge in Htime. rewrite Htime.
    destruct (EbayAuth.fetch later (EbayAuth.tokenRequest later config'))
      as [answer|e]; [|reflexivity].
    destruct (EbayAuth.ok answer).
    + destruct (EbayAuth.json answer); reflexivity.
    + destruct (EbayAuth.text answer); reflexivity.
Qed.

Lemma getAccessToken_serves_cached_token_witness :
  snd (EbayAuth.getAccessToken (EbayAuth.granting 1000) EbayAuth.selling
         (fst (EbayAuth.getAccessToken (EbayAuth.granting 0)
                 EbayAuth.browsing JsMap.empty)))
  = ([], Resolved "v^1.1#token").
Proof.
  refine (f_equal snd
            (proj1 (getAccessToken_serves_cached_token
                      (EbayAuth.granting 0) (EbayAuth.granting 1000)
                      EbayAuth.browsing EbayAuth.selling JsMap.empty
                      _ _ eq_refl eq_refl eq_refl eq_refl eq_refl eq_refl)
                   _)).
  reflexivity.
Defined.

(** X29. [getAccessToken] touches the cache under its own key only, and
    only when it resolves after a request: the token cached for another
    client id or another environment stays as it is, and a call that
    rejects leaves the whole cache as it was. *)
Theorem getAccessToken_keeps_other_tokens :
  forall (world : EbayAuth.World)
         (config other : EbayAuth.EbayAuthConfig)
         (tokenCache : JsMap.t EbayAuth.CachedToken),
    let cache := fst (EbayAuth.getAccessToken world config tokenCache) in
    (EbayAuth.clientId other <> EbayAuth.clientId config
     \/ EbayAuth.envOf other <> EbayAuth.envOf config ->
     JsMap.get (EbayAuth.cacheKey other) cache
     = JsMap.get (EbayAuth.cacheKey other) tokenCache)
    /\ (forall e,
           snd (snd (EbayAuth.getAccessToken world config tokenCache))
           = Rejected e ->
           cache = tokenCache).
Proof.
  intros world config other tokenCache. cbv zeta.
  unfold EbayAuth.getAccessToken.
  destruct (EbayAuth.cachedToken world config tokenCache) as [token|].
  { split; [reflexivity|]. intros e H. reflexivity. }
  destruct (EbayAuth.fetch world (EbayAuth.tokenRequest world config))
    as [response|e0]; [|split; reflexivity].
  destruct (EbayAuth.ok response).
  - destruct (EbayAuth.json response) as [data|e0]; [|split; reflexivity].
    cbn [fst snd]. split; [|discriminate].
    intros Hother. apply AuthFacts.get_set_other.
    intros Hkey. apply AuthFacts.cacheKey_inj in Hkey.
    destruct Hkey as [Hid Henv]. destruct Hother; congruence.
  - destruct (EbayAuth.text response); split; reflexivity.
Qed.
